(** * contact_base_bot: a shallow embedding of [src/main.py]

    The bot is a Telegram front-end over a small company table: a
    registration form driven by per-chat state, a search flow, and a flow
    that forwards input to an external API and parses the five-line answer.

    Python [str] values are sequences of Unicode code points, so they are
    modelled as [list N]; dictionaries are [gmap]s; the handlers are state
    transformers over an explicit bot state, with the collaborators (HTTP
    endpoint, SQLite faults, Telegram file lookup, clock) supplied by an
    environment record. *)

From Stdlib Require Import ZArith NArith QArith DecimalString Lia.
From stdpp Require Import gmap list strings fin_maps.

Local Open Scope N_scope.

(** ** Python strings *)

Abbreviation pystr := (list N).

Module PyStr.

(** Decoding of the UTF-8 bytes of a Rocq string literal into code
    points; it is only used to write the literals of the source
    readably.  Malformed input keeps the offending byte. *)
Fixpoint utf8_decode (bs : list N) : pystr :=
  match bs with
  | [] => []
  | b :: r =>
      if b <? 128 then b :: utf8_decode r
      else if b <? 224 then
        match r with
        | b1 :: r1 => ((b - 192) * 64 + (b1 - 128)) :: utf8_decode r1
        | _ => [b]
        end
      else if b <? 240 then
        match r with
        | b1 :: b2 :: r2 =>
            ((b - 224) * 4096 + (b1 - 128) * 64 + (b2 - 128)) :: utf8_decode r2
        | _ => [b]
        end
      else
        match r with
        | b1 :: b2 :: b3 :: r3 =>
            ((b - 240) * 262144 + (b1 - 128) * 4096 + (b2 - 128) * 64 + (b3 - 128))
              :: utf8_decode r3
        | _ => [b]
        end
  end.

Definition u (s : string) : pystr :=
  utf8_decode (map Ascii.N_of_ascii (String.list_ascii_of_string s)).

(** [str.isspace] for one character (the table of CPython's
    [_PyUnicode_IsWhitespace]). *)
Definition isspace (c : N) : bool :=
  ((9 <=? c) && (c <=? 13)) || ((28 <=? c) && (c <=? 32))
  || (c =? 133) || (c =? 160) || (c =? 5760)
  || ((8192 <=? c) && (c <=? 8202))
  || (c =? 8232) || (c =? 8233) || (c =? 8239) || (c =? 8287) || (c =? 12288).

Fixpoint lstrip (s : pystr) : pystr :=
  match s with
  | [] => []
  | c :: r => if isspace c then lstrip r else s
  end.

Definition rstrip (s : pystr) : pystr := rev (lstrip (rev s)).

(** [s.strip()] *)
Definition strip (s : pystr) : pystr := rstrip (lstrip s).

(** [s.startswith(p)] *)
Fixpoint startswith (p s : pystr) : bool :=
  match p, s with
  | [], _ => true
  | _ :: _, [] => false
  | a :: p', b :: s' => (a =? b) && startswith p' s'
  end.

(** [p in s] *)
Fixpoint contains (p s : pystr) : bool :=
  startswith p s ||
  match s with
  | [] => false
  | _ :: r => contains p r
  end.

(** [s.split(sep)] for a one-character separator. *)
Fixpoint split_char (sep : N) (s : pystr) : list pystr :=
  match s with
  | [] => [[]]
  | c :: r =>
      if c =? sep then [] :: split_char sep r
      else match split_char sep r with
           | [] => [[c]]
           | w :: ws => (c :: w) :: ws
           end
  end.

(** [sep.join(ls)] *)
Fixpoint join (sep : pystr) (ls : list pystr) : pystr :=
  match ls with
  | [] => []
  | [l] => l
  | l :: rest => l ++ sep ++ join sep rest
  end.

(** The scan of [s.replace(old, new)] for a non-empty [old]: [skip]
    counts the characters of the current occurrence still to drop. *)
Fixpoint replace_go (old new : pystr) (skip : nat) (s : pystr) : pystr :=
  match s with
  | [] => []
  | c :: r =>
      match skip with
      | S k => replace_go old new k r
      | O =>
          if startswith old s
          then new ++ replace_go old new (length old - 1)%nat r
          else c :: replace_go old new 0%nat r
      end
  end.

(** [s.replace(old, new)]; with an empty [old], Python puts [new]
    before every character and at the end. *)
Definition replace (old new s : pystr) : pystr :=
  match old with
  | [] => new ++ concat (map (λ c, c :: new) s)
  | _ :: _ => replace_go old new 0%nat s
  end.

(** The first whitespace-delimited word of [s] when [s] does not start
    with whitespace: [s.split()[0]]. *)
Fixpoint first_word (s : pystr) : pystr :=
  match s with
  | [] => []
  | c :: r => if isspace c then [] else c :: first_word r
  end.

(** [s.split(c)[0]] *)
Fixpoint before_char (sep : N) (s : pystr) : pystr :=
  match s with
  | [] => []
  | c :: r => if c =? sep then [] else c :: before_char sep r
  end.

Definition eqb (a b : pystr) : bool := bool_decide (a = b).

End PyStr.

Import PyStr.

Arguments u : simpl never.

(** ** Regular expressions (for [validate_email]) *)

Module Regex.

(** The fragment of [re] the source uses: character classes given by
    ranges, concatenation, alternation and repetition. *)
Inductive re : Type :=
| Void
| Eps
| Cls (ranges : list (N * N))
| Cat (a b : re)
| Alt (a b : re)
| Star (a : re).

Definition in_class (ranges : list (N * N)) (c : N) : bool :=
  existsb (λ r, (fst r <=? c) && (c <=? snd r)) ranges.

Fixpoint nullable (r : re) : bool :=
  match r with
  | Void => false
  | Eps => true
  | Cls _ => false
  | Cat a b => nullable a && nullable b
  | Alt a b => nullable a || nullable b
  | Star _ => true
  end.

(** Brzozowski derivative of [r] by the character [c]. *)
Fixpoint deriv (c : N) (r : re) : re :=
  match r with
  | Void => Void
  | Eps => Void
  | Cls rs => if in_class rs c then Eps else Void
  | Cat a b =>
      if nullable a then Alt (Cat (deriv c a) b) (deriv c b)
      else Cat (deriv c a) b
  | Alt a b => Alt (deriv c a) (deriv c b)
  | Star a => Cat (deriv c a) (Star a)
  end.

Definition fullmatch (r : re) (s : pystr) : bool :=
  nullable (fold_left (λ r c, deriv c r) s r).

(** [r+] and [r{2,}] *)
Definition plus (r : re) : re := Cat r (Star r).
Definition at_least2 (r : re) : re := Cat r (Cat r (Star r)).

(** [re.match('^' body '$', s) is not None]: without [re.MULTILINE],
    [$] matches at the end of the string and just before a newline that
    ends the string. *)
Definition match_anchored (body : re) (s : pystr) : bool :=
  fullmatch body s ||
  match rev s with
  | 10 :: r => fullmatch body (rev r)
  | _ => false
  end.

End Regex.

(** ** Python values, exceptions and results *)

Local Set Warnings "-register-all".

(** A decoded JSON document, as [response.json()] returns it.  A float is
    kept as its rational value: the program only observes whether it is
    zero. *)
Inductive pyval : Type :=
| VNone
| VBool (b : bool)
| VInt (z : Z)
| VFloat (f : Q)
| VStr (s : pystr)
| VList (l : list pyval)
| VDict (d : gmap string pyval).

(** [bool(v)] *)
Definition truthy (v : pyval) : bool :=
  match v with
  | VNone => false
  | VBool b => b
  | VInt z => negb (z =? 0)%Z
  | VFloat f => negb (Qeq_bool f 0%Q)
  | VStr s => match s with [] => false | _ => true end
  | VList l => match l with [] => false | _ => true end
  | VDict d => match map_to_list d with [] => false | _ => true end
  end.

(** [a or b] *)
Definition py_or (a b : pyval) : pyval := if truthy a then a else b.

Inductive exn_class : Type :=
| RequestException   (* requests.RequestException and its subclasses
                        (Timeout, ConnectionError, HTTPError, ...) *)
| AttributeError
| KeyError
| DatabaseError      (* sqlite3.Error and its subclasses *)
| OtherException.

(** An exception: its class and [str(e)]. *)
Record exn : Type := Exn { exn_class_of : exn_class; exn_str : pystr }.

Inductive result (A : Type) : Type :=
| Ok (a : A)
| Raise (e : exn).
Arguments Ok {A} a.
Arguments Raise {A} e.

Definition is_request_exception (e : exn) : bool :=
  match exn_class_of e with
  | RequestException => true
  | _ => false
  end.

(** ** Data model *)

(** The value of [user_states[chat]['state']]. *)
Inductive flow_state : Type :=
| waiting_name
| waiting_inn
| waiting_phone
| waiting_contact
| waiting_email
| waiting_api_data.

#[global] Instance flow_state_eq_dec : EqDecision flow_state.
Proof. solve_decision. Defined.

(** An entry of [user_states]: [{'state': ..., 'data': {...}}]; the API
    flow stores no ['data'] key. *)
Record user_state : Type := UserState {
  state : flow_state;
  data : option (gmap string pystr)
}.

(** A row of the table [companies] ([SELECT *] yields the columns in this
    order; [name] is [NOT NULL]). *)
Record company_row : Type := CompanyRow {
  row_id : Z;
  row_name : pystr;
  row_inn : option pystr;
  row_phone : option pystr;
  row_contact_person : option pystr;
  row_email : option pystr;
  row_created_at : pystr
}.

Record file_row : Type := FileRow {
  file_row_id : Z;
  file_company_id : Z;
  file_url : pystr;
  file_type : pystr;
  file_caption : option pystr;
  file_created_at : pystr
}.

(** The SQLite database: both tables with their AUTOINCREMENT counters. *)
Record database : Type := Database {
  companies : list company_row;
  companies_seq : Z;
  files : list file_row;
  files_seq : Z
}.

(** Telegram messages.  A handler registered without [content_types]
    only receives messages of content type text, whose [text] is a [str]. *)
Record text_message : Type := TextMessage {
  chat_id : Z;
  message_id : Z;
  text : pystr
}.

Inductive file_kind : Type := photo | document | audio | video.

Record file_message : Type := FileMessage {
  file_chat_id : Z;
  file_message_id : Z;
  kind : file_kind;
  file_id : pystr;              (* for a photo: that of [message.photo[-1]] *)
  file_size : option Z;         (* the attachment's [file_size] attribute *)
  caption : option pystr
}.

Inductive message : Type :=
| MText (m : text_message)
| MFile (m : file_message)
| MOther (chat message : Z).     (* stickers, locations, ...: no handler *)

Inductive markup : Type :=
| NoMarkup
| ReplyKeyboardMarkup (buttons : list pystr)
| ReplyKeyboardRemove.

(** The request envelope of [APIClient.send_request]; the JSON text of a
    file description is kept structured. *)
Inductive api_content : Type :=
| ContentText (s : pystr)
| ContentFile (url type : pystr) (size : option Z) (caption : pystr).

Record payload : Type := Payload {
  payload_bot_id : Z;
  payload_chat : Z * Z;          (* f"chat_{chat_id}_{message_id}" *)
  payload_message : api_content
}.

(** What the bot does to the outside world, in order. *)
Inductive event : Type :=
| EReply (chat reply_to : Z) (body : pystr) (m : markup)   (* bot.reply_to *)
| ESend (chat : Z) (body : pystr) (m : markup)             (* bot.send_message *)
| EPost (p : payload)                                      (* requests.post *)
| ESleep (seconds : N)                                     (* time.sleep *)
| EGetFile (id : pystr)                                    (* bot.get_file *)
| ELogError (line : pystr).                                (* logger.error *)

(** The outcome of one HTTP attempt: the decoded body, or the exception
    raised by [requests.post], [raise_for_status] or [response.json]. *)
Inductive attempt_outcome : Type :=
| Response (body : pyval)
| Failed (e : exn).

(** The collaborators during the handling of one message. *)
Record env : Type := Env {
  net : nat → attempt_outcome;        (* outcome of the i-th POST of a call *)
  save_company_fault : option exn;    (* SQLite failing in [save_company] *)
  save_file_fault : option exn;       (* SQLite failing in [save_file] *)
  get_file : pystr → result pystr;    (* [bot.get_file(id).file_path] *)
  now : pystr                         (* CURRENT_TIMESTAMP *)
}.

(** The process state: the two global dictionaries, the database and the
    trace of effects. *)
Record bot_state : Type := BotState {
  user_states : gmap Z user_state;
  search_states : gmap Z (gmap string (option pystr));
  db : database;
  log : list event
}.

(** ** The handler monad: state and exceptions *)

Definition prog (A : Type) : Type := bot_state → result A * bot_state.

#[global] Instance prog_ret : MRet prog := λ A a st, (Ok a, st).

#[global] Instance prog_bind : MBind prog := λ A B k m st,
  match m st with
  | (Ok a, st') => k a st'
  | (Raise e, st') => (Raise e, st')
  end.

Definition raise {A} (e : exn) : prog A := λ st, (Raise e, st).

(** [try: body except Exception as e: handler(e)] *)
Definition try_except {A} (body : prog A) (handler : exn → prog A) : prog A :=
  λ st, match body st with
        | (Ok a, st') => (Ok a, st')
        | (Raise e, st') => handler e st'
        end.

Definition gets {A} (f : bot_state → A) : prog A := λ st, (Ok (f st), st).

Definition modify (f : bot_state → bot_state) : prog unit := λ st, (Ok tt, f st).

Definition emit (ev : event) : prog unit :=
  modify (λ st, BotState (user_states st) (search_states st) (db st) (log st ++ [ev])).

Definition set_user_states (us : gmap Z user_state) : prog unit :=
  modify (λ st, BotState us (search_states st) (db st) (log st)).

Definition set_search_states (ss : gmap Z (gmap string (option pystr))) : prog unit :=
  modify (λ st, BotState (user_states st) ss (db st) (log st)).

Definition set_db (d : database) : prog unit :=
  modify (λ st, BotState (user_states st) (search_states st) d (log st)).

Definition lift_result {A} (r : result A) : prog A := λ st, (r, st).

Definition reply_to (m : text_message) (body : pystr) (k : markup) : prog unit :=
  emit (EReply (chat_id m) (message_id m) body k).

Definition send_message (chat : Z) (body : pystr) (k : markup) : prog unit :=
  emit (ESend chat body k).

(** [str(n)] for integers. *)
Definition str_of_Z (z : Z) : pystr := u (NilZero.string_of_int (Z.to_int z)).
Definition str_of_nat (n : nat) : pystr := str_of_Z (Z.of_nat n).

(** [str(v)] of a column value: [None] prints as the word None. *)
Definition str_of_column (c : option pystr) : pystr :=
  match c with
  | Some s => s
  | None => u "None"
  end.

(** The class name in the message of an [AttributeError]. *)
Definition type_name (v : pyval) : pystr :=
  match v with
  | VNone => u "NoneType"
  | VBool _ => u "bool"
  | VInt _ => u "int"
  | VFloat _ => u "float"
  | VStr _ => u "str"
  | VList _ => u "list"
  | VDict _ => u "dict"
  end.

Definition no_attribute (v : pyval) (attr : string) : exn :=
  Exn AttributeError
    (u "'" ++ type_name v ++ u "' object has no attribute '" ++ u attr ++ u "'").

Definition nl : pystr := [10].

(** ** Slicing and chunking *)

Section Chunking.
Context {A : Type}.

(** [s[i:j]] for [0 <= i <= j] *)
Definition slice (s : list A) (i j : nat) : list A := take (j - i) (drop i s).

(** [range(start, stop, step)] for a positive [step], by the number of
    elements still to produce. *)
Fixpoint range_from (start step count : nat) : list nat :=
  match count with
  | O => []
  | S k => start :: range_from (start + step) step k
  end.

(** [range(0, stop, step)]: it has [ceil(stop / step)] elements. *)
Definition range_step (stop step : nat) : list nat :=
  range_from 0 step ((stop + (step - 1)) / step)%nat.

(** [[s[i:i + size] for i in range(0, len(s), size)]] *)
Definition chunks (size : nat) (s : list A) : list (list A) :=
  map (λ i, slice s i (i + size)) (range_step (length s) size).
End Chunking.

(** ** The program *)

Section Bot.

Set Default Proof Using "Type".

(** Tables of the Python runtime and of SQLite, and the configuration
    read from [config.ini]. *)
Context (isdigit_char : N → bool).             (* [str.isdigit] on one character *)
Context (str_lower : pystr → pystr).           (* [str.lower] *)
Context (sql_like : pystr → pystr → bool).     (* [sql_like pattern value]: SQLite's [value LIKE pattern] *)
Context (order_by_created_at_desc : list company_row → list company_row).
Context (MAX_RETRIES : Z) (BOT_ID : Z) (TOKEN : pystr).

(** *** Validators *)

(** [s.isdigit()]: false on the empty string. *)
Definition str_isdigit (s : pystr) : bool :=
  match s with
  | [] => false
  | _ :: _ => forallb isdigit_char s
  end.

Definition validate_inn (inn : pystr) : bool :=
  if negb (str_isdigit inn) then false
  else if negb ((length inn =? 10)%nat || (length inn =? 12)%nat) then false
  else true.

(** [[a-zA-Z0-9._%+-]+@[a-zA-Z0-9.-]+\.[a-zA-Z]{2,}] *)
Definition email_pattern : Regex.re :=
  let alnum := [(97, 122); (65, 90); (48, 57)] in
  let local := Regex.Cls (alnum ++ [(46, 46); (95, 95); (37, 37); (43, 43); (45, 45)]) in
  let domain := Regex.Cls (alnum ++ [(46, 46); (45, 45)]) in
  let letter := Regex.Cls [(97, 122); (65, 90)] in
  Regex.Cat (Regex.plus local)
    (Regex.Cat (Regex.Cls [(64, 64)])
       (Regex.Cat (Regex.plus domain)
          (Regex.Cat (Regex.Cls [(46, 46)]) (Regex.at_least2 letter)))).

Definition validate_email (email : pystr) : bool :=
  Regex.match_anchored email_pattern email.

Definition validate_phone (phone : pystr) : bool :=
  let phone :=
    replace (u ")") []
      (replace (u "(") []
         (replace (u "-") []
            (replace (u " ") []
               (replace (u "+") [] phone)))) in
  str_isdigit phone && (10 <=? length phone)%nat.

(** *** DatabaseManager *)

Definition save_company (e : env) (company_data : gmap string pystr) : prog Z :=
  match save_company_fault e with
  | Some x => raise x
  | None =>
      match company_data !! "name" with
      | None =>
          raise (Exn DatabaseError (u "NOT NULL constraint failed: companies.name"))
      | Some name =>
          d ← gets db;
          let company_id := (companies_seq d + 1)%Z in
          set_db (Database
                    (companies d ++
                       [CompanyRow company_id name
                          (company_data !! "inn")
                          (company_data !! "phone")
                          (company_data !! "contact_person")
                          (company_data !! "email")
                          (now e)])
                    company_id (files d) (files_seq d));;
          mret company_id
      end
  end.

Definition save_file (e : env) (company_id : Z) (file_url file_type : pystr)
    (caption : option pystr) : prog unit :=
  match save_file_fault e with
  | Some x => raise x
  | None =>
      d ← gets db;
      let id := (files_seq d + 1)%Z in
      set_db (Database (companies d) (companies_seq d)
                (files d ++ [FileRow id company_id file_url file_type caption (now e)])
                id)
  end.

Definition field_map : list (pystr * (company_row → option pystr)) :=
  [ (u "названию", λ r, Some (row_name r));
    (u "инн", row_inn);
    (u "email", row_email) ].

Fixpoint assoc {V} (k : pystr) (l : list (pystr * V)) : option V :=
  match l with
  | [] => None
  | (k', v) :: rest => if PyStr.eqb k k' then Some v else assoc k rest
  end.

(** [search_type] is whatever the search entry holds, possibly [None]. *)
Definition search_company (search_type : option pystr) (search_value : pystr)
    : prog (list company_row) :=
  match search_type with
  | None => raise (no_attribute VNone "lower")
  | Some ty =>
      match assoc (str_lower ty) field_map with
      | None => mret []
      | Some field =>
          d ← gets db;
          mret (List.filter
                  (λ r, match field r with
                        | Some v => sql_like (u "%" ++ search_value ++ u "%") v
                        | None => false
                        end) (companies d))
      end
  end.

Definition get_all_companies : prog (list company_row) :=
  d ← gets db; mret (order_by_created_at_desc (companies d)).

(** *** APIClient *)

(** The loop [for attempt in range(MAX_RETRIES)], by the number of
    iterations left. *)
Fixpoint send_loop (e : env) (p : payload) (attempt remaining : nat) : prog pyval :=
  match remaining with
  | O => mret VNone
  | S rest =>
      emit (EPost p);;
      match net e attempt with
      | Response body => mret body
      | Failed x =>
          if is_request_exception x then
            if (Z.of_nat attempt =? MAX_RETRIES - 1)%Z then raise x
            else emit (ESleep (2 ^ N.of_nat attempt));;
                 send_loop e p (S attempt) rest
          else raise x
      end
  end.

Definition send_request (e : env) (chat message : Z) (content : api_content)
    : prog pyval :=
  send_loop e (Payload BOT_ID (chat, message) content) 0 (Z.to_nat MAX_RETRIES).

(** *** parse_api_response *)

(** One iteration of the loop over the lines. *)
Definition parse_line (company_data : gmap string pystr) (line : pystr)
    : gmap string pystr :=
  if contains (u "Название:") line then
    <["name" := strip (replace (u "Название:") [] line)]> company_data
  else if contains (u "ИНН:") line then
    <["inn" := strip (replace (u "ИНН:") [] line)]> company_data
  else if contains (u "Телефон:") line then
    <["phone" := strip (replace (u "Телефон:") [] line)]> company_data
  else if contains (u "Контактное лицо:") line then
    <["contact_person" := strip (replace (u "Контактное лицо:") [] line)]> company_data
  else if contains (u "Email:") line then
    <["email" := strip (replace (u "Email:") [] line)]> company_data
  else company_data.

Definition required_fields : list string := ["name"; "inn"; "email"].

(** The part of [parse_api_response] after the text has been chosen. *)
Definition parse_text (text_data : pystr) : option (gmap string pystr) :=
  let company_data := fold_left parse_line (split_char 10 text_data) ∅ in
  if forallb (λ field, bool_decide (is_Some (company_data !! field))) required_fields
  then Some company_data
  else None.

(** [text_data.split(...)] and the rest, for a truthy [text_data]. *)
Definition parse_chosen (text_data : pyval) : result (option (gmap string pystr)) :=
  match text_data with
  | VStr s => Ok (parse_text s)
  | other => Raise (no_attribute other "split")
  end.

(** [d.get(k)] and [d.get(k, default)] *)
Definition dict_get (d : gmap string pyval) (k : string) (dflt : pyval) : pyval :=
  default dflt (d !! k).

Definition parse_api_response (response_data : pyval)
    : result (option (gmap string pystr)) :=
  if negb (truthy response_data) then Ok None
  else
    match response_data with
    | VDict d =>
        let text_data :=
          py_or (py_or (dict_get d "done" VNone) (dict_get d "message" VNone))
                (dict_get d "text" (VStr [])) in
        if negb (truthy text_data) then Ok None
        else parse_chosen text_data
    | other => Raise (no_attribute other "get")
    end.

Definition format_company_info (company : company_row) : pystr :=
  u "Название: " ++ row_name company ++ nl ++
  u "ИНН: " ++ str_of_column (row_inn company) ++ nl ++
  u "Телефон: " ++ str_of_column (row_phone company) ++ nl ++
  u "Контактное лицо: " ++ str_of_column (row_contact_person company) ++ nl ++
  u "Email: " ++ str_of_column (row_email company) ++ nl ++
  u "Дата создания: " ++ row_created_at company.

Definition create_main_keyboard : markup :=
  ReplyKeyboardMarkup
    [ u "Добавить компанию"; u "Найти компанию"; u "Отправить данные в API";
      u "Показать все компании"; u "Помощь" ].

(** *** Handlers *)

(** [for x in l: body(x)] *)
Fixpoint for_each {X} (l : list X) (body : X → prog unit) : prog unit :=
  match l with
  | [] => mret tt
  | x :: rest => body x;; for_each rest body
  end.

Definition key_error (key : pystr) : exn := Exn KeyError key.

Definition start_message (e : env) (message : text_message) : prog unit :=
  reply_to message (u "Привет! Выберите действие:") create_main_keyboard.

Definition help_text : pystr := u "
    Этот бот помогает работать с данными компаний.
    Доступные команды:
    - Добавить компанию - внести новую компанию в базу
    - Найти компанию - поиск по существующим компаниям
    - Отправить данные в API - отправить данные для обработки и автоматического создания компании
    - Показать все компании - отобразить список всех компаний в базе
    ".

Definition help_message (e : env) (message : text_message) : prog unit :=
  reply_to message help_text NoMarkup.

Definition add_company_start (e : env) (message : text_message) : prog unit :=
  us ← gets user_states;
  set_user_states (<[chat_id message := UserState waiting_name (Some ∅)]> us);;
  reply_to message (u "Введите название компании:") ReplyKeyboardRemove.

(** [response = header; for company in companies: response += ...] *)
Definition listing (header : pystr) (companies : list company_row) : pystr :=
  fold_left (λ response company, response ++ format_company_info company ++ nl ++ nl)
    companies header.

Definition show_all_companies (e : env) (message : text_message) : prog unit :=
  companies ← get_all_companies;
  match companies with
  | [] => reply_to message (u "В базе данных нет компаний.") NoMarkup
  | _ :: _ =>
      let response := listing (u "Список компаний:" ++ nl ++ nl) companies in
      for_each (range_step (length response) 4096)
        (λ i, send_message (chat_id message) (slice response i (i + 4096)) NoMarkup)
  end.

Definition search_company_start (e : env) (message : text_message) : prog unit :=
  ss ← gets search_states;
  set_search_states
    (<[chat_id message := {[ "search_type" := None; "search_value" := None ]}]> ss);;
  reply_to message (u "Выберите критерий поиска:")
    (ReplyKeyboardMarkup [u "По названию"; u "По ИНН"; u "По email"]).

Definition set_search_type (e : env) (message : text_message) : prog unit :=
  let chat := chat_id message in
  ss ← gets search_states;
  let ss := match ss !! chat with
            | None => <[chat := ∅]> ss
            | Some _ => ss
            end in
  let entry := default ∅ (ss !! chat) in
  let entry :=
    if PyStr.eqb (text message) (u "По названию")
    then <["search_type" := Some (u "названию")]> entry
    else if PyStr.eqb (text message) (u "По ИНН")
    then <["search_type" := Some (u "инн")]> entry
    else if PyStr.eqb (text message) (u "По email")
    then <["search_type" := Some (u "email")]> entry
    else entry in
  set_search_states (<[chat := entry]> ss);;
  match entry !! "search_type" with
  | None => raise (key_error (u "'search_type'"))
  | Some ty =>
      reply_to message
        (u "Введите значение для поиска по " ++ str_of_column ty ++ u ":")
        ReplyKeyboardRemove
  end.

Definition perform_search (e : env) (message : text_message) : prog unit :=
  let chat := chat_id message in
  ss ← gets search_states;
  match ss !! chat with
  | None => raise (key_error (str_of_Z chat))
  | Some entry =>
      match entry !! "search_type" with
      | None => raise (key_error (u "'search_type'"))
      | Some search_type =>
          let search_value := text message in
          companies ← search_company search_type search_value;
          match companies with
          | [] => reply_to message (u "Компании не найдены.") create_main_keyboard
          | _ :: _ =>
              let response :=
                listing (u "Найдено компаний: " ++ str_of_nat (length companies)
                           ++ nl ++ nl) companies in
              for_each (range_step (length response) 4096)
                (λ i, send_message chat (slice response i (i + 4096))
                        create_main_keyboard)
          end;;
          ss ← gets search_states;
          set_search_states (delete chat ss)
      end
  end.

(** [user_states[chat_id]['data'][key] = value; user_states[chat_id]['state'] = next] *)
Definition collect (chat : Z) (key : string) (value : pystr) (next : flow_state)
    : prog unit :=
  us ← gets user_states;
  match us !! chat with
  | None => raise (key_error (str_of_Z chat))
  | Some s =>
      match data s with
      | None => raise (key_error (u "'data'"))
      | Some d =>
          set_user_states (<[chat := UserState next (Some (<[key := value]> d))]> us)
      end
  end.

Definition process_company_name (e : env) (message : text_message) : prog unit :=
  collect (chat_id message) "name" (text message) waiting_inn;;
  reply_to message (u "Введите ИНН компании (10 или 12 цифр):") NoMarkup.

Definition process_company_inn (e : env) (message : text_message) : prog unit :=
  let inn := text message in
  if negb (validate_inn inn) then
    reply_to message (u "Некорректный ИНН. Введите 10 или 12 цифр:") NoMarkup
  else
    collect (chat_id message) "inn" inn waiting_phone;;
    reply_to message (u "Введите телефон компании:") NoMarkup.

Definition process_company_phone (e : env) (message : text_message) : prog unit :=
  let phone := text message in
  if negb (validate_phone phone) then
    reply_to message
      (u "Некорректный телефон. Введите номер в формате +7XXXXXXXXXX или 8XXXXXXXXXX:")
      NoMarkup
  else
    collect (chat_id message) "phone" phone waiting_contact;;
    reply_to message (u "Введите контактное лицо:") NoMarkup.

Definition process_company_contact (e : env) (message : text_message) : prog unit :=
  collect (chat_id message) "contact_person" (text message) waiting_email;;
  reply_to message (u "Введите email компании:") NoMarkup.

Definition process_company_email (e : env) (message : text_message) : prog unit :=
  let chat := chat_id message in
  let email := text message in
  if negb (validate_email email) then
    reply_to message
      (u "Некорректный email. Введите email в формате example@domain.com:") NoMarkup
  else
    us ← gets user_states;
    match us !! chat with
    | None => raise (key_error (str_of_Z chat))
    | Some s =>
        match data s with
        | None => raise (key_error (u "'data'"))
        | Some d =>
            let d := <["email" := email]> d in
            set_user_states (<[chat := UserState (state s) (Some d)]> us);;
            try_except
              (save_company e d;;
               reply_to message (u "✅ Компания успешно сохранена!") create_main_keyboard)
              (λ x, reply_to message
                      (u "⚠️ Ошибка при сохранении компании: " ++ exn_str x)
                      create_main_keyboard);;
            us ← gets user_states;
            set_user_states (delete chat us)
        end
    end.

Definition send_to_api_start (e : env) (message : text_message) : prog unit :=
  us ← gets user_states;
  set_user_states (<[chat_id message := UserState waiting_api_data None]> us);;
  reply_to message
    (u "Отправьте сообщение или файл с данными компании для обработки API:")
    ReplyKeyboardRemove.

Definition api_success : pystr := u "✅ Компания успешно добавлена из API!".
Definition api_no_data : pystr := u "ℹ️ API не вернул данных компании в требуемом формате".
Definition api_error (x : exn) : pystr := u "⚠️ Ошибка: " ++ exn_str x.

(** [if company_data:] on the parser's result ([None] or a dict). *)
Definition usable (company_data : option (gmap string pystr))
    : option (gmap string pystr) :=
  match company_data with
  | Some d => if bool_decide (d = ∅) then None else Some d
  | None => None
  end.

(** [if chat_id in user_states: del user_states[chat_id]] *)
Definition clear_user_state (chat : Z) : prog unit :=
  us ← gets user_states;
  match us !! chat with
  | Some _ => set_user_states (delete chat us)
  | None => mret tt
  end.

Definition process_text_for_api (e : env) (message : text_message) : prog unit :=
  let chat := chat_id message in
  try_except
    (response_data ← send_request e chat (message_id message)
                       (ContentText (text message));
     company_data ← lift_result (parse_api_response response_data);
     match usable company_data with
     | Some d =>
         save_company e d;;
         reply_to message api_success create_main_keyboard
     | None => reply_to message api_no_data create_main_keyboard
     end)
    (λ x, emit (ELogError (u "Error processing message: " ++ exn_str x));;
          reply_to message (api_error x) create_main_keyboard);;
  clear_user_state chat.

Definition content_type (k : file_kind) : pystr :=
  match k with
  | photo => u "photo"
  | document => u "document"
  | audio => u "audio"
  | video => u "video"
  end.

Definition reply_to_file (m : file_message) (body : pystr) (k : markup) : prog unit :=
  emit (EReply (file_chat_id m) (file_message_id m) body k).

(** The download address and the [content] dictionary of a file. *)
Definition api_file_url (file_path : pystr) : pystr :=
  u "https://api.telegram.org/file/bot" ++ TOKEN ++ u "/" ++ file_path.

Definition file_content (message : file_message) (url : pystr) : api_content :=
  ContentFile url (content_type (kind message))
    (match kind message with
     | photo => Some 0%Z       (* [message.photo] is a list: the default *)
     | _ => file_size message
     end)
    (match caption message with   (* [message.caption or ''] *)
     | Some (c :: r) => c :: r
     | _ => []
     end).

Definition process_files_for_api (e : env) (message : file_message) : prog unit :=
  let chat := file_chat_id message in
  try_except
    (emit (EGetFile (file_id message));;
     file_path ← lift_result (get_file e (file_id message));
     let url := api_file_url file_path in
     let content := file_content message url in
     response_data ← send_request e chat (file_message_id message) content;
     company_data ← lift_result (parse_api_response response_data);
     match usable company_data with
     | Some d =>
         company_id ← save_company e d;
         save_file e company_id url (content_type (kind message)) (caption message);;
         reply_to_file message api_success create_main_keyboard
     | None => reply_to_file message api_no_data create_main_keyboard
     end)
    (λ x, emit (ELogError (u "Error processing file: " ++ exn_str x));;
          reply_to_file message (api_error x) create_main_keyboard);;
  clear_user_state chat.



(** *** Dispatch

    [bot.message_handler] appends the handler to a list; for every
    update pyTelegramBotAPI runs the first registered handler whose
    filters all accept the message, and no other. *)

Inductive handler : Type :=
| h_start_message
| h_help_message
| h_add_company_start
| h_show_all_companies
| h_search_company_start
| h_set_search_type
| h_perform_search
| h_process_company_name
| h_process_company_inn
| h_process_company_phone
| h_process_company_contact
| h_process_company_email
| h_send_to_api_start
| h_process_text_for_api
| h_process_files_for_api.

#[global] Instance handler_eq_dec : EqDecision handler.
Proof. solve_decision. Defined.

(** The decorators, in the order of the source file. *)
Definition registered_handlers : list handler :=
  [ h_start_message; h_help_message; h_add_company_start; h_show_all_companies;
    h_search_company_start; h_set_search_type; h_perform_search;
    h_process_company_name; h_process_company_inn; h_process_company_phone;
    h_process_company_contact; h_process_company_email; h_send_to_api_start;
    h_process_text_for_api; h_process_files_for_api ].

(** [util.extract_command]: [text.split()[0].split('@')[0][1:]] when the
    text starts with a slash. *)
Definition extract_command (txt : pystr) : option pystr :=
  if startswith (u "/") txt
  then Some (tail (before_char 64 (first_word txt)))
  else None.

(** [chat in user_states and user_states[chat]['state'] == s] *)
Definition in_state (st : bot_state) (chat : Z) (s : flow_state) : bool :=
  match user_states st !! chat with
  | Some us => bool_decide (state us = s)
  | None => false
  end.

(** [util.extract_command(text) in ['start']] *)
Definition is_start_command (txt : pystr) : bool :=
  bool_decide (extract_command txt = Some (u "start")).

(** The filter of [perform_search]: the chat has a search entry with the
    key ['search_type'] and without the key ['search_value']. *)
Definition search_pending (st : bot_state) (chat : Z) : bool :=
  match search_states st !! chat with
  | Some entry =>
      bool_decide (is_Some (entry !! "search_type"))
      && negb (bool_decide (is_Some (entry !! "search_value")))
  | None => false
  end.

(** The [func] (or [commands]) filter of each handler on a text message. *)
Definition text_filter (h : handler) (st : bot_state) (message : text_message) : bool :=
  match h with
  | h_start_message => is_start_command (text message)
  | h_help_message => PyStr.eqb (text message) (u "Помощь")
  | h_add_company_start => PyStr.eqb (text message) (u "Добавить компанию")
  | h_show_all_companies => PyStr.eqb (text message) (u "Показать все компании")
  | h_search_company_start => PyStr.eqb (text message) (u "Найти компанию")
  | h_set_search_type =>
      bool_decide (text message ∈ [u "По названию"; u "По ИНН"; u "По email"])
  | h_perform_search => search_pending st (chat_id message)
  | h_process_company_name => in_state st (chat_id message) waiting_name
  | h_process_company_inn => in_state st (chat_id message) waiting_inn
  | h_process_company_phone => in_state st (chat_id message) waiting_phone
  | h_process_company_contact => in_state st (chat_id message) waiting_contact
  | h_process_company_email => in_state st (chat_id message) waiting_email
  | h_send_to_api_start => PyStr.eqb (text message) (u "Отправить данные в API")
  | h_process_text_for_api => in_state st (chat_id message) waiting_api_data
  | h_process_files_for_api => false     (* content_types: files only *)
  end.

(** [_test_message_handler]: the content type filter, then the rest. *)
Definition test_message_handler (h : handler) (st : bot_state) (m : message) : bool :=
  match m with
  | MText t => text_filter h st t
  | MFile f =>
      match h with
      | h_process_files_for_api => in_state st (file_chat_id f) waiting_api_data
      | _ => false                       (* content_types defaults to text *)
      end
  | MOther _ _ => false
  end.

Definition find_handler (st : bot_state) (m : message) : option handler :=
  List.find (λ h, test_message_handler h st m) registered_handlers.

Definition run_text_handler (h : handler) (e : env) (t : text_message) : prog unit :=
  match h with
  | h_start_message => start_message e t
  | h_help_message => help_message e t
  | h_add_company_start => add_company_start e t
  | h_show_all_companies => show_all_companies e t
  | h_search_company_start => search_company_start e t
  | h_set_search_type => set_search_type e t
  | h_perform_search => perform_search e t
  | h_process_company_name => process_company_name e t
  | h_process_company_inn => process_company_inn e t
  | h_process_company_phone => process_company_phone e t
  | h_process_company_contact => process_company_contact e t
  | h_process_company_email => process_company_email e t
  | h_send_to_api_start => send_to_api_start e t
  | h_process_text_for_api => process_text_for_api e t
  | h_process_files_for_api => mret tt
  end.

Definition run_handler (h : handler) (e : env) (m : message) : prog unit :=
  match m with
  | MText t => run_text_handler h e t
  | MFile f =>
      match h with
      | h_process_files_for_api => process_files_for_api e f
      | _ => mret tt
      end
  | MOther _ _ => mret tt
  end.

(** The bot's reaction to one inbound message: the state afterwards.
    An exception that escapes a handler is logged by the library and the
    polling loop goes on, so only the state is kept. *)
Definition handle (e : env) (st : bot_state) (m : message) : bot_state :=
  match find_handler st m with
  | Some h => snd (run_handler h e m st)
  | None => st
  end.

(** The replies and messages sent, in order. *)
Definition is_outbound (ev : event) : bool :=
  match ev with
  | EReply _ _ _ _ | ESend _ _ _ => true
  | _ => false
  end.

Definition outbound (evs : list event) : list event := List.filter is_outbound evs.

Definition outbound_text (ev : event) : pystr :=
  match ev with
  | EReply _ _ body _ | ESend _ body _ => body
  | _ => []
  end.

Definition is_post (ev : event) : bool :=
  match ev with EPost _ => true | _ => false end.

(** The number of HTTP attempts in a trace and the time slept. *)
Definition attempts (evs : list event) : nat := length (List.filter is_post evs).

Definition slept (evs : list event) : N :=
  fold_right (λ ev acc, match ev with ESleep d => d + acc | _ => acc end) 0 evs.

Definition initial_state : bot_state :=
  BotState ∅ ∅ (Database [] 0 [] 0) [].

(** The characters [validate_phone] removes: plus, space, hyphen and
    the two parentheses. *)
Definition is_phone_punctuation (c : N) : bool :=
  bool_decide (c ∈ u "+ -()").

(** The effects of [k] failed attempts from attempt [a] on: each POST
    and the backoff after it. *)
Fixpoint failed_attempts (p : payload) (a k : nat) : list event :=
  match k with
  | O => []
  | S k' => EPost p :: ESleep (2 ^ N.of_nat a) :: failed_attempts p (S a) k'
  end.

(** The step handler of each flow state. *)
Definition step_handler (s : flow_state) : handler :=
  match s with
  | waiting_name => h_process_company_name
  | waiting_inn => h_process_company_inn
  | waiting_phone => h_process_company_phone
  | waiting_contact => h_process_company_contact
  | waiting_email => h_process_company_email
  | waiting_api_data => h_process_text_for_api
  end.

(** The menu and criterion labels whose handlers are registered before
    every flow step handler, each with its handler. *)
Definition early_labels : list (pystr * handler) :=
  [ (u "Помощь", h_help_message);
    (u "Добавить компанию", h_add_company_start);
    (u "Показать все компании", h_show_all_companies);
    (u "Найти компанию", h_search_company_start);
    (u "По названию", h_set_search_type);
    (u "По ИНН", h_set_search_type);
    (u "По email", h_set_search_type) ].

(** The criterion labels with the value [set_search_type] stores. *)
Definition criteria : list (pystr * pystr) :=
  [ (u "По названию", u "названию"); (u "По ИНН", u "инн"); (u "По email", u "email") ].

(** Sample states: chat 1 at the first registration step, and at the
    second step with a name collected. *)
Definition sample_waiting_name : bot_state :=
  BotState {[ 1%Z := UserState waiting_name (Some ∅) ]} ∅ (Database [] 0 [] 0) [].

Definition sample_waiting_inn : bot_state :=
  BotState {[ 1%Z := UserState waiting_inn (Some {[ "name" := u "Acme" ]}) ]} ∅
    (Database [] 0 [] 0) [].

(** The labels of [parse_api_response] in the order they are tried,
    with the key each one fills. *)
Definition field_labels : list (pystr * string) :=
  [ (u "Название:", "name"); (u "ИНН:", "inn"); (u "Телефон:", "phone");
    (u "Контактное лицо:", "contact_person"); (u "Email:", "email") ].

(** The first label that occurs in [line]. *)
Fixpoint first_label (line : pystr) (ls : list (pystr * string))
    : option (pystr * string) :=
  match ls with
  | [] => None
  | (label, key) :: rest =>
      if contains label line then Some (label, key) else first_label line rest
  end.

(** The assignment a line causes, if any. *)
Definition classify (line : pystr) : option (string * pystr) :=
  match first_label line field_labels with
  | Some (label, key) => Some (key, strip (replace label [] line))
  | None => None
  end.

(** A value that can follow a label on its line: it contains no label
    and no newline. *)
Definition label_free (v : pystr) : Prop :=
  ∀ label, label ∈ field_labels.*1 → contains label v = false.

Definition plain_value (v : pystr) : Prop := label_free v ∧ 10 ∉ v.

(** The five labelled lines of a response, in the docstring's order. *)
Definition labelled_lines (name inn phone contact email : pystr) : list pystr :=
  [ u "Название:" ++ name; u "ИНН:" ++ inn; u "Телефон:" ++ phone;
    u "Контактное лицо:" ++ contact; u "Email:" ++ email ].

(** The text after the first occurrence of [label] in [line], as the
    spec words the field's value. *)
Fixpoint spec_after_label (label line : pystr) : option pystr :=
  if startswith label line then Some (drop (length label) line)
  else match line with
       | [] => None
       | _ :: rest => spec_after_label label rest
       end.

(** The first of the three response fields that is present, as the spec
    words the extraction source. *)
Definition spec_first_present (d : gmap string pyval) : option pyval :=
  match d !! "done" with
  | Some v => Some v
  | None =>
      match d !! "message" with
      | Some v => Some v
      | None => d !! "text"
      end
  end.

(** The candidate the five values give. *)
Definition candidate (name inn phone contact email : pystr) : gmap string pystr :=
  {[ "name" := strip name; "inn" := strip inn; "phone" := strip phone;
     "contact_person" := strip contact; "email" := strip email ]}.

(** Sample responses: a contact line that mentions the phone label, and
    an empty [done] field next to a usable [message]. *)
Definition sample_contact_mentions_phone : list pystr :=
  labelled_lines (u " Acme") (u " 1234567890") (u " 555")
    (u " Bob, Телефон: 123") (u " a@b.ru").

Definition sample_empty_done : gmap string pyval :=
  {[ "done" := VStr [];
     "message" := VStr (join nl [u "Название: Acme"; u "ИНН: 1234567890";
                                 u "Email: a@b.ru"]) ]}.

(** Sample collaborators: the digit table restricted to ASCII, an API
    that times out twice and then answers with an empty object, and one
    that always times out. *)
Definition ascii_isdigit (c : N) : bool := (48 <=? c) && (c <=? 57).

Definition timed_out : exn := Exn RequestException (u "Read timed out.").

Definition sample_env : env :=
  Env (λ i, match i with
            | 0%nat | 1%nat => Failed timed_out
            | _ => Response (VDict ∅)
            end)
    None None (λ _, Ok (u "documents/file_1.pdf")) (u "2024-01-01 00:00:00").

Definition sample_env_down : env :=
  Env (λ _, Failed timed_out) None None (λ _, Ok (u "documents/file_1.pdf"))
    (u "2024-01-01 00:00:00").

(** A decidable form of [label_free]. *)
Definition label_freeb (v : pystr) : bool :=
  forallb (λ label, negb (contains label v)) field_labels.*1.

(** The state [st] with the chat's [user_states] entry removed. *)
Definition cleared (chat : Z) (st : bot_state) : bot_state :=
  BotState (delete chat (user_states st)) (search_states st) (db st) (log st).

(** The database after [save_company] has inserted [company_data]. *)
Definition with_company (e : env) (name : pystr) (company_data : gmap string pystr)
    (d : database) : database :=
  Database
    (companies d ++
       [CompanyRow (companies_seq d + 1)%Z name
          (company_data !! "inn") (company_data !! "phone")
          (company_data !! "contact_person") (company_data !! "email") (now e)])
    (companies_seq d + 1)%Z (files d) (files_seq d).

(** The database after [save_file] has inserted an attachment. *)
Definition with_file (e : env) (company_id : Z) (url type : pystr)
    (caption : option pystr) (d : database) : database :=
  Database (companies d) (companies_seq d)
    (files d ++ [FileRow (files_seq d + 1)%Z company_id url type caption (now e)])
    (files_seq d + 1)%Z.

(** The state [st] after the further effects [evs]. *)
Definition with_log (st : bot_state) (evs : list event) : bot_state :=
  BotState (user_states st) (search_states st) (db st) (log st ++ evs).

(** The messages a listing is sent as. *)
Definition send_listing (chat : Z) (k : markup) (response : pystr) : list event :=
  map (λ c, ESend chat c k) (chunks 4096 response).

(** ** Further notions used by the properties *)

(** The chat a message comes from. *)
Definition message_chat (m : message) : Z :=
  match m with
  | MText t => chat_id t
  | MFile f => file_chat_id f
  | MOther chat _ => chat
  end.

(** The chat an outbound event goes to. *)
Definition event_chat (ev : event) : option Z :=
  match ev with
  | EReply chat _ _ _ | ESend chat _ _ => Some chat
  | _ => None
  end.

(** The exception that escapes the handler of a message, if any. *)
Definition handle_outcome (e : env) (st : bot_state) (m : message) : result unit :=
  match find_handler st m with
  | Some h => fst (run_handler h e m st)
  | None => Ok tt
  end.

(** The bot's state after a sequence of messages, each with the
    collaborators' behaviour while it is handled. *)
Definition run (steps : list (env * message)) (st : bot_state) : bot_state :=
  fold_left (λ st step, handle (fst step) st (snd step)) steps st.

(** How one message may change the database: not at all, by one company
    row, or by one company row and its attachment. *)
Definition db_step (e : env) (d d' : database) : Prop :=
  d' = d
  ∨ (∃ name data, d' = with_company e name data d)
  ∨ (∃ name data url type caption,
        d' = with_file e (companies_seq d + 1)%Z url type caption
               (with_company e name data d)).

(** What the handling of a message of [chat] may do: it leaves the
    entries of the other chats alone, sends only to [chat], and changes
    the database by [db_step]. *)
Definition local_step (e : env) (chat : Z) (st st' : bot_state) : Prop :=
  (∀ c, c ≠ chat → user_states st' !! c = user_states st !! c)
  ∧ (∀ c, c ≠ chat → search_states st' !! c = search_states st !! c)
  ∧ (∃ sent, outbound (log st') = outbound (log st) ++ sent
             ∧ Forall (λ ev, event_chat ev = Some chat) sent)
  ∧ db_step e (db st) (db st').

(** Referential integrity of the store: every attachment row names the
    id of a stored company row. *)
Definition db_wf (d : database) : Prop :=
  Forall (λ f, file_company_id f ∈ row_id <$> companies d) (files d).

(** A collected field that passed its validator. *)
Definition holds (d : gmap string pystr) (key : string) (valid : pystr → bool) : Prop :=
  ∃ v, d !! key = Some v ∧ valid v = true.

(** What the registration data holds at each step. *)
Definition collected (s : flow_state) (d : gmap string pystr) : Prop :=
  match s with
  | waiting_name => True
  | waiting_inn => is_Some (d !! "name")
  | waiting_phone => is_Some (d !! "name") ∧ holds d "inn" validate_inn
  | waiting_contact =>
      is_Some (d !! "name") ∧ holds d "inn" validate_inn
      ∧ holds d "phone" validate_phone
  | waiting_email =>
      is_Some (d !! "name") ∧ holds d "inn" validate_inn
      ∧ holds d "phone" validate_phone ∧ is_Some (d !! "contact_person")
  | waiting_api_data => True
  end.

Definition reg_inv (us : user_state) : Prop :=
  match state us with
  | waiting_api_data => True
  | s => ∃ d, data us = Some d ∧ collected s d
  end.

(** A search entry either still has the key ['search_value'] or holds a
    criterion that [search_company] knows. *)
Definition search_inv (entry : gmap string (option pystr)) : Prop :=
  is_Some (entry !! "search_value")
  ∨ ∃ ty, entry !! "search_type" = Some (Some ty) ∧ ty ∈ criteria.*2.

(** The invariant of the two state dictionaries. *)
Definition state_inv (st : bot_state) : Prop :=
  (∀ chat us, user_states st !! chat = Some us → reg_inv us)
  ∧ (∀ chat entry, search_states st !! chat = Some entry → search_inv entry).

(** The invariant at the entries of one chat. *)
Definition entry_ok (st : bot_state) (chat : Z) : Prop :=
  (∀ us, user_states st !! chat = Some us → reg_inv us)
  ∧ (∀ entry, search_states st !! chat = Some entry → search_inv entry).

(** A handler run that raises nothing and keeps the invariant at the
    sender's entries. *)
Definition good_run (chat : Z) (r : result unit * bot_state) : Prop :=
  fst r = Ok tt ∧ entry_ok (snd r) chat.

(** A chat at the last registration step, with the fields collected on
    the way. *)
Definition sample_waiting_email : bot_state :=
  BotState
    {[ 1%Z := UserState waiting_email
                (Some {[ "name" := u "Acme"; "inn" := u "1234567890";
                         "phone" := u "+7 999 123-45-67";
                         "contact_person" := u "Bob" ]}) ]}
    ∅ (Database [] 0 [] 0) [].

(** A text that no command or label handler takes. *)
Definition free_text (v : pystr) : Prop :=
  is_start_command v = false ∧ v ∉ early_labels.*1.

(** The dictionary the five registration steps build. *)
Definition registered (name inn phone contact email : pystr) : gmap string pystr :=
  <["email" := email]> (<["contact_person" := contact]>
    (<["phone" := phone]> (<["inn" := inn]> (<["name" := name]> ∅)))).

(** [get_company_by_id]: [SELECT * FROM companies WHERE id = ?] and
    [fetchone()]. *)
Definition get_company_by_id (company_id : Z) : prog (option company_row) :=
  d ← gets db;
  mret (List.find (λ r, (row_id r =? company_id)%Z) (companies d)).

(** AUTOINCREMENT: no row has an id above the table's counter. *)
Definition ids_fresh (d : database) : Prop :=
  Forall (λ r, (row_id r ≤ companies_seq d)%Z) (companies d).

(** The language of a regular expression. *)
Inductive re_matches : Regex.re → pystr → Prop :=
| matches_eps : re_matches Regex.Eps []
| matches_cls rs c : Regex.in_class rs c = true → re_matches (Regex.Cls rs) [c]
| matches_cat a b s1 s2 :
    re_matches a s1 → re_matches b s2 → re_matches (Regex.Cat a b) (s1 ++ s2)
| matches_alt_l a b s : re_matches a s → re_matches (Regex.Alt a b) s
| matches_alt_r a b s : re_matches b s → re_matches (Regex.Alt a b) s
| matches_star_nil a : re_matches (Regex.Star a) []
| matches_star_cons a s1 s2 :
    re_matches a s1 → re_matches (Regex.Star a) s2 → re_matches (Regex.Star a) (s1 ++ s2).

(** The character classes of the e-mail pattern, by code point. *)
Definition ascii_letter (c : N) : bool :=
  (97 <=? c) && (c <=? 122) || (65 <=? c) && (c <=? 90).

Definition ascii_alnum (c : N) : bool :=
  ascii_letter c || (48 <=? c) && (c <=? 57).

(** [[a-zA-Z0-9._%+-]] and [[a-zA-Z0-9.-]] *)
Definition local_char (c : N) : bool :=
  ascii_alnum c || bool_decide (c ∈ u "._%+-").

Definition domain_char (c : N) : bool :=
  ascii_alnum c || bool_decide (c ∈ u ".-").

(** An address as the pattern reads it: a local part, an at sign, a
    domain, a dot and at least two letters. *)
Definition email_shape (s : pystr) : Prop :=
  ∃ local domain tld,
    s = local ++ u "@" ++ domain ++ u "." ++ tld
    ∧ local ≠ [] ∧ Forall (λ c, local_char c = true) local
    ∧ domain ≠ [] ∧ Forall (λ c, domain_char c = true) domain
    ∧ (2 ≤ length tld)%nat ∧ Forall (λ c, ascii_letter c = true) tld.

(** Further sample collaborators: an endpoint whose first call fails
    with an exception outside [requests], a store that cannot be written,
    and an endpoint that answers with a full record while the table of
    attachments cannot be written. *)
Definition unexpected : exn := Exn OtherException (u "unexpected").

Definition readonly : exn :=
  Exn DatabaseError (u "attempt to write a readonly database").

Definition sample_env_crash : env :=
  Env (λ _, Failed unexpected) None None (λ _, Ok (u "documents/file_1.pdf"))
    (u "2024-01-01 00:00:00").

Definition sample_env_readonly : env :=
  Env (λ _, Response (VDict ∅)) (Some readonly) None
    (λ _, Ok (u "documents/file_1.pdf")) (u "2024-01-01 00:00:00").

Definition sample_record : gmap string pyval :=
  {[ "text" := VStr (join nl [u "Название: Acme"; u "ИНН: 1234567890";
                              u "Email: info@acme.ru"]) ]}.

Definition sample_env_files_readonly : env :=
  Env (λ _, Response (VDict sample_record)) None (Some readonly)
    (λ _, Ok (u "documents/file_1.pdf")) (u "2024-01-01 00:00:00").

Definition sample_company : company_row :=
  CompanyRow 1 (u "Acme") (Some (u "1234567890")) None (Some (u "Bob"))
    (Some (u "info@acme.ru")) (u "2024-01-01 00:00:00").

Definition sample_file : file_message :=
  FileMessage 1 8 document (u "file_1") (Some 1024%Z) None.

(** The labels the [if]/[elif] chain of the parser tries up to and
    including [label]. *)
Fixpoint labels_upto (label : pystr) (ls : list pystr) : list pystr :=
  match ls with
  | [] => []
  | l :: rest => l :: (if PyStr.eqb l label then [] else labels_upto label rest)
  end.

(** A value that can follow [label] on its line: it contains neither
    [label] nor a label tried before it, and no newline. *)
Definition value_after (label v : pystr) : Prop :=
  Forall (λ l, contains l v = false) (labels_upto label field_labels.*1) ∧ 10 ∉ v.

(** Whitespace within a line. *)
Definition blanks (s : pystr) : Prop := Forall (λ c, isspace c = true ∧ c ≠ 10) s.

(** A chat that has been asked for its message or file for the API. *)
Definition sample_waiting_api : bot_state :=
  BotState {[ 1%Z := UserState waiting_api_data None ]} ∅ (Database [] 0 [] 0) [].

(** An endpoint that answers with a full record, and a working store. *)
Definition sample_env_record : env :=
  Env (λ _, Response (VDict sample_record)) None None
    (λ _, Ok (u "documents/file_1.pdf")) (u "2024-01-01 00:00:00").

(** * Properties *)

(** ** Effects of the basic operations *)

Lemma with_log_nil st : with_log st [] = st.
Proof. destruct st; unfold with_log; simpl. by rewrite app_nil_r. Qed.

Lemma with_log_app st a b : with_log (with_log st a) b = with_log st (a ++ b).
Proof. unfold with_log; simpl. by rewrite app_assoc. Qed.

Lemma bind_ok {A B} (m : prog A) (k : A → prog B) st a st' :
  m st = (Ok a, st') → (m ≫= k) st = k a st'.
Proof. intros Hm. unfold mbind, prog_bind. by rewrite Hm. Qed.

Lemma bind_raise {A B} (m : prog A) (k : A → prog B) st x st' :
  m st = (Raise x, st') → (m ≫= k) st = (Raise x, st').
Proof. intros Hm. unfold mbind, prog_bind. by rewrite Hm. Qed.

Lemma try_except_ok {A} (body : prog A) handler st a st' :
  body st = (Ok a, st') → try_except body handler st = (Ok a, st').
Proof. intros Hm. unfold try_except. by rewrite Hm. Qed.

Lemma try_except_raise {A} (body : prog A) handler st x st' :
  body st = (Raise x, st') → try_except body handler st = handler x st'.
Proof. intros Hm. unfold try_except. by rewrite Hm. Qed.

Lemma emit_spec ev st : emit ev st = (Ok tt, with_log st [ev]).
Proof. reflexivity. Qed.

Lemma for_each_send chat k {X} (f : X → pystr) (l : list X) st :
  for_each l (λ i, send_message chat (f i) k) st
  = (Ok tt, with_log st (map (λ i, ESend chat (f i) k) l)).
Proof.
  revert st. induction l as [|x l IH]; intros st; simpl.
  - by rewrite with_log_nil.
  - unfold mbind, prog_bind. unfold send_message at 1. rewrite emit_spec.
    rewrite IH, with_log_app. reflexivity.
Qed.

(** ** Chunking *)

Lemma take_add_drop {X} (a b : nat) (l : list X) :
  take (a + b) l = take a l ++ take b (drop a l).
Proof.
  revert l. induction a as [|a IH]; intros l; simpl; [done|].
  destruct l as [|x l]; simpl; [by rewrite take_nil|]. by rewrite IH.
Qed.

Lemma concat_slices {X} (s : list X) (size : nat) (count start : nat) :
  concat (map (λ i, slice s i (i + size)) (range_from start size count))
  = take (count * size) (drop start s).
Proof.
  revert start. induction count as [|count IH]; intros start; simpl; [done|].
  rewrite IH. unfold slice.
  replace (start + size - start)%nat with size by lia.
  rewrite take_add_drop, drop_drop. reflexivity.
Qed.

Lemma range_step_covers (stop step : nat) :
  (0 < step)%nat → (stop ≤ (stop + (step - 1)) / step * step)%nat.
Proof.
  intros Hstep.
  pose proof (Nat.div_mod_eq (stop + (step - 1)) step) as Hdm.
  pose proof (Nat.mod_upper_bound (stop + (step - 1)) step) as Hub.
  nia.
Qed.

Lemma concat_chunks {X} (size : nat) (s : list X) :
  (0 < size)%nat → concat (chunks size s) = s.
Proof.
  intros Hsize. unfold chunks, range_step. rewrite concat_slices, drop_0.
  apply take_ge. by apply range_step_covers.
Qed.

Lemma chunks_bounded {X} (size : nat) (s : list X) :
  Forall (λ c, (length c ≤ size)%nat) (chunks size s).
Proof.
  unfold chunks. apply Forall_map, Forall_forall. intros i _. simpl.
  unfold slice. rewrite length_take. lia.
Qed.

Lemma send_chunks_spec chat k (response : pystr) st :
  for_each (range_step (length response) 4096)
    (λ i, send_message chat (slice response i (i + 4096)) k) st
  = (Ok tt, with_log st (map (λ c, ESend chat c k) (chunks 4096 response))).
Proof.
  rewrite (for_each_send chat k (λ i, slice response i (i + 4096))).
  unfold chunks. by rewrite map_map.
Qed.


Lemma search_company_pure ty v st : snd (search_company ty v st) = st.
Proof.
  unfold search_company. destruct ty as [ty|]; [|done].
  destruct (assoc (str_lower ty) field_map); done.
Qed.

Lemma show_all_companies_spec e message st :
  show_all_companies e message st
  = (Ok tt,
     with_log st
       match order_by_created_at_desc (companies (db st)) with
       | [] => [EReply (chat_id message) (message_id message)
                  (u "В базе данных нет компаний.") NoMarkup]
       | cs => send_listing (chat_id message) NoMarkup
                 (listing (u "Список компаний:" ++ nl ++ nl) cs)
       end).
Proof.
  unfold show_all_companies, get_all_companies, mbind, prog_bind, gets, mret, prog_ret.
  destruct (order_by_created_at_desc (companies (db st))) as [|c cs]; [done|].
  apply send_chunks_spec.
Qed.

Lemma perform_search_spec e message st entry ty cs :
  search_states st !! chat_id message = Some entry →
  entry !! "search_type" = Some ty →
  fst (search_company ty (text message) st) = Ok cs →
  perform_search e message st
  = (Ok tt,
     BotState (user_states st) (delete (chat_id message) (search_states st)) (db st)
       (log st ++
        match cs with
        | [] => [EReply (chat_id message) (message_id message)
                   (u "Компании не найдены.") create_main_keyboard]
        | _ => send_listing (chat_id message) create_main_keyboard
                 (listing (u "Найдено компаний: " ++ str_of_nat (length cs) ++ nl ++ nl) cs)
        end)).
Proof.
  intros Hentry Hty Hcs.
  unfold perform_search, mbind, prog_bind, gets. rewrite Hentry, Hty.
  pose proof (search_company_pure ty (text message) st) as Hpure.
  destruct (search_company ty (text message) st) as [r st']. simpl in *. subst r st'.
  destruct cs as [|c cs]; [reflexivity|].
  rewrite send_chunks_spec. reflexivity.
Qed.

(** C9: a reply is sent as the consecutive slices of at most 4096
    characters of the listing, whose concatenation is the listing; a
    listing of 10000 characters goes out as 4096 + 4096 + 1808; both
    [show_all_companies] and [perform_search] send their listing this way. *)
Theorem long_reply_chunking :
  (∀ response : pystr,
      Forall (λ c, (length c ≤ 4096)%nat) (chunks 4096 response)
      ∧ concat (chunks 4096 response) = response)
  ∧ (∀ response : pystr,
        length response = N.to_nat 10000 →
        map length (chunks 4096 response) = [4096; 4096; 1808]%nat)
  ∧ (∀ e message st cs,
        order_by_created_at_desc (companies (db st)) = cs → cs ≠ [] →
        let response := listing (u "Список компаний:" ++ nl ++ nl) cs in
        let st' := snd (show_all_companies e message st) in
        log st' = log st ++ send_listing (chat_id message) NoMarkup response
        ∧ concat (map outbound_text (send_listing (chat_id message) NoMarkup response))
          = response)
  ∧ (∀ e message st entry ty cs,
        search_states st !! chat_id message = Some entry →
        entry !! "search_type" = Some ty →
        fst (search_company ty (text message) st) = Ok cs → cs ≠ [] →
        let response :=
          listing (u "Найдено компаний: " ++ str_of_nat (length cs) ++ nl ++ nl) cs in
        let st' := snd (perform_search e message st) in
        log st' = log st ++ send_listing (chat_id message) create_main_keyboard response
        ∧ concat (map outbound_text
                    (send_listing (chat_id message) create_main_keyboard response))
          = response).
Proof.
  assert (Htexts : ∀ chat k (response : pystr),
             concat (map outbound_text (send_listing chat k response)) = response).
  { intros chat k response. unfold send_listing. rewrite map_map. simpl.
    rewrite map_id. apply concat_chunks. lia. }
  split; [|split; [|split]].
  - intros response. split; [apply chunks_bounded | apply concat_chunks; lia].
  - intros response Hlen. unfold chunks. rewrite Hlen.
    replace (range_step (N.to_nat 10000) 4096)
      with [0; 4096; N.to_nat 8192]%nat by (vm_compute; reflexivity).
    cbn [map]. unfold slice. rewrite !length_take, !length_drop, Hlen.
    repeat f_equal; lia.
  - intros e message st cs Hcs Hne response st'. subst st'.
    rewrite show_all_companies_spec, Hcs. split; [|apply Htexts].
    destruct cs; [done|reflexivity].
  - intros e message st entry ty cs Hentry Hty Hcs Hne response st'. subst st'.
    rewrite (perform_search_spec e message st entry ty cs Hentry Hty Hcs).
    split; [|apply Htexts]. destruct cs; [done|reflexivity].
Qed.


(** ** String operations *)

Ltac eval_literals :=
  repeat match goal with
         | |- context [u ?s] =>
             let v := eval vm_compute in (u s) in change (u s) with v
         end.

Lemma replace_char_filter (c : N) (s : pystr) :
  replace [c] [] s = List.filter (λ x, negb (x =? c)) s.
Proof.
  unfold replace. induction s as [|x s IH]; simpl; [done|].
  rewrite andb_true_r, (N.eqb_sym c x).
  destruct (x =? c); simpl; by rewrite IH.
Qed.

Lemma filter_filter {X} (f g : X → bool) (l : list X) :
  List.filter f (List.filter g l) = List.filter (λ x, g x && f x) l.
Proof.
  induction l as [|x l IH]; simpl; [done|].
  destruct (g x); simpl; [destruct (f x)|]; by rewrite IH.
Qed.

Lemma str_isdigit_spec (s : pystr) :
  str_isdigit s = true ↔ s ≠ [] ∧ Forall (λ c, isdigit_char c = true) s.
Proof.
  unfold str_isdigit. destruct s as [|c s].
  - split; [done|]. by intros [? _].
  - rewrite forallb_forall, Forall_forall.
    split; [intros H; split; [done|]|intros [_ H]];
      intros x Hx; apply H; by apply list_elem_of_In.
Qed.

(** ** Validators *)

Lemma validate_phone_strips (phone : pystr) :
  replace (u ")") [] (replace (u "(") [] (replace (u "-") []
    (replace (u " ") [] (replace (u "+") [] phone))))
  = List.filter (λ c, negb (is_phone_punctuation c)) phone.
Proof.
  eval_literals. rewrite !replace_char_filter, !filter_filter.
  apply filter_ext. intros c. unfold is_phone_punctuation. eval_literals.
  destruct (N.eqb_spec c 43) as [->|?]; [done|].
  destruct (N.eqb_spec c 32) as [->|?]; [done|].
  destruct (N.eqb_spec c 45) as [->|?]; [done|].
  destruct (N.eqb_spec c 40) as [->|?]; [done|].
  destruct (N.eqb_spec c 41) as [->|?]; [done|].
  simpl. symmetry. apply negb_true_iff, bool_decide_eq_false.
  rewrite !elem_of_cons, elem_of_nil.
  intros [?|[?|[?|[?|[?|[]]]]]]; contradiction.
Qed.

(** C8: [validate_phone] accepts exactly the strings that, once every
    plus, hyphen, parenthesis and space is removed, consist of at least
    ten characters, all of them digits.  It is a total function to
    [bool]: no state, no exception. *)
Theorem validate_phone_spec (phone : pystr) :
  validate_phone phone = true
  ↔ let rest := List.filter (λ c, negb (is_phone_punctuation c)) phone in
    (10 ≤ length rest)%nat ∧ Forall (λ c, isdigit_char c = true) rest.
Proof.
  unfold validate_phone. rewrite validate_phone_strips. cbv zeta.
  rewrite andb_true_iff, str_isdigit_spec, Nat.leb_le.
  split.
  - intros [[_ Hd] Hlen]. done.
  - intros [Hlen Hd]. split; [split|]; [|done|done].
    intros Hnil. rewrite Hnil in Hlen. simpl in Hlen. lia.
Qed.


(** ** APIClient *)

Lemma attempts_failed p a k : attempts (failed_attempts p a k ++ [EPost p]) = S k.
Proof.
  revert a. induction k as [|k IH]; intros a; [done|].
  unfold attempts in *. simpl. by rewrite IH.
Qed.

Lemma slept_failed p a k :
  slept (failed_attempts p a k ++ [EPost p]) + 2 ^ N.of_nat a = 2 ^ N.of_nat (a + k).
Proof.
  revert a. induction k as [|k IH]; intros a; simpl.
  - by rewrite Nat.add_0_r.
  - specialize (IH (S a)). unfold slept in *. simpl in IH.
    replace (a + S k)%nat with (S (a + k)) by lia.
    rewrite Nat2N.inj_succ, N.pow_succ_r' in IH. lia.
Qed.

Lemma send_loop_step e p a rest st :
  send_loop e p a (S rest) st
  = match net e a with
    | Response body => (Ok body, with_log st [EPost p])
    | Failed x =>
        if is_request_exception x then
          if (Z.of_nat a =? MAX_RETRIES - 1)%Z
          then (Raise x, with_log st [EPost p])
          else send_loop e p (S a) rest
                 (with_log st [EPost p; ESleep (2 ^ N.of_nat a)])
        else (Raise x, with_log st [EPost p])
    end.
Proof.
  simpl. unfold mbind, prog_bind. rewrite emit_spec.
  destruct (net e a) as [body|x]; [done|].
  destruct (is_request_exception x); [|done].
  destruct (Z.of_nat a =? MAX_RETRIES - 1)%Z; [done|].
  by rewrite emit_spec, with_log_app.
Qed.

Lemma send_loop_success e p body k : ∀ a rest st,
  Z.of_nat (a + rest) = MAX_RETRIES → (k < rest)%nat →
  (∀ i, (i < k)%nat → ∃ x, net e (a + i) = Failed x ∧ is_request_exception x = true) →
  net e (a + k) = Response body →
  send_loop e p a rest st = (Ok body, with_log st (failed_attempts p a k ++ [EPost p])).
Proof.
  induction k as [|k IH]; intros a rest st Hmax Hlt Hfail Hok;
    (destruct rest as [|rest]; [lia|]); rewrite send_loop_step.
  - rewrite Nat.add_0_r in Hok. by rewrite Hok.
  - destruct (Hfail 0%nat) as (x & Hx & Hreq); [lia|].
    rewrite Nat.add_0_r in Hx. rewrite Hx, Hreq.
    destruct (Z.eqb_spec (Z.of_nat a) (MAX_RETRIES - 1)) as [Heq|_]; [lia|].
    rewrite (IH (S a) rest); [by rewrite !with_log_app| lia | lia | |].
    + intros i Hi. replace (S a + i)%nat with (a + S i)%nat by lia. apply Hfail. lia.
    + by replace (S a + k)%nat with (a + S k)%nat by lia.
Qed.

Lemma send_loop_exhausted e p x : ∀ rest a st,
  Z.of_nat (a + S rest) = MAX_RETRIES →
  (∀ i, (i < rest)%nat → ∃ y, net e (a + i) = Failed y ∧ is_request_exception y = true) →
  net e (a + rest) = Failed x → is_request_exception x = true →
  send_loop e p a (S rest) st
  = (Raise x, with_log st (failed_attempts p a rest ++ [EPost p])).
Proof.
  induction rest as [|rest IH]; intros a st Hmax Hfail Hlast Hreq;
    rewrite send_loop_step.
  - rewrite Nat.add_0_r in Hlast. rewrite Hlast, Hreq.
    destruct (Z.eqb_spec (Z.of_nat a) (MAX_RETRIES - 1)) as [_|Hne]; [done|lia].
  - destruct (Hfail 0%nat) as (y & Hy & Hyreq); [lia|].
    rewrite Nat.add_0_r in Hy. rewrite Hy, Hyreq.
    destruct (Z.eqb_spec (Z.of_nat a) (MAX_RETRIES - 1)) as [Heq|_]; [lia|].
    rewrite (IH (S a)); [by rewrite !with_log_app| lia | | |done].
    + intros i Hi. replace (S a + i)%nat with (a + S i)%nat by lia. apply Hfail. lia.
    + by replace (S a + rest)%nat with (a + S rest)%nat by lia.
Qed.

(** C5: [send_request] returns the decoded body of the first successful
    attempt when it comes within [MAX_RETRIES] attempts, having slept
    [2^i] after each failed attempt [i] (in all [2^k - 1] before a
    success at attempt [k]; with three attempts allowed and two
    failures, [2^0 + 2^1]); when every one of the [MAX_RETRIES]
    attempts fails, the exception of the last one is raised after
    exactly [MAX_RETRIES] attempts. *)
Theorem send_request_retry_contract e chat mid content st :
  (∀ k body,
      (Z.of_nat k < MAX_RETRIES)%Z →
      (∀ i, (i < k)%nat → ∃ x, net e i = Failed x ∧ is_request_exception x = true) →
      net e k = Response body →
      ∃ tr, send_request e chat mid content st = (Ok body, with_log st tr)
            ∧ attempts tr = S k
            ∧ slept tr = 2 ^ N.of_nat k - 1)
  ∧ (∀ x0 x1 body,
        MAX_RETRIES = 3%Z →
        net e 0%nat = Failed x0 → is_request_exception x0 = true →
        net e 1%nat = Failed x1 → is_request_exception x1 = true →
        net e 2%nat = Response body →
        ∃ tr, send_request e chat mid content st = (Ok body, with_log st tr)
              ∧ attempts tr = 3%nat
              ∧ slept tr = 2 ^ 0 + 2 ^ 1)
  ∧ (∀ x,
        (1 ≤ MAX_RETRIES)%Z →
        (∀ i, (Z.of_nat i < MAX_RETRIES)%Z →
              ∃ y, net e i = Failed y ∧ is_request_exception y = true) →
        net e (Z.to_nat (MAX_RETRIES - 1)) = Failed x →
        ∃ tr, send_request e chat mid content st = (Raise x, with_log st tr)
              ∧ Z.of_nat (attempts tr) = MAX_RETRIES
              ∧ slept tr = 2 ^ Z.to_N (MAX_RETRIES - 1) - 1).
Proof.
  set (p := Payload BOT_ID (chat, mid) content).
  assert (Hsuccess : ∀ k body,
    (Z.of_nat k < MAX_RETRIES)%Z →
    (∀ i, (i < k)%nat → ∃ x, net e i = Failed x ∧ is_request_exception x = true) →
    net e k = Response body →
    ∃ tr, send_request e chat mid content st = (Ok body, with_log st tr)
          ∧ attempts tr = S k ∧ slept tr = 2 ^ N.of_nat k - 1).
  { intros k body Hk Hfail Hok.
    exists (failed_attempts p 0 k ++ [EPost p]). split; [|split].
    - unfold send_request. fold p. apply send_loop_success; [lia|lia|done|done].
    - apply attempts_failed.
    - pose proof (slept_failed p 0 k) as Hs. simpl in Hs. lia. }
  split; [exact Hsuccess|split].
  - intros x0 x1 body Hmax H0 Hr0 H1 Hr1 H2.
    destruct (Hsuccess 2%nat body) as (tr & Hrun & Hatt & Hslept); [lia| |done|].
    { intros i Hi. destruct i as [|[|i]]; [eauto|eauto|lia]. }
    exists tr. split; [done|split; [done|]]. rewrite Hslept. reflexivity.
  - intros x Hmax Hfail Hlast.
    set (rest := Z.to_nat (MAX_RETRIES - 1)) in *.
    exists (failed_attempts p 0 rest ++ [EPost p]). split; [|split].
    + unfold send_request. fold p.
      replace (Z.to_nat MAX_RETRIES) with (S rest) by lia.
      destruct (Hfail rest) as (y & Hy & Hreq); [lia|].
      assert (y = x) as -> by congruence.
      apply send_loop_exhausted; [lia| |done|done].
      intros i Hi. apply Hfail. lia.
    + rewrite attempts_failed. lia.
    + pose proof (slept_failed p 0 rest) as Hs. simpl in Hs.
      replace (Z.to_N (MAX_RETRIES - 1)) with (N.of_nat rest) by lia. lia.
Qed.


(** ** The API flow *)

Lemma outbound_app a b : outbound (a ++ b) = outbound a ++ outbound b.
Proof. unfold outbound. apply List.filter_app. Qed.

Lemma send_loop_effects e p : ∀ rest a,
  ∃ r tr, outbound tr = [] ∧ ∀ st, send_loop e p a rest st = (r, with_log st tr).
Proof.
  induction rest as [|rest IH]; intros a.
  - exists (Ok VNone), []. split; [done|]. intros st. by rewrite with_log_nil.
  - destruct (IH (S a)) as (r & tr & Hout & Hrun).
    destruct (net e a) as [body|x] eqn:Hnet.
    { exists (Ok body), [EPost p]. split; [done|]. intros st.
      by rewrite send_loop_step, Hnet. }
    destruct (is_request_exception x) eqn:Hreq.
    2:{ exists (Raise x), [EPost p]. split; [done|]. intros st.
        by rewrite send_loop_step, Hnet, Hreq. }
    destruct (Z.of_nat a =? MAX_RETRIES - 1)%Z eqn:Hlast.
    { exists (Raise x), [EPost p]. split; [done|]. intros st.
      by rewrite send_loop_step, Hnet, Hreq, Hlast. }
    exists r, ([EPost p; ESleep (2 ^ N.of_nat a)] ++ tr). split.
    + by rewrite outbound_app, Hout.
    + intros st. by rewrite send_loop_step, Hnet, Hreq, Hlast, Hrun, with_log_app.
Qed.

Lemma send_request_effects e chat mid content :
  ∃ r tr, outbound tr = []
          ∧ ∀ st, send_request e chat mid content st = (r, with_log st tr).
Proof. apply send_loop_effects. Qed.

Lemma clear_user_state_spec chat st :
  clear_user_state chat st = (Ok tt, cleared chat st).
Proof.
  unfold clear_user_state, cleared, mbind, prog_bind, gets.
  destruct (user_states st !! chat) eqn:Hus; [done|].
  rewrite delete_id by done. by destruct st.
Qed.

Lemma save_company_cases e d st :
  (∃ x, save_company e d st = (Raise x, st)
        ∧ (save_company_fault e = Some x ∨ d !! "name" = None))
  ∨ (∃ name, d !! "name" = Some name ∧ save_company_fault e = None
             ∧ save_company e d st
               = (Ok (companies_seq (db st) + 1)%Z,
                  BotState (user_states st) (search_states st)
                    (with_company e name d (db st)) (log st))).
Proof.
  unfold save_company.
  destruct (save_company_fault e) as [x|]; [left; eauto|].
  destruct (d !! "name") as [name|]; [right; eauto|left; eauto].
Qed.

Lemma parse_line_keeps (k : string) (m : gmap string pystr) (line : pystr) :
  is_Some (m !! k) → is_Some (parse_line m line !! k).
Proof.
  intros Hk. unfold parse_line.
  repeat (match goal with |- context [if ?b then _ else _] => destruct b end;
          [rewrite lookup_insert; case_decide; eauto|]).
  done.
Qed.

Lemma parse_text_some (s : pystr) (d : gmap string pystr) :
  parse_text s = Some d →
  is_Some (d !! "name") ∧ is_Some (d !! "inn") ∧ is_Some (d !! "email").
Proof.
  unfold parse_text, required_fields.
  set (cd := fold_left parse_line (split_char 10 s) ∅). simpl.
  repeat case_bool_decide; simpl; try done.
  intros [= <-]. done.
Qed.

Lemma parse_api_response_some resp d :
  parse_api_response resp = Ok (Some d) →
  is_Some (d !! "name") ∧ is_Some (d !! "inn") ∧ is_Some (d !! "email").
Proof.
  unfold parse_api_response.
  destruct (negb (truthy resp)); [done|].
  destruct resp as [| | | | |?|m]; try done.
  destruct (negb (truthy _)); [done|]. unfold parse_chosen.
  destruct (py_or _ _); try done.
  intros [= H]. by eapply parse_text_some.
Qed.

Lemma usable_parsed resp d :
  parse_api_response resp = Ok (Some d) → usable (Some d) = Some d.
Proof.
  intros [[n Hn] _]%parse_api_response_some. unfold usable.
  case_bool_decide as Hd; [|done]. by rewrite Hd, lookup_empty in Hn.
Qed.

Lemma usable_none_or_parsed cd d : usable cd = Some d → cd = Some d.
Proof.
  unfold usable. destruct cd as [d'|]; [|done].
  case_bool_decide; [done|]. by intros [= ->].
Qed.


Lemma save_file_cases e company_id url type caption st :
  save_file e company_id url type caption st
  = match save_file_fault e with
    | Some x => (Raise x, st)
    | None => (Ok tt, BotState (user_states st) (search_states st)
                        (with_file e company_id url type caption (db st)) (log st))
    end.
Proof. unfold save_file. by destruct (save_file_fault e). Qed.

Ltac run_io :=
  unfold mbind, prog_bind, reply_to, reply_to_file;
  rewrite ?emit_spec; cbn beta iota;
  rewrite ?clear_user_state_spec, ?with_log_app.

Ltac close_flow Hout :=
  split; [reflexivity|];
  cbn [log with_log cleared user_states search_states db];
  rewrite !outbound_app, Hout; simpl; rewrite ?app_nil_r;
  repeat split.

Lemma text_api_flow e (message : text_message) st :
  let chat := chat_id message in
  let sent := fst (send_request e chat (message_id message)
                     (ContentText (text message)) st) in
  ∃ body st',
    process_text_for_api e message st = (Ok tt, st')
    ∧ outbound (log st')
      = outbound (log st) ++ [EReply chat (message_id message) body create_main_keyboard]
    ∧ user_states st' = delete chat (user_states st)
    ∧ search_states st' = search_states st
    ∧ ((body = api_success
        ∧ ∃ resp d name,
            sent = Ok resp ∧ parse_api_response resp = Ok (Some d)
            ∧ d !! "name" = Some name
            ∧ db st' = with_company e name d (db st))
       ∨ (body = api_no_data
          ∧ ∃ resp, sent = Ok resp ∧ parse_api_response resp = Ok None
                    ∧ db st' = db st)
       ∨ (∃ x, body = api_error x ∧ db st' = db st
               ∧ (sent = Raise x
                  ∨ ∃ resp, sent = Ok resp
                            ∧ (parse_api_response resp = Raise x
                               ∨ ∃ d, parse_api_response resp = Ok (Some d)
                                      ∧ save_company_fault e = Some x)))).
Proof.
  intros chat sent. subst sent.
  destruct (send_request_effects e chat (message_id message)
              (ContentText (text message))) as (r & tr & Hout & Hs).
  unfold process_text_for_api, try_except.
  unfold mbind at 1, prog_bind at 1. unfold mbind at 1, prog_bind at 1.
  fold chat. rewrite !Hs. cbn [fst].
  destruct r as [resp|x].
  - unfold mbind at 1, prog_bind at 1, lift_result.
    destruct (parse_api_response resp) as [cd|x] eqn:Hp.
    + destruct (usable cd) as [d|] eqn:Hu.
      * apply usable_none_or_parsed in Hu as ->.
        destruct (save_company_cases e d (with_log st tr))
          as [(x & Hsave & Hwhy)|(name & Hname & Hfault & Hsave)];
          unfold mbind at 1, prog_bind at 1; rewrite Hsave; run_io.
        -- destruct Hwhy as [Hfault|Hname].
           2:{ apply parse_api_response_some in Hp as [[n Hn] _]. congruence. }
           exists (api_error x). eexists. close_flow Hout.
           right; right. exists x. repeat split. right. eauto 6.
        -- exists api_success. eexists. close_flow Hout.
           left. split; [done|]. eauto 8.
      * destruct cd as [d|].
        { apply usable_parsed in Hp. congruence. }
        run_io. exists api_no_data. eexists. close_flow Hout.
        right; left. eauto.
    + run_io. exists (api_error x). eexists. close_flow Hout.
      right; right. exists x. repeat split. right. eauto.
  - run_io. exists (api_error x). eexists. close_flow Hout.
    right; right. exists x. eauto.
Qed.

Lemma file_api_flow e (message : file_message) st :
  let chat := file_chat_id message in
  let sent path := fst (send_request e chat (file_message_id message)
                          (file_content message (api_file_url path)) st) in
  ∃ body st',
    process_files_for_api e message st = (Ok tt, st')
    ∧ outbound (log st')
      = outbound (log st)
        ++ [EReply chat (file_message_id message) body create_main_keyboard]
    ∧ user_states st' = delete chat (user_states st)
    ∧ search_states st' = search_states st
    ∧ ((body = api_success
        ∧ ∃ path resp d name,
            get_file e (file_id message) = Ok path
            ∧ sent path = Ok resp ∧ parse_api_response resp = Ok (Some d)
            ∧ d !! "name" = Some name
            ∧ db st' = with_file e (companies_seq (db st) + 1)%Z (api_file_url path)
                         (content_type (kind message)) (caption message)
                         (with_company e name d (db st)))
       ∨ (body = api_no_data
          ∧ ∃ path resp,
              get_file e (file_id message) = Ok path
              ∧ sent path = Ok resp ∧ parse_api_response resp = Ok None
              ∧ db st' = db st)
       ∨ (∃ x, body = api_error x
               ∧ (get_file e (file_id message) = Raise x ∧ db st' = db st
                  ∨ ∃ path,
                      get_file e (file_id message) = Ok path
                      ∧ (sent path = Raise x ∧ db st' = db st
                         ∨ ∃ resp,
                             sent path = Ok resp
                             ∧ (parse_api_response resp = Raise x ∧ db st' = db st
                                ∨ ∃ d name,
                                    parse_api_response resp = Ok (Some d)
                                    ∧ d !! "name" = Some name
                                    ∧ (save_company_fault e = Some x ∧ db st' = db st
                                       ∨ save_file_fault e = Some x
                                         ∧ db st' = with_company e name d (db st))))))).
Proof.
  intros chat sent. subst sent.
  unfold process_files_for_api, try_except.
  unfold mbind at 1, prog_bind at 1. unfold mbind at 1, prog_bind at 1.
  rewrite emit_spec. unfold mbind at 1, prog_bind at 1, lift_result at 1.
  fold chat.
  destruct (get_file e (file_id message)) as [path|x] eqn:Hget.
  2:{ run_io. exists (api_error x). eexists.
      split; [reflexivity|]. simpl. rewrite !outbound_app. simpl.
      rewrite ?app_nil_r. repeat split. right; right. exists x. eauto. }
  destruct (send_request_effects e chat (file_message_id message)
              (file_content message (api_file_url path))) as (r & tr & Hout & Hs).
  unfold mbind at 1, prog_bind at 1. rewrite Hs.
  assert (Hsent : ∀ path0, Ok path = Ok path0 →
            fst (send_request e chat (file_message_id message)
                   (file_content message (api_file_url path0)) st) = r).
  { intros path0 [= <-]. by rewrite Hs. }
  destruct r as [resp|x].
  - unfold mbind at 1, prog_bind at 1, lift_result.
    destruct (parse_api_response resp) as [cd|x] eqn:Hp.
    + destruct (usable cd) as [d|] eqn:Hu.
      * apply usable_none_or_parsed in Hu as ->.
        destruct (save_company_cases e d
                    (with_log (with_log st [EGetFile (file_id message)]) tr))
          as [(x & Hsave & Hwhy)|(name & Hname & Hfault & Hsave)];
          unfold mbind at 1, prog_bind at 1; rewrite Hsave.
        -- run_io. destruct Hwhy as [Hfault|Hname].
           2:{ apply parse_api_response_some in Hp as [[n Hn] _]. congruence. }
           destruct (parse_api_response_some _ _ Hp) as [[name Hname] _].
           exists (api_error x). eexists. close_flow Hout.
           right; right. exists x. split; [done|]. right.
           exists path. split; [done|]. right.
           exists resp. split; [by apply Hsent|]. right.
           exists d, name. eauto.
        -- unfold mbind at 1, prog_bind at 1. rewrite save_file_cases.
           destruct (save_file_fault e) as [x|] eqn:Hffault; run_io.
           ++ exists (api_error x). eexists. close_flow Hout.
              right; right. exists x. split; [done|]. right.
              exists path. split; [done|]. right.
              exists resp. split; [by apply Hsent|]. right.
              exists d, name. eauto.
           ++ exists api_success. eexists. close_flow Hout.
              left. split; [done|].
              exists path, resp, d, name. split; [done|].
              split; [by apply Hsent|]. eauto.
      * destruct cd as [d|].
        { apply usable_parsed in Hp. congruence. }
        run_io. exists api_no_data. eexists. close_flow Hout.
        right; left. split; [done|].
        exists path, resp. split; [done|]. split; [by apply Hsent|]. eauto.
    + run_io. exists (api_error x). eexists. close_flow Hout.
      right; right. exists x. split; [done|]. right.
      exists path. split; [done|]. right.
      exists resp. split; [by apply Hsent|]. eauto.
  - run_io. exists (api_error x). eexists. close_flow Hout.
    right; right. exists x. split; [done|]. right.
    exists path. split; [done|]. left. split; [by apply Hsent|done].
Qed.


Lemma api_replies_distinct :
  api_success ≠ api_no_data
  ∧ ∀ x, api_error x ≠ api_success ∧ api_error x ≠ api_no_data.
Proof.
  unfold api_success, api_no_data, api_error. eval_literals.
  split; [done|]. intros x. split; discriminate.
Qed.

(** C10: with [MAX_RETRIES = 0] the loop of [send_request] has no
    iteration: no request is posted, nothing is raised and [None] is
    returned; [parse_api_response] maps [None], like an empty response
    object, to [None], so the API flow answers with the "no usable data"
    message and clears the chat's state. *)
Theorem zero_retries_no_usable_data e st :
  MAX_RETRIES = 0%Z →
  (∀ chat mid content, send_request e chat mid content st = (Ok VNone, st))
  ∧ parse_api_response VNone = Ok None
  ∧ parse_api_response (VDict ∅) = Ok None
  ∧ (∀ message : text_message,
        process_text_for_api e message st
        = (Ok tt,
           cleared (chat_id message)
             (with_log st [EReply (chat_id message) (message_id message)
                             api_no_data create_main_keyboard])))
  ∧ (∀ (message : file_message) path,
        get_file e (file_id message) = Ok path →
        process_files_for_api e message st
        = (Ok tt,
           cleared (file_chat_id message)
             (with_log st [EGetFile (file_id message);
                           EReply (file_chat_id message) (file_message_id message)
                             api_no_data create_main_keyboard]))).
Proof.
  intros Hmax.
  assert (Hsend : ∀ chat mid content st0,
             send_request e chat mid content st0 = (Ok VNone, st0)).
  { intros. unfold send_request. by rewrite Hmax. }
  split; [intros; apply Hsend|]. split; [done|]. split; [done|]. split.
  - intros message. unfold process_text_for_api.
    erewrite bind_ok; [apply clear_user_state_spec|].
    apply try_except_ok.
    erewrite bind_ok by apply Hsend.
    erewrite bind_ok by reflexivity. reflexivity.
  - intros message path Hget. unfold process_files_for_api.
    erewrite bind_ok; [apply clear_user_state_spec|].
    apply try_except_ok.
    erewrite bind_ok by apply emit_spec.
    erewrite bind_ok by (unfold lift_result; by rewrite Hget).
    erewrite bind_ok by apply Hsend.
    erewrite bind_ok by reflexivity.
    cbn [usable]. unfold reply_to_file. by rewrite emit_spec, with_log_app.
Qed.


(** ** Dispatch *)

Lemma find_handler_text st (t : text_message) :
  find_handler st (MText t)
  = if is_start_command (text t) then Some h_start_message
    else if PyStr.eqb (text t) (u "Помощь") then Some h_help_message
    else if PyStr.eqb (text t) (u "Добавить компанию") then Some h_add_company_start
    else if PyStr.eqb (text t) (u "Показать все компании") then Some h_show_all_companies
    else if PyStr.eqb (text t) (u "Найти компанию") then Some h_search_company_start
    else if bool_decide (text t ∈ [u "По названию"; u "По ИНН"; u "По email"])
      then Some h_set_search_type
    else if search_pending st (chat_id t) then Some h_perform_search
    else if in_state st (chat_id t) waiting_name then Some h_process_company_name
    else if in_state st (chat_id t) waiting_inn then Some h_process_company_inn
    else if in_state st (chat_id t) waiting_phone then Some h_process_company_phone
    else if in_state st (chat_id t) waiting_contact then Some h_process_company_contact
    else if in_state st (chat_id t) waiting_email then Some h_process_company_email
    else if PyStr.eqb (text t) (u "Отправить данные в API") then Some h_send_to_api_start
    else if in_state st (chat_id t) waiting_api_data then Some h_process_text_for_api
    else None.
Proof.
  unfold find_handler, registered_handlers.
  cbn [List.find test_message_handler text_filter].
  repeat match goal with |- context [if ?b then _ else _] => destruct b; [reflexivity|] end.
  reflexivity.
Qed.

Lemma find_handler_file st (f : file_message) :
  find_handler st (MFile f)
  = if in_state st (file_chat_id f) waiting_api_data
    then Some h_process_files_for_api else None.
Proof. reflexivity. Qed.

Lemma find_handler_log st evs m : find_handler (with_log st evs) m = find_handler st m.
Proof. reflexivity. Qed.

Lemma in_state_lookup st chat us s :
  user_states st !! chat = Some us → in_state st chat s = bool_decide (state us = s).
Proof. intros H. unfold in_state. by rewrite H. Qed.

Lemma eqb_false_of_not_elem (txt lit : pystr) (labels : list pystr) :
  txt ∉ labels → lit ∈ labels → PyStr.eqb txt lit = false.
Proof.
  intros Hnot Hin. apply bool_decide_eq_false. intros ->. done.
Qed.


Lemma handle_text_routed e st t h :
  find_handler st (MText t) = Some h →
  handle e st (MText t) = snd (run_text_handler h e t st).
Proof. intros Hfind. unfold handle. by rewrite Hfind. Qed.

Lemma handle_unrouted e st m : find_handler st m = None → handle e st m = st.
Proof. intros Hfind. unfold handle. by rewrite Hfind. Qed.

Lemma early_label_routed st t label h :
  (label, h) ∈ early_labels → text t = label → find_handler st (MText t) = Some h.
Proof.
  intros Hin Htext. rewrite find_handler_text, Htext.
  unfold early_labels in Hin. rewrite !elem_of_cons, elem_of_nil in Hin.
  destruct Hin as [[= -> ->]|[[= -> ->]|[[= -> ->]|[[= -> ->]|
                   [[= -> ->]|[[= -> ->]|[[= -> ->]|[]]]]]]]]; reflexivity.
Qed.

Lemma search_company_start_spec e t st :
  search_company_start e t st
  = (Ok tt,
     BotState (user_states st)
       (<[chat_id t := {[ "search_type" := None; "search_value" := None ]}]>
          (search_states st))
       (db st)
       (log st ++ [EReply (chat_id t) (message_id t) (u "Выберите критерий поиска:")
                     (ReplyKeyboardMarkup [u "По названию"; u "По ИНН"; u "По email"])])).
Proof. reflexivity. Qed.

Ltac eval_eqb :=
  repeat match goal with
         | |- context [PyStr.eqb (u ?a) (u ?b)] =>
             let v := eval vm_compute in (PyStr.eqb (u a) (u b)) in
             change (PyStr.eqb (u a) (u b)) with v
         end;
  cbn beta iota.

Lemma set_search_type_spec e t st ty :
  (text t, ty) ∈ criteria →
  set_search_type e t st
  = (Ok tt,
     BotState (user_states st)
       (<[chat_id t := <["search_type" := Some ty]> (default ∅ (search_states st !! chat_id t))]>
          (search_states st))
       (db st)
       (log st ++ [EReply (chat_id t) (message_id t)
                     (u "Введите значение для поиска по " ++ ty ++ u ":")
                     ReplyKeyboardRemove])).
Proof.
  intros Hin. unfold criteria in Hin. rewrite !elem_of_cons, elem_of_nil in Hin.
  unfold set_search_type. unfold mbind, prog_bind, gets. cbn beta iota.
  destruct (search_states st !! chat_id t) as [entry|] eqn:Hentry.
  - rewrite Hentry. cbn [default].
    destruct Hin as [[= -> ->]|[[= -> ->]|[[= -> ->]|[]]]]; eval_eqb;
      unfold set_search_states, modify; cbn beta iota;
      rewrite lookup_insert_eq; reflexivity.
  - rewrite lookup_insert_eq. cbn [default].
    destruct Hin as [[= -> ->]|[[= -> ->]|[[= -> ->]|[]]]]; eval_eqb;
      unfold set_search_states, modify; cbn beta iota;
      rewrite lookup_insert_eq, insert_insert_eq; reflexivity.
Qed.


Lemma criterion_is_early_label label ty :
  (label, ty) ∈ criteria → (label, h_set_search_type) ∈ early_labels.
Proof.
  unfold criteria, early_labels. rewrite !elem_of_cons, !elem_of_nil.
  intros [[= -> ->]|[[= -> ->]|[[= -> ->]|[]]]];
    [do 4 right; left|do 5 right; left|do 6 right; left]; reflexivity.
Qed.

Lemma search_pending_spec st chat :
  search_pending st chat = true
  ↔ ∃ entry, search_states st !! chat = Some entry
             ∧ is_Some (entry !! "search_type") ∧ entry !! "search_value" = None.
Proof.
  unfold search_pending. destruct (search_states st !! chat) as [entry|].
  - rewrite andb_true_iff, negb_true_iff, bool_decide_eq_true, bool_decide_eq_false.
    rewrite <- eq_None_not_Some. split.
    + intros [? ?]. eauto.
    + intros (? & [= <-] & ? & ?). done.
  - split; [done|]. by intros (? & ? & _).
Qed.

(** The state after the search command and then a criterion label. *)
Lemma search_command_then_criterion e st chat mid1 mid2 label ty :
  (label, ty) ∈ criteria →
  handle e (handle e st (MText (TextMessage chat mid1 (u "Найти компанию"))))
    (MText (TextMessage chat mid2 label))
  = BotState (user_states st)
      (<[chat := {[ "search_type" := Some ty; "search_value" := None ]}]>
         (search_states st))
      (db st)
      (log st ++
         [EReply chat mid1 (u "Выберите критерий поиска:")
            (ReplyKeyboardMarkup [u "По названию"; u "По ИНН"; u "По email"]);
          EReply chat mid2 (u "Введите значение для поиска по " ++ ty ++ u ":")
            ReplyKeyboardRemove]).
Proof.
  intros Hin.
  rewrite (handle_text_routed e st _ h_search_company_start)
    by (eapply early_label_routed; [|reflexivity];
        unfold early_labels; rewrite !elem_of_cons; do 3 right; by left).
  cbn [run_text_handler]. rewrite search_company_start_spec. cbn [snd].
  rewrite (handle_text_routed e _ _ h_set_search_type)
    by (eapply early_label_routed; [by eapply criterion_is_early_label|reflexivity]).
  cbn [run_text_handler]. rewrite (set_search_type_spec _ _ _ ty) by done.
  cbn [snd chat_id message_id user_states search_states db log].
  rewrite lookup_insert_eq. cbn [default].
  unfold id. rewrite insert_insert_eq, <- app_assoc.
  f_equal.
Qed.


Lemma find_handler_not_early st t :
  is_start_command (text t) = false → text t ∉ early_labels.*1 →
  find_handler st (MText t)
  = if search_pending st (chat_id t) then Some h_perform_search
    else match user_states st !! chat_id t with
         | Some us =>
             Some (if bool_decide (state us = waiting_api_data)
                      && PyStr.eqb (text t) (u "Отправить данные в API")
                   then h_send_to_api_start
                   else step_handler (state us))
         | None =>
             if PyStr.eqb (text t) (u "Отправить данные в API")
             then Some h_send_to_api_start else None
         end.
Proof.
  intros Hstart Hnot. rewrite find_handler_text, Hstart.
  unfold early_labels in Hnot. cbn [fmap list_fmap fst] in Hnot.
  rewrite !not_elem_of_cons in Hnot.
  destruct Hnot as (H1 & H2 & H3 & H4 & H5 & H6 & H7 & _).
  assert (Hcrit : text t ∉ [u "По названию"; u "По ИНН"; u "По email"]).
  { rewrite !not_elem_of_cons. repeat split; try assumption. apply not_elem_of_nil. }
  unfold PyStr.eqb at 1 2 3 4.
  rewrite (bool_decide_eq_false_2 _ H1), (bool_decide_eq_false_2 _ H2),
    (bool_decide_eq_false_2 _ H3), (bool_decide_eq_false_2 _ H4),
    (bool_decide_eq_false_2 _ Hcrit).
  destruct (search_pending st (chat_id t)); [reflexivity|].
  unfold in_state. destruct (user_states st !! chat_id t) as [us|]; [|reflexivity].
  destruct (state us), (PyStr.eqb (text t) (u "Отправить данные в API")); reflexivity.
Qed.

(** C1: after the search command and a criterion label, the chat's entry
    holds both keys, so the filter of [perform_search] rejects every
    message of the chat: the next text runs no search, gets no reply and
    the entry stays.  (See [criterion_without_command_searches] for the
    path that does search.) *)
Theorem search_command_flow_never_searches e st chat mid1 mid2 label ty :
  (label, ty) ∈ criteria →
  let st2 :=
    handle e (handle e st (MText (TextMessage chat mid1 (u "Найти компанию"))))
      (MText (TextMessage chat mid2 label)) in
  search_states st2 !! chat
  = Some {[ "search_type" := Some ty; "search_value" := None ]}
  ∧ search_pending st2 chat = false
  ∧ (∀ mid3 value,
        find_handler st2 (MText (TextMessage chat mid3 value)) ≠ Some h_perform_search)
  ∧ (∀ mid3 value,
        user_states st !! chat = None →
        is_start_command value = false → value ∉ early_labels.*1 →
        value ≠ u "Отправить данные в API" →
        handle e st2 (MText (TextMessage chat mid3 value)) = st2).
Proof.
  intros Hin st2. subst st2. rewrite (search_command_then_criterion _ _ _ _ _ _ ty) by done.
  set (st2 := BotState _ _ _ _).
  assert (Hentry : search_states st2 !! chat
                   = Some {[ "search_type" := Some ty; "search_value" := None ]}).
  { subst st2. cbn [search_states]. apply lookup_insert_eq. }
  assert (Hpending : search_pending st2 chat = false).
  { apply not_true_is_false. rewrite search_pending_spec.
    intros (entry & Hlook & _ & Hvalue). rewrite Hentry in Hlook.
    injection Hlook as <-. by rewrite lookup_insert_ne, lookup_singleton_eq in Hvalue. }
  split; [done|]. split; [done|]. split.
  - intros mid3 value. rewrite find_handler_text. cbn [chat_id text]. rewrite Hpending.
    repeat match goal with |- context [if ?b then _ else _] => destruct b; [done|] end.
    done.
  - intros mid3 value Hus Hstart Hnot Hapi.
    apply handle_unrouted. rewrite find_handler_not_early by done.
    cbn [chat_id text]. rewrite Hpending.
    change (user_states st2) with (user_states st). rewrite Hus.
    unfold PyStr.eqb. by rewrite bool_decide_eq_false_2.
Qed.

(** The sibling path: a chat without a search entry that sends the
    criterion label directly gets its next text searched. *)
Lemma criterion_without_command_searches e st chat mid label ty mid3 value :
  (label, ty) ∈ criteria → search_states st !! chat = None →
  is_start_command value = false → value ∉ early_labels.*1 →
  find_handler (handle e st (MText (TextMessage chat mid label)))
    (MText (TextMessage chat mid3 value))
  = Some h_perform_search.
Proof.
  intros Hin Hnone Hstart Hnot.
  rewrite (handle_text_routed e _ _ h_set_search_type)
    by (eapply early_label_routed; [by eapply criterion_is_early_label|reflexivity]).
  cbn [run_text_handler]. rewrite (set_search_type_spec _ _ _ ty) by done.
  cbn [snd chat_id]. rewrite Hnone. cbn [default].
  rewrite find_handler_not_early by done. cbn [chat_id].
  replace (search_pending _ chat) with true; [done|].
  symmetry. apply search_pending_spec. eexists. cbn [search_states].
  rewrite lookup_insert_eq. split; [done|].
  rewrite lookup_insert_eq, lookup_insert_ne, lookup_empty by done. eauto.
Qed.


(** C2, as stated, fails: a chat at the step [waiting_name] that sends
    the help label is served by [help_message], not by the step handler;
    and a chat at [waiting_inn] that sends the registration label has its
    flow restarted, losing the collected name. *)
Lemma state_first_dispatch_counterexample :
  in_state sample_waiting_name 1 waiting_name = true
  ∧ find_handler sample_waiting_name (MText (TextMessage 1 10 (u "Помощь")))
    = Some h_help_message
  ∧ h_help_message ≠ step_handler waiting_name
  ∧ in_state sample_waiting_inn 1 waiting_inn = true
  ∧ find_handler sample_waiting_inn (MText (TextMessage 1 11 (u "Добавить компанию")))
    = Some h_add_company_start
  ∧ user_states
      (snd (add_company_start (Env (λ _, Response VNone) None None (λ _, Ok []) [])
              (TextMessage 1 11 (u "Добавить компанию")) sample_waiting_inn)) !! 1%Z
    = Some (UserState waiting_name (Some ∅)).
Proof. repeat split; done. Qed.

(** C2, amended: dispatch is first match in registration order.  The
    [/start] command and a text that is one of the labels registered
    before the flow handlers go to their handlers whatever the chat's
    state; otherwise a pending search takes the text; otherwise the step
    handler of the chat's active flow takes it (in a registration step
    even when it is the API label, which only the API flow lets
    through); with no active flow only the API label starts a flow.  A
    file goes to the API flow iff the chat is awaiting API input. *)
Theorem dispatch_first_match st :
  (∀ t, is_start_command (text t) = true →
        find_handler st (MText t) = Some h_start_message)
  ∧ (∀ t label h,
      (label, h) ∈ early_labels → text t = label →
      find_handler st (MText t) = Some h)
  ∧ (∀ t,
        is_start_command (text t) = false → text t ∉ early_labels.*1 →
        search_pending st (chat_id t) = true →
        find_handler st (MText t) = Some h_perform_search)
  ∧ (∀ t us,
        is_start_command (text t) = false → text t ∉ early_labels.*1 →
        search_pending st (chat_id t) = false →
        user_states st !! chat_id t = Some us →
        find_handler st (MText t)
        = Some (if bool_decide (state us = waiting_api_data)
                   && PyStr.eqb (text t) (u "Отправить данные в API")
                then h_send_to_api_start
                else step_handler (state us)))
  ∧ (∀ t,
        is_start_command (text t) = false → text t ∉ early_labels.*1 →
        search_pending st (chat_id t) = false →
        user_states st !! chat_id t = None →
        find_handler st (MText t)
        = if PyStr.eqb (text t) (u "Отправить данные в API")
          then Some h_send_to_api_start else None)
  ∧ (∀ f,
        find_handler st (MFile f)
        = if in_state st (file_chat_id f) waiting_api_data
          then Some h_process_files_for_api else None).
Proof.
  split; [|split; [|split; [|split; [|split]]]].
  - intros t Hstart. by rewrite find_handler_text, Hstart.
  - intros t label h. apply early_label_routed.
  - intros t Hstart Hnot Hpend. by rewrite find_handler_not_early, Hpend.
  - intros t us Hstart Hnot Hpend Hus. by rewrite find_handler_not_early, Hpend, Hus.
  - intros t Hstart Hnot Hpend Hus. by rewrite find_handler_not_early, Hpend, Hus.
  - intros f. apply find_handler_file.
Qed.

(** ** The response parser *)

Lemma contains_cons p c s :
  contains p (c :: s) = startswith p (c :: s) || contains p s.
Proof. reflexivity. Qed.

Lemma startswith_app p s : startswith p (p ++ s) = true.
Proof. induction p as [|c p IH]; simpl; [done|]. by rewrite N.eqb_refl. Qed.

Lemma contains_startswith p s : startswith p s = true → contains p s = true.
Proof. destruct s; simpl; by intros ->. Qed.

Lemma contains_false_startswith p s : contains p s = false → startswith p s = false.
Proof.
  intros Hc. destruct (startswith p s) eqn:Hs; [|done].
  by rewrite (contains_startswith _ _ Hs) in Hc.
Qed.

Lemma replace_go_skip old new a s :
  replace_go old new (length a) (a ++ s) = replace_go old new 0%nat s.
Proof. induction a as [|c a IH]; simpl; [by destruct s|done]. Qed.

Lemma replace_go_absent old (s : pystr) :
  contains old s = false → replace_go old [] 0%nat s = s.
Proof.
  induction s as [|c s IH]; [done|].
  rewrite contains_cons. intros [Hs Hc]%orb_false_iff.
  cbn [replace_go]. rewrite Hs. f_equal. by apply IH.
Qed.

Lemma replace_label c label v :
  contains (c :: label) v = false →
  replace (c :: label) [] ((c :: label) ++ v) = v.
Proof.
  intros Hc. unfold replace.
  change ((c :: label) ++ v) with (c :: (label ++ v)). cbn [replace_go].
  change (c :: label ++ v) with ((c :: label) ++ v). rewrite startswith_app.
  replace (length (c :: label) - 1)%nat with (length label) by (simpl; lia).
  cbn [app]. rewrite replace_go_skip. by apply replace_go_absent.
Qed.

Lemma split_char_no_sep sep s : sep ∉ s → split_char sep s = [s].
Proof.
  induction s as [|c s IH]; [done|]. intros [Hne Hnot]%not_elem_of_cons.
  simpl. destruct (N.eqb_spec c sep) as [->|_]; [done|]. by rewrite IH.
Qed.

Lemma split_char_app_sep sep l s :
  sep ∉ l → split_char sep (l ++ sep :: s) = l :: split_char sep s.
Proof.
  induction l as [|c l IH]; simpl.
  - by rewrite N.eqb_refl.
  - intros [Hne Hnot]%not_elem_of_cons.
    destruct (N.eqb_spec c sep) as [->|_]; [done|]. by rewrite IH.
Qed.

Lemma split_join ls :
  ls ≠ [] → Forall (λ l, 10 ∉ l) ls → split_char 10 (join nl ls) = ls.
Proof.
  induction ls as [|l ls IH]; [done|]. intros _ [Hl Hls]%Forall_cons.
  destruct ls as [|l' rest].
  - by apply split_char_no_sep.
  - change (join nl (l :: l' :: rest)) with (l ++ 10 :: join nl (l' :: rest)).
    rewrite split_char_app_sep by done. f_equal. by apply IH.
Qed.

Lemma parse_line_classify m line :
  parse_line m line
  = match classify line with
    | Some (k, v) => <[k := v]> m
    | None => m
    end.
Proof.
  unfold parse_line, classify, field_labels. cbn [first_label].
  repeat (destruct (contains _ line); [reflexivity|]). reflexivity.
Qed.

Lemma parse_lines_fold ls : ∀ m,
  fold_left parse_line ls m
  = foldr (λ kv acc, <[kv.1 := kv.2]> acc) m (rev (omap classify ls)).
Proof.
  induction ls as [|line ls IH]; intros m; [done|].
  cbn [fold_left omap list_omap]. rewrite IH, parse_line_classify.
  destruct (classify line) as [[k v]|]; [|done].
  cbn [rev]. by rewrite foldr_app.
Qed.

Lemma parse_lines_map ls :
  fold_left parse_line ls ∅ = list_to_map (rev (omap classify ls)).
Proof. apply parse_lines_fold. Qed.


Lemma contains_other_label l1 l2 v :
  l1 ∈ field_labels.*1 → l2 ∈ field_labels.*1 → l1 ≠ l2 →
  contains l1 (l2 ++ v) = contains l1 v.
Proof.
  unfold field_labels. cbn [fmap list_fmap fst]. rewrite !elem_of_cons, !elem_of_nil.
  intros H1 H2 Hne.
  destruct H1 as [->|[->|[->|[->|[->|[]]]]]];
    destruct H2 as [->|[->|[->|[->|[->|[]]]]]];
    try (exfalso; apply Hne; reflexivity);
    eval_literals; cbn [app];
    repeat (rewrite contains_cons; cbn [startswith N.eqb Pos.eqb andb orb]);
    reflexivity.
Qed.

Ltac other_label :=
  first [ by repeat constructor
        | let H := fresh in intros H; vm_compute in H; discriminate H ].

Lemma classify_labelled label key v :
  (label, key) ∈ field_labels → label_free v →
  classify (label ++ v) = Some (key, strip v).
Proof.
  intros Hin Hfree.
  assert (Hother : ∀ l, l ∈ field_labels.*1 → l ≠ label → contains l (label ++ v) = false).
  { intros l Hl Hne. rewrite contains_other_label; [by apply Hfree|done| |done].
    apply list_elem_of_fmap. by exists (label, key). }
  assert (Hself : contains label (label ++ v) = true)
    by apply contains_startswith, startswith_app.
  assert (Hreplace : replace label [] (label ++ v) = v).
  { assert (Hl : contains label v = false).
    { apply Hfree, list_elem_of_fmap. by exists (label, key). }
    destruct label as [|c label]; [|by apply replace_label].
    exfalso. revert Hin. unfold field_labels. rewrite !elem_of_cons, elem_of_nil.
    intros [H|[H|[H|[H|[H|[]]]]]]; discriminate H. }
  revert Hin Hother Hself Hreplace. unfold field_labels.
  cbn [fmap list_fmap fst]. rewrite !elem_of_cons, !elem_of_nil.
  intros Hin Hother Hself Hreplace. unfold classify, field_labels.
  destruct Hin as [[= -> ->]|[[= -> ->]|[[= -> ->]|[[= -> ->]|[[= -> ->]|[]]]]]];
    cbn [first_label];
    try rewrite (Hother (u "Название:")) by other_label;
    try rewrite (Hother (u "ИНН:")) by other_label;
    try rewrite (Hother (u "Телефон:")) by other_label;
    try rewrite (Hother (u "Контактное лицо:")) by other_label;
    rewrite Hself; cbn beta iota; rewrite Hreplace; reflexivity.
Qed.


Lemma classify_label_free line : label_free line → classify line = None.
Proof.
  intros Hfree. unfold classify, field_labels. cbn [first_label].
  rewrite !Hfree by (unfold field_labels; cbn [fmap list_fmap fst]; repeat constructor).
  reflexivity.
Qed.

Lemma omap_classify_label_free ls : Forall label_free ls → omap classify ls = [].
Proof.
  induction 1 as [|line ls Hline _ IH]; [done|].
  cbn [omap list_omap]. by rewrite classify_label_free.
Qed.

Lemma omap_classify_lines name inn phone contact email others :
  Forall label_free [name; inn; phone; contact; email] → Forall label_free others →
  omap classify (labelled_lines name inn phone contact email ++ others)
  = [ ("name", strip name); ("inn", strip inn); ("phone", strip phone);
      ("contact_person", strip contact); ("email", strip email) ].
Proof.
  intros Hvalues Hothers. rewrite !Forall_cons in Hvalues.
  destruct Hvalues as (H1 & H2 & H3 & H4 & H5 & _).
  unfold labelled_lines. cbn [app omap list_omap].
  rewrite (classify_labelled _ "name"), (classify_labelled _ "inn"),
    (classify_labelled _ "phone"), (classify_labelled _ "contact_person"),
    (classify_labelled _ "email");
    try assumption; try (unfold field_labels; repeat constructor).
  by rewrite omap_classify_label_free.
Qed.

Lemma labels_one_line : Forall (λ l : pystr, 10 ∉ l) field_labels.*1.
Proof.
  unfold field_labels. cbn [fmap list_fmap fst]. eval_literals.
  repeat constructor; rewrite !not_elem_of_cons; repeat split; try discriminate;
    apply not_elem_of_nil.
Qed.


Lemma parse_text_roundtrip name inn phone contact email others ls :
  Forall plain_value [name; inn; phone; contact; email] → Forall plain_value others →
  ls ≡ₚ labelled_lines name inn phone contact email ++ others →
  parse_text (join nl ls) = Some (candidate name inn phone contact email).
Proof.
  intros Hvalues Hothers Hperm.
  assert (Hlines : Forall (λ l : pystr, 10 ∉ l) ls).
  { rewrite Hperm. apply Forall_app. split.
    - pose proof labels_one_line as Hlabels. unfold field_labels in Hlabels.
      cbn [fmap list_fmap fst] in Hlabels.
      rewrite !Forall_cons in Hlabels, Hvalues.
      destruct Hlabels as (L1 & L2 & L3 & L4 & L5 & _).
      destruct Hvalues as ([_ V1] & [_ V2] & [_ V3] & [_ V4] & [_ V5] & _).
      unfold labelled_lines. repeat constructor; rewrite not_elem_of_app; done.
    - eapply Forall_impl; [exact Hothers|]. by intros l [_ Hl]. }
  assert (Hne : ls ≠ []).
  { intros ->. by apply Permutation_nil_l in Hperm. }
  unfold parse_text. rewrite split_join, parse_lines_map by done.
  assert (Hmap : list_to_map (rev (omap classify ls))
                 = candidate name inn phone contact email).
  { symmetry.
    change (candidate name inn phone contact email)
      with (list_to_map (M:=gmap string pystr)
              [ ("name", strip name); ("inn", strip inn); ("phone", strip phone);
                ("contact_person", strip contact); ("email", strip email) ]).
    apply list_to_map_proper.
    - cbn [fmap list_fmap fst]. apply (bool_decide_unpack _). by vm_compute.
    - rewrite <- Permutation_rev, Hperm.
      rewrite omap_classify_lines; [done| |].
      + eapply Forall_impl; [exact Hvalues|]. by intros l [Hl _].
      + eapply Forall_impl; [exact Hothers|]. by intros l [Hl _]. }
  rewrite Hmap. reflexivity.
Qed.


Lemma parse_line_email_absent m line :
  contains (u "Email:") line = false → m !! "email" = None →
  parse_line m line !! "email" = None.
Proof.
  intros Hline Hm. unfold parse_line. rewrite Hline.
  repeat (match goal with |- context [if ?b then _ else _] => destruct b end;
          [by rewrite lookup_insert_ne|]).
  done.
Qed.

Lemma parse_lines_email_absent ls : ∀ m,
  Forall (λ line, contains (u "Email:") line = false) ls → m !! "email" = None →
  fold_left parse_line ls m !! "email" = None.
Proof.
  induction ls as [|line ls IH]; intros m Hls Hm; [done|].
  apply Forall_cons in Hls as [Hline Hls]. cbn [fold_left].
  apply IH; [done|]. by apply parse_line_email_absent.
Qed.

Lemma parse_text_without_email text_data :
  Forall (λ line, contains (u "Email:") line = false) (split_char 10 text_data) →
  parse_text text_data = None.
Proof.
  intros Hlines. unfold parse_text, required_fields. cbn [forallb].
  rewrite (parse_lines_email_absent _ ∅ Hlines) by done.
  rewrite (bool_decide_eq_false_2 (is_Some None)) by (by intros [? ?]).
  by rewrite !andb_false_r.
Qed.

Lemma truthy_dict (d : gmap string pyval) : truthy (VDict d) = false ↔ d = ∅.
Proof.
  cbn [truthy]. destruct (map_to_list d) as [|kv l] eqn:Hl.
  - apply map_to_list_empty_iff in Hl. by split.
  - split; [done|]. intros ->. by rewrite map_to_list_empty in Hl.
Qed.

Lemma parse_api_response_done text_data :
  parse_api_response (VDict {[ "done" := VStr text_data ]})
  = match text_data with
    | [] => Ok None
    | _ :: _ => Ok (parse_text text_data)
    end.
Proof.
  unfold parse_api_response.
  destruct (truthy (VDict {[ "done" := VStr text_data ]})) eqn:Htruthy.
  2:{ apply truthy_dict in Htruthy. by apply map_non_empty_singleton in Htruthy. }
  cbn [negb]. unfold dict_get.
  rewrite lookup_singleton_eq, !lookup_singleton_ne by done. cbn [default].
  by destruct text_data.
Qed.

(** C3, as stated, fails.  With the five lines each starting with its
    label, a contact line that mentions the phone label is taken for a
    phone line: the candidate has no contact person and its phone is not
    the trimmed text after the phone label.  And where a label is not at
    the start of its line, the field keeps the text before the label. *)
Lemma parser_roundtrip_counterexample :
  (∃ d, parse_text (join nl sample_contact_mentions_phone) = Some d
        ∧ d !! "contact_person" = None
        ∧ d !! "phone" = Some (u "Контактное лицо: Bob,  123")
        ∧ candidate (u " Acme") (u " 1234567890") (u " 555")
            (u " Bob, Телефон: 123") (u " a@b.ru") !! "phone" = Some (u "555"))
  ∧ spec_after_label (u "Название:") (u "Old Название: Acme") = Some (u " Acme")
  ∧ classify (u "Old Название: Acme") = Some ("name", u "Old  Acme").
Proof.
  split; [|split; reflexivity].
  eexists. split; [by vm_compute|]. repeat split; by vm_compute.
Qed.

(** C4, as stated, fails: when [done] is present but empty the parser
    does not give up, it goes on to [message]. *)
Lemma first_present_source_counterexample :
  spec_first_present sample_empty_done = Some (VStr [])
  ∧ ∃ d, parse_api_response (VDict sample_empty_done) = Ok (Some d)
         ∧ d !! "name" = Some (u "Acme")
         ∧ d !! "inn" = Some (u "1234567890")
         ∧ d !! "email" = Some (u "a@b.ru").
Proof.
  split; [reflexivity|]. eexists. split; [by vm_compute|]. repeat split; by vm_compute.
Qed.

(** C4, amended: the text to parse is the first of the fields [done],
    [message], [text], in this order, whose value is present and truthy
    (for a string: not empty); if none is, the result is [None]. *)
Theorem extraction_source_first_truthy (d : gmap string pyval) :
  let done_field := dict_get d "done" VNone in
  let message_field := dict_get d "message" VNone in
  let text_field := dict_get d "text" (VStr []) in
  (truthy done_field = true →
   parse_api_response (VDict d) = parse_chosen done_field)
  ∧ (truthy done_field = false → truthy message_field = true →
     parse_api_response (VDict d) = parse_chosen message_field)
  ∧ (truthy done_field = false → truthy message_field = false →
     truthy text_field = true →
     parse_api_response (VDict d) = parse_chosen text_field)
  ∧ (truthy done_field = false → truthy message_field = false →
     truthy text_field = false →
     parse_api_response (VDict d) = Ok None)
  ∧ (∀ s, parse_chosen (VStr s) = Ok (parse_text s)).
Proof.
  intros done_field message_field text_field.
  assert (Hempty : truthy (VDict d) = false →
            truthy done_field = false ∧ truthy message_field = false
            ∧ truthy text_field = false).
  { intros ->%truthy_dict. subst done_field message_field text_field.
    unfold dict_get. by rewrite !lookup_empty. }
  unfold parse_api_response. fold done_field message_field text_field.
  destruct (truthy (VDict d)) eqn:Hd; cbn [negb].
  - unfold py_or. repeat split.
    + intros H1. by repeat (rewrite ?H1; cbn beta iota).
    + intros H1 H2. by repeat (rewrite ?H1, ?H2; cbn beta iota).
    + intros H1 H2 H3. by repeat (rewrite ?H1, ?H2, ?H3; cbn beta iota).
    + intros H1 H2 H3. by repeat (rewrite ?H1, ?H2, ?H3; cbn beta iota).
  - destruct (Hempty eq_refl) as (H1 & H2 & H3). rewrite H1, H2, H3.
    repeat split; done.
Qed.


Lemma label_freeb_spec v : label_freeb v = true → label_free v.
Proof.
  unfold label_freeb, label_free. rewrite forallb_forall.
  intros Hall label Hin. apply negb_true_iff, Hall. by apply list_elem_of_In.
Qed.

Lemma plain_value_check v :
  label_freeb v = true → bool_decide (10 ∉ v) = true → plain_value v.
Proof.
  intros Hfree Hline. split; [by apply label_freeb_spec|].
  by apply bool_decide_eq_true in Hline.
Qed.

(** * Further properties *)

(** ** Validators *)

(** X1: [validate_inn] accepts exactly the strings of ten or of twelve
    characters each of which [str.isdigit] counts as a digit; so a
    string with a character that is no digit is rejected whatever its
    length. *)
Theorem validate_inn_spec (inn : pystr) :
  (validate_inn inn = true
   ↔ Forall (λ c, isdigit_char c = true) inn
     ∧ (length inn = 10%nat ∨ length inn = 12%nat))
  ∧ (∀ c, c ∈ inn → isdigit_char c = false → validate_inn inn = false).
Proof.
  assert (Hiff : validate_inn inn = true
                 ↔ Forall (λ c, isdigit_char c = true) inn
                   ∧ (length inn = 10%nat ∨ length inn = 12%nat)).
  { unfold validate_inn.
    destruct (str_isdigit inn) eqn:Hdigit; cbn [negb].
    - apply str_isdigit_spec in Hdigit as [_ Hall].
      destruct ((length inn =? 10)%nat || (length inn =? 12)%nat) eqn:Hlen; cbn [negb].
      + apply orb_true_iff in Hlen. rewrite !Nat.eqb_eq in Hlen. by split.
      + apply orb_false_iff in Hlen. rewrite !Nat.eqb_neq in Hlen.
        split; [done|]. intros [_ [?|?]]; lia.
    - split; [done|]. intros [Hall Hlen].
      assert (str_isdigit inn = true) as Hyes; [|congruence].
      apply str_isdigit_spec. split; [|done]. intros ->. simpl in Hlen. lia. }
  split; [exact Hiff|]. intros c Hc Hno.
  apply not_true_is_false. intros Hvalid.
  apply Hiff in Hvalid as [Hall _]. rewrite Forall_forall in Hall.
  specialize (Hall c Hc). congruence.
Qed.

(** ** APIClient *)

Lemma attempts_app a b : attempts (a ++ b) = (attempts a + attempts b)%nat.
Proof. unfold attempts. by rewrite List.filter_app, length_app. Qed.

Lemma slept_app a b : slept (a ++ b) = slept a + slept b.
Proof.
  unfold slept. induction a as [|ev a IH]; [done|].
  cbn [app fold_right]. destruct ev; rewrite IH; lia.
Qed.

Lemma send_loop_bounded e p : ∀ rest a st,
  (a + rest)%nat = Z.to_nat MAX_RETRIES →
  ∃ r tr,
    send_loop e p a rest st = (r, with_log st tr)
    ∧ (attempts tr ≤ rest)%nat
    ∧ (rest = 0%nat → tr = [] ∧ r = Ok VNone)
    ∧ ((0 < rest)%nat →
       (1 ≤ attempts tr)%nat
       ∧ slept tr + 2 ^ N.of_nat a = 2 ^ N.of_nat (a + attempts tr - 1)).
Proof.
  induction rest as [|rest IH]; intros a st Hinv.
  - exists (Ok VNone), []. rewrite with_log_nil. repeat split; [done|lia..].
  - rewrite send_loop_step.
    assert (Hone : ∀ r : result pyval,
      ∃ r' tr, (r, with_log st [EPost p]) = (r', with_log st tr)
        ∧ (attempts tr ≤ S rest)%nat
        ∧ (S rest = 0%nat → tr = [] ∧ r' = Ok VNone)
        ∧ ((0 < S rest)%nat →
           (1 ≤ attempts tr)%nat
           ∧ slept tr + 2 ^ N.of_nat a = 2 ^ N.of_nat (a + attempts tr - 1))).
    { intros r. exists r, [EPost p]. split; [done|]. split; [cbn; lia|].
      split; [lia|]. intros _. split; [cbn; lia|].
      cbn. by replace (a + 1 - 1)%nat with a by lia. }
    destruct (net e a) as [body|x]; [apply Hone|].
    destruct (is_request_exception x); [|apply Hone].
    destruct (Z.eqb_spec (Z.of_nat a) (MAX_RETRIES - 1)) as [_|Hne]; [apply Hone|].
    destruct (IH (S a) (with_log st [EPost p; ESleep (2 ^ N.of_nat a)]))
      as (r & tr & Hrun & Hatt & Hzero & Hpos); [lia|].
    exists r, ([EPost p; ESleep (2 ^ N.of_nat a)] ++ tr).
    rewrite Hrun, with_log_app. split; [done|].
    rewrite attempts_app, slept_app.
    change (attempts [EPost p; ESleep (2 ^ N.of_nat a)]) with 1%nat.
    change (slept [EPost p; ESleep (2 ^ N.of_nat a)]) with (2 ^ N.of_nat a + 0).
    split; [lia|]. split; [lia|]. intros _. split; [lia|].
    destruct Hpos as [Hge Hslept]; [lia|].
    replace (a + (1 + attempts tr) - 1)%nat with (S a + attempts tr - 1)%nat by lia.
    rewrite <- Hslept, Nat2N.inj_succ, N.pow_succ_r'. lia.
Qed.

(** X2: whatever the endpoint does, [send_request] posts at most
    [MAX_RETRIES] times, sends nothing to any chat, and after [n >= 1]
    attempts it has slept [2^(n-1) - 1] in all; with no attempt allowed it
    does nothing and returns [None]. *)
Theorem send_request_bounded e chat mid content st :
  ∃ r tr,
    send_request e chat mid content st = (r, with_log st tr)
    ∧ (Z.of_nat (attempts tr) ≤ Z.max 0 MAX_RETRIES)%Z
    ∧ outbound tr = []
    ∧ ((MAX_RETRIES ≤ 0)%Z → tr = [] ∧ r = Ok VNone)
    ∧ ((0 < MAX_RETRIES)%Z →
       (1 ≤ attempts tr)%nat ∧ slept tr = 2 ^ N.of_nat (attempts tr - 1) - 1).
Proof.
  unfold send_request. set (p := Payload BOT_ID (chat, mid) content).
  destruct (send_loop_bounded e p (Z.to_nat MAX_RETRIES) 0 st)
    as (r & tr & Hrun & Hatt & Hzero & Hpos); [done|].
  destruct (send_loop_effects e p (Z.to_nat MAX_RETRIES) 0)
    as (r' & tr' & Hout & Hrun').
  assert (tr' = tr) as ->.
  { specialize (Hrun' st). rewrite Hrun in Hrun'.
    assert (Hlog : log (with_log st tr') = log (with_log st tr)) by congruence.
    cbn [log with_log] in Hlog. by apply app_inv_head in Hlog. }
  exists r, tr. split; [done|]. split; [lia|]. split; [done|]. split.
  - intros Hle. apply Hzero. lia.
  - intros Hlt. destruct Hpos as [Hge Hslept]; [lia|]. split; [done|].
    cbn in Hslept. lia.
Qed.

(** X3: an exception that is not a [RequestException] is not retried:
    raised at attempt [k], after [k] transport failures, it reaches the
    caller at once, after [k + 1] attempts. *)
Theorem other_exception_not_retried e chat mid content st k x :
  (Z.of_nat k < MAX_RETRIES)%Z →
  (∀ i, (i < k)%nat → ∃ y, net e i = Failed y ∧ is_request_exception y = true) →
  net e k = Failed x → is_request_exception x = false →
  ∃ tr, send_request e chat mid content st = (Raise x, with_log st tr)
        ∧ attempts tr = S k.
Proof.
  intros Hk Hfail Hlast Hother. unfold send_request.
  set (p := Payload BOT_ID (chat, mid) content).
  exists (failed_attempts p 0 k ++ [EPost p]). split; [|apply attempts_failed].
  assert (Hgen : ∀ j a rest st0,
    Z.of_nat (a + rest) = MAX_RETRIES → (j < rest)%nat →
    (∀ i, (i < j)%nat → ∃ y, net e (a + i) = Failed y ∧ is_request_exception y = true) →
    net e (a + j) = Failed x →
    send_loop e p a rest st0
    = (Raise x, with_log st0 (failed_attempts p a j ++ [EPost p]))).
  { induction j as [|j IH]; intros a rest st0 Hmax Hlt Hf Hl;
      (destruct rest as [|rest]; [lia|]); rewrite send_loop_step.
    - rewrite Nat.add_0_r in Hl. by rewrite Hl, Hother.
    - destruct (Hf 0%nat) as (y & Hy & Hreq); [lia|].
      rewrite Nat.add_0_r in Hy. rewrite Hy, Hreq.
      destruct (Z.eqb_spec (Z.of_nat a) (MAX_RETRIES - 1)) as [Heq|_]; [lia|].
      rewrite (IH (S a) rest); [by rewrite !with_log_app| lia | lia | |].
      + intros i Hi. replace (S a + i)%nat with (a + S i)%nat by lia. apply Hf. lia.
      + by replace (S a + j)%nat with (a + S j)%nat by lia. }
  apply Hgen; [lia|lia|done|done].
Qed.

(** ** Trimming and the parser's candidates *)

Lemma elem_of_rev (c : N) (s : pystr) : c ∈ rev s ↔ c ∈ s.
Proof. rewrite !list_elem_of_In. symmetry. apply in_rev. Qed.

Lemma lstrip_elem c s : c ∈ lstrip s → c ∈ s.
Proof.
  induction s as [|x s IH]; [done|]. cbn [lstrip].
  destruct (isspace x); [|done]. intros Hc. right. by apply IH.
Qed.

Lemma strip_elem c s : c ∈ strip s → c ∈ s.
Proof.
  unfold strip, rstrip. rewrite elem_of_rev. intros Hc%lstrip_elem.
  rewrite elem_of_rev in Hc. by apply lstrip_elem.
Qed.

Lemma replace_go_elem old c : ∀ s k, c ∈ replace_go old [] k s → c ∈ s.
Proof.
  induction s as [|x s IH]; intros k; [done|]. cbn [replace_go].
  destruct k as [|k].
  - destruct (startswith old (x :: s)).
    + cbn [app]. intros Hc. right. by eapply IH.
    + intros [->|Hc]%elem_of_cons; [by left|]. right. by eapply IH.
  - intros Hc. right. by eapply IH.
Qed.

Lemma replace_label_elem x label c s :
  c ∈ replace (x :: label) [] s → c ∈ s.
Proof. unfold replace. apply replace_go_elem. Qed.

Lemma split_char_lines sep s : Forall (λ l, sep ∉ l) (split_char sep s).
Proof.
  induction s as [|c s IH]; [repeat constructor; apply not_elem_of_nil|].
  cbn [split_char]. destruct (N.eqb_spec c sep) as [->|Hne].
  - constructor; [apply not_elem_of_nil|done].
  - destruct (split_char sep s) as [|w ws].
    + repeat constructor. rewrite not_elem_of_cons. split; [done|apply not_elem_of_nil].
    + apply Forall_cons in IH as [Hw Hws]. constructor; [|done].
      rewrite not_elem_of_cons. by split.
Qed.

Lemma lstrip_head s c r : lstrip s = c :: r → isspace c = false.
Proof.
  induction s as [|x s IH]; [done|]. cbn [lstrip].
  destruct (isspace x) eqn:Hx; [done|]. by intros [= <- _].
Qed.

Lemma lstrip_cons_nonspace c s : isspace c = false → lstrip (c :: s) = c :: s.
Proof. intros Hc. cbn [lstrip]. by rewrite Hc. Qed.

Lemma lstrip_idempotent s : lstrip (lstrip s) = lstrip s.
Proof.
  destruct (lstrip s) as [|c r] eqn:Hs; [done|].
  apply lstrip_cons_nonspace. by eapply lstrip_head.
Qed.

Lemma lstrip_split s : ∃ p, s = p ++ lstrip s.
Proof.
  induction s as [|x s [p Hp]]; [by exists []|]. cbn [lstrip].
  destruct (isspace x); [|by exists []].
  exists (x :: p). cbn [app]. by rewrite <- Hp.
Qed.

Lemma rstrip_idempotent s : rstrip (rstrip s) = rstrip s.
Proof. unfold rstrip. by rewrite rev_involutive, lstrip_idempotent. Qed.

Lemma lstrip_rstrip s : lstrip s = s → lstrip (rstrip s) = rstrip s.
Proof.
  intros Hs. unfold rstrip.
  destruct (lstrip_split (rev s)) as [p Hp].
  destruct (lstrip (rev s)) as [|c w] eqn:Hw; [done|].
  assert (Hrev : s = rev (c :: w) ++ rev p).
  { rewrite <- rev_app_distr, <- Hp. by rewrite rev_involutive. }
  destruct (rev (c :: w)) as [|y r] eqn:Hr.
  { apply (f_equal (@length N)) in Hr. rewrite length_rev in Hr. done. }
  apply lstrip_cons_nonspace. apply (lstrip_head s y (r ++ rev p)).
  by rewrite Hs, Hrev.
Qed.

Lemma strip_idempotent s : strip (strip s) = strip s.
Proof.
  unfold strip.
  rewrite (lstrip_rstrip (lstrip s)) by apply lstrip_idempotent.
  apply rstrip_idempotent.
Qed.

Lemma strip_cons_space v : strip (32 :: v) = strip v.
Proof. reflexivity. Qed.

Lemma first_label_elem line ls label key :
  first_label line ls = Some (label, key) →
  (label, key) ∈ ls ∧ contains label line = true.
Proof.
  induction ls as [|[l k] ls IH]; [done|]. cbn [first_label].
  destruct (contains l line) eqn:Hl.
  - intros [= -> ->]. split; [by left|done].
  - intros [Hin Hc]%IH. split; [by right|done].
Qed.

Lemma classify_some line key v :
  classify line = Some (key, v) →
  ∃ label, (label, key) ∈ field_labels ∧ contains label line = true
           ∧ v = strip (replace label [] line).
Proof.
  unfold classify. destruct (first_label line field_labels) as [[label k]|] eqn:Hf; [|done].
  intros [= -> <-]. apply first_label_elem in Hf as [Hin Hc]. eauto.
Qed.

Lemma field_labels_nonempty label key : (label, key) ∈ field_labels → label ≠ [].
Proof.
  unfold field_labels. rewrite !elem_of_cons, elem_of_nil.
  intros [H|[H|[H|[H|[H|[]]]]]]; injection H as -> _; discriminate.
Qed.

(** What every entry of a candidate under construction satisfies. *)
Lemma parse_lines_entries ls : ∀ m,
  Forall (λ l : pystr, 10 ∉ l) ls →
  (∀ k v, m !! k = Some v → k ∈ field_labels.*2 ∧ strip v = v ∧ 10 ∉ v) →
  ∀ k v, fold_left parse_line ls m !! k = Some v →
         k ∈ field_labels.*2 ∧ strip v = v ∧ 10 ∉ v.
Proof.
  induction ls as [|line ls IH]; intros m Hls Hm; [done|].
  apply Forall_cons in Hls as [Hline Hls]. cbn [fold_left].
  apply IH; [done|]. intros k v. rewrite parse_line_classify.
  destruct (classify line) as [[key w]|] eqn:Hclass; [|apply Hm].
  destruct (classify_some _ _ _ Hclass) as (label & Hin & _ & ->).
  destruct (decide (key = k)) as [->|Hne].
  - rewrite lookup_insert_eq. intros [= <-]. split; [|split].
    + apply list_elem_of_fmap. by exists (label, k).
    + apply strip_idempotent.
    + intros Hc%strip_elem.
      destruct label as [|x label]; [by eapply field_labels_nonempty|].
      by apply replace_label_elem in Hc.
  - rewrite lookup_insert_ne by done. apply Hm.
Qed.

Lemma parse_api_response_text resp d :
  parse_api_response resp = Ok (Some d) → ∃ s, parse_text s = Some d.
Proof.
  unfold parse_api_response.
  destruct (negb (truthy resp)); [done|].
  destruct resp as [| | | | |?|m]; try done.
  destruct (negb (truthy _)); [done|]. unfold parse_chosen.
  destruct (py_or _ _); try done.
  intros [= H]. eauto.
Qed.

(** X4: every field of a candidate that [parse_api_response] returns has
    one of the five keys, is trimmed (stripping it again changes
    nothing) and holds no newline; name, tax id and email are there. *)
Theorem candidate_fields_trimmed resp d :
  parse_api_response resp = Ok (Some d) →
  (∀ k v, d !! k = Some v → k ∈ field_labels.*2 ∧ strip v = v ∧ 10 ∉ v)
  ∧ is_Some (d !! "name") ∧ is_Some (d !! "inn") ∧ is_Some (d !! "email").
Proof.
  intros Hparse. split; [|by eapply parse_api_response_some].
  apply parse_api_response_text in Hparse as [s Hs].
  unfold parse_text in Hs.
  destruct (forallb _ required_fields); [|done]. injection Hs as <-.
  apply parse_lines_entries; [apply split_char_lines|].
  intros k v. by rewrite lookup_empty.
Qed.

(** X5: a later line overrides an earlier one with the same label: the
    field has the value of the last line that begins with the label. *)
Theorem later_line_overrides ls label key v d :
  (label, key) ∈ field_labels → label_free v → 10 ∉ v →
  Forall (λ l : pystr, 10 ∉ l) ls →
  parse_text (join nl (ls ++ [label ++ v])) = Some d →
  d !! key = Some (strip v).
Proof.
  intros Hin Hfree Hv Hls. unfold parse_text.
  rewrite split_join.
  - destruct (forallb _ required_fields); [|done]. intros [= <-].
    rewrite fold_left_app. cbn [fold_left].
    rewrite parse_line_classify, (classify_labelled _ key) by done.
    apply lookup_insert_eq.
  - by destruct ls.
  - apply Forall_app. split; [done|]. repeat constructor.
    rewrite not_elem_of_app. split; [|done].
    pose proof labels_one_line as Hlabels. rewrite Forall_forall in Hlabels.
    apply Hlabels, list_elem_of_fmap. by exists (label, key).
Qed.

(** ** Listing and parsing *)

Lemma label_free_cons_space v : label_free v → label_free (32 :: v).
Proof.
  intros Hfree label Hin. rewrite contains_cons, (Hfree label Hin), orb_false_r.
  revert Hin. unfold field_labels. cbn [fmap list_fmap fst].
  rewrite !elem_of_cons, elem_of_nil.
  intros [->|[->|[->|[->|[->|[]]]]]]; reflexivity.
Qed.

Lemma plain_value_cons_space v : plain_value v → plain_value (32 :: v).
Proof.
  intros [Hfree Hline]. split; [by apply label_free_cons_space|].
  rewrite not_elem_of_cons. by split.
Qed.

Lemma created_line_plain v : plain_value v → plain_value (u "Дата создания: " ++ v).
Proof.
  intros [Hfree Hline]. split.
  - intros label Hin. etrans; [|exact (Hfree label Hin)]. revert Hin.
    unfold field_labels. cbn [fmap list_fmap fst]. rewrite !elem_of_cons, elem_of_nil.
    intros [->|[->|[->|[->|[->|[]]]]]];
      eval_literals; cbn [app];
      repeat (rewrite contains_cons; cbn [startswith N.eqb Pos.eqb andb orb]);
      reflexivity.
  - rewrite not_elem_of_app. split; [|done].
    eval_literals. rewrite !not_elem_of_cons.
    repeat split; try discriminate. apply not_elem_of_nil.
Qed.

Lemma format_company_info_lines company :
  format_company_info company
  = join nl (labelled_lines (32 :: row_name company)
               (32 :: str_of_column (row_inn company))
               (32 :: str_of_column (row_phone company))
               (32 :: str_of_column (row_contact_person company))
               (32 :: str_of_column (row_email company))
             ++ [u "Дата создания: " ++ row_created_at company]).
Proof.
  unfold format_company_info, labelled_lines, nl. cbn [app join].
  change (u "Название: ") with (u "Название:" ++ [32]).
  change (u "ИНН: ") with (u "ИНН:" ++ [32]).
  change (u "Телефон: ") with (u "Телефон:" ++ [32]).
  change (u "Контактное лицо: ") with (u "Контактное лицо:" ++ [32]).
  change (u "Email: ") with (u "Email:" ++ [32]).
  rewrite <- !app_assoc. reflexivity.
Qed.

Lemma parse_api_response_text_field s :
  s ≠ [] → parse_api_response (VDict {[ "text" := VStr s ]}) = Ok (parse_text s).
Proof.
  intros Hs. unfold parse_api_response.
  destruct (truthy (VDict {[ "text" := VStr s ]})) eqn:Htruthy.
  2:{ apply truthy_dict in Htruthy. by apply map_non_empty_singleton in Htruthy. }
  cbn [negb]. unfold dict_get.
  rewrite lookup_singleton_eq, !lookup_singleton_ne by done.
  destruct s as [|c r]; [done|]. reflexivity.
Qed.

(** X6: what [format_company_info] prints, [parse_api_response] reads
    back: when the columns (an absent one prints as None) and the date
    contain no label and no newline, the formatted record parses to the
    candidate with the same five values, trimmed. *)
Theorem formatted_record_parses_back company :
  plain_value (row_name company) →
  plain_value (str_of_column (row_inn company)) →
  plain_value (str_of_column (row_phone company)) →
  plain_value (str_of_column (row_contact_person company)) →
  plain_value (str_of_column (row_email company)) →
  plain_value (row_created_at company) →
  parse_api_response (VDict {[ "text" := VStr (format_company_info company) ]})
  = Ok (Some (candidate (row_name company)
                (str_of_column (row_inn company))
                (str_of_column (row_phone company))
                (str_of_column (row_contact_person company))
                (str_of_column (row_email company)))).
Proof.
  intros Hname Hinn Hphone Hcontact Hemail Hcreated.
  assert (Hparse : parse_text (format_company_info company)
                   = Some (candidate (row_name company)
                             (str_of_column (row_inn company))
                             (str_of_column (row_phone company))
                             (str_of_column (row_contact_person company))
                             (str_of_column (row_email company)))).
  { rewrite format_company_info_lines.
    change (candidate (row_name company) (str_of_column (row_inn company))
              (str_of_column (row_phone company))
              (str_of_column (row_contact_person company))
              (str_of_column (row_email company)))
      with (candidate (32 :: row_name company) (32 :: str_of_column (row_inn company))
              (32 :: str_of_column (row_phone company))
              (32 :: str_of_column (row_contact_person company))
              (32 :: str_of_column (row_email company))).
    apply (parse_text_roundtrip _ _ _ _ _
             [u "Дата создания: " ++ row_created_at company]); [| |done].
    - do 5 (constructor; [by apply plain_value_cons_space|]). constructor.
    - constructor; [by apply created_line_plain|constructor]. }
  rewrite parse_api_response_text_field, Hparse; [done|].
  intros Hfmt. rewrite Hfmt in Hparse.
  assert (Hempty : parse_text [] = None) by (by vm_compute). congruence.
Qed.

(** ** What a handler touches *)

Ltac unfold_prog :=
  unfold mbind, prog_bind, mret, prog_ret, gets, modify, raise, emit,
    set_user_states, set_search_states, set_db, reply_to, reply_to_file,
    send_message, lift_result, try_except, collect, clear_user_state, key_error.

Ltac exec :=
  repeat first
    [ progress unfold_prog
    | progress cbn beta iota
    | match goal with
      | |- context [match ?x with _ => _ end] =>
          lazymatch x with
          | context [match _ with _ => _ end] => fail
          | _ => destruct x eqn:?
          end
      end ].

Lemma local_step_refl e chat st : local_step e chat st st.
Proof.
  repeat split; try done.
  - exists []. by rewrite app_nil_r.
  - by left.
Qed.

Ltac solve_frame :=
  let c := fresh "c" in let Hc := fresh "Hc" in
  intros c Hc;
  repeat first [ rewrite lookup_insert_ne by done | rewrite lookup_delete_ne by done ];
  reflexivity.

Ltac solve_sent :=
  rewrite ?outbound_app; cbn [outbound List.filter is_outbound];
  rewrite ?app_nil_r, <- ?app_assoc;
  first [ by (exists []; split; [by rewrite app_nil_r|constructor])
        | eexists; split; [reflexivity|]; cbn [app]; repeat constructor ].

Ltac solve_local :=
  cbn [snd]; unfold local_step; cbn [user_states search_states db log];
  split; [solve_frame|]; split; [solve_frame|]; split; [solve_sent|].

Lemma start_message_local e t st :
  local_step e (chat_id t) st (snd (start_message e t st)).
Proof. unfold start_message. exec. solve_local. by left. Qed.

Lemma help_message_local e t st :
  local_step e (chat_id t) st (snd (help_message e t st)).
Proof. unfold help_message. exec. solve_local. by left. Qed.

Lemma add_company_start_local e t st :
  local_step e (chat_id t) st (snd (add_company_start e t st)).
Proof. unfold add_company_start. exec. solve_local. by left. Qed.

Lemma search_company_start_local e t st :
  local_step e (chat_id t) st (snd (search_company_start e t st)).
Proof. unfold search_company_start. exec. solve_local. by left. Qed.

Lemma send_to_api_start_local e t st :
  local_step e (chat_id t) st (snd (send_to_api_start e t st)).
Proof. unfold send_to_api_start. exec. solve_local. by left. Qed.

Lemma set_search_type_local e t st :
  local_step e (chat_id t) st (snd (set_search_type e t st)).
Proof. unfold set_search_type. exec; solve_local; by left. Qed.

Lemma process_company_name_local e t st :
  local_step e (chat_id t) st (snd (process_company_name e t st)).
Proof. unfold process_company_name. exec; solve_local; by left. Qed.

Lemma process_company_inn_local e t st :
  local_step e (chat_id t) st (snd (process_company_inn e t st)).
Proof. unfold process_company_inn. exec; solve_local; by left. Qed.

Lemma process_company_phone_local e t st :
  local_step e (chat_id t) st (snd (process_company_phone e t st)).
Proof. unfold process_company_phone. exec; solve_local; by left. Qed.

Lemma process_company_contact_local e t st :
  local_step e (chat_id t) st (snd (process_company_contact e t st)).
Proof. unfold process_company_contact. exec; solve_local; by left. Qed.

Lemma send_listing_sent chat k response :
  outbound (send_listing chat k response) = send_listing chat k response
  ∧ Forall (λ ev, event_chat ev = Some chat) (send_listing chat k response).
Proof.
  unfold send_listing. induction (chunks 4096 response) as [|c cs [IH1 IH2]]; [done|].
  cbn [map outbound List.filter is_outbound]. fold (outbound (map (λ c, ESend chat c k) cs)).
  rewrite IH1. split; [done|]. by constructor.
Qed.

Lemma show_all_companies_local e t st :
  local_step e (chat_id t) st (snd (show_all_companies e t st)).
Proof.
  rewrite show_all_companies_spec. cbn [snd].
  repeat split; try done; [|by left]. cbn [log with_log]. rewrite outbound_app.
  eexists. split; [reflexivity|].
  destruct (order_by_created_at_desc (companies (db st))).
  - by repeat constructor.
  - destruct (send_listing_sent (chat_id t) NoMarkup
                (listing (u "Список компаний:" ++ nl ++ nl) (c :: l))) as [-> H]. done.
Qed.

Lemma perform_search_local e t st :
  local_step e (chat_id t) st (snd (perform_search e t st)).
Proof.
  destruct (search_states st !! chat_id t) as [entry|] eqn:Hentry.
  2:{ unfold perform_search. unfold_prog. cbn beta iota. rewrite Hentry.
      apply local_step_refl. }
  destruct (entry !! "search_type") as [ty|] eqn:Hty.
  2:{ unfold perform_search. unfold_prog. cbn beta iota. rewrite Hentry, Hty.
      apply local_step_refl. }
  pose proof (search_company_pure ty (text t) st) as Hpure.
  destruct (search_company ty (text t) st) as [[cs|x] st1] eqn:Hsearch;
    cbn [snd] in Hpure; subst st1.
  - rewrite (perform_search_spec e t st entry ty cs) by (by rewrite ?Hsearch).
    cbn [snd]. unfold local_step. cbn [user_states search_states db log].
    split; [done|]. split; [solve_frame|]. split; [|by left].
    rewrite outbound_app. eexists. split; [reflexivity|].
    destruct cs as [|c cs].
    + by repeat constructor.
    + destruct (send_listing_sent (chat_id t) create_main_keyboard
                  (listing (u "Найдено компаний: " ++ str_of_nat (length (c :: cs))
                              ++ nl ++ nl) (c :: cs))) as [-> H]. done.
  - unfold perform_search. unfold mbind at 1, prog_bind at 1, gets. cbn beta iota.
    rewrite Hentry, Hty. unfold mbind at 1, prog_bind at 1. rewrite Hsearch.
    apply local_step_refl.
Qed.

Lemma process_company_email_local e t st :
  local_step e (chat_id t) st (snd (process_company_email e t st)).
Proof.
  unfold process_company_email, save_company. exec; solve_local;
    first [ by left | right; left; by eauto ].
Qed.

Lemma process_text_for_api_local e t st :
  local_step e (chat_id t) st (snd (process_text_for_api e t st)).
Proof.
  destruct (text_api_flow e t st) as (body & st' & Hrun & Hout & Hus & Hss & Hcase).
  rewrite Hrun. cbn [snd]. unfold local_step. rewrite Hus, Hss, Hout.
  split; [solve_frame|]. split; [done|]. split.
  - eexists. split; [reflexivity|]. by repeat constructor.
  - destruct Hcase as [(_ & resp & d & name & _ & _ & _ & ->)
                      |[(_ & resp & _ & _ & ->)|(x & _ & -> & _)]];
      [right; left; by eauto | by left | by left].
Qed.

Lemma process_files_for_api_local e f st :
  local_step e (file_chat_id f) st (snd (process_files_for_api e f st)).
Proof.
  destruct (file_api_flow e f st) as (body & st' & Hrun & Hout & Hus & Hss & Hcase).
  rewrite Hrun. cbn [snd]. unfold local_step. rewrite Hus, Hss, Hout.
  split; [solve_frame|]. split; [done|]. split.
  - eexists. split; [reflexivity|]. by repeat constructor.
  - destruct Hcase as [(_ & path & resp & d & name & _ & _ & _ & _ & ->)
                      |[(_ & path & resp & _ & _ & _ & ->)|(x & _ & Herr)]].
    + right; right. by eauto 8.
    + by left.
    + destruct Herr as [[_ ->]|(path & _ & [[_ ->]|(resp & _ & [[_ ->]|Hsave])])];
        try by left.
      destruct Hsave as (d & name & _ & _ & [[_ ->]|[_ ->]]); [by left|].
      right; left. by eauto.
Qed.

Lemma run_handler_local h e m st :
  local_step e (message_chat m) st (snd (run_handler h e m st)).
Proof.
  destruct m as [t|f|chat mid]; cbn [run_handler message_chat].
  - destruct h; cbn [run_text_handler];
      [ apply start_message_local | apply help_message_local
      | apply add_company_start_local | apply show_all_companies_local
      | apply search_company_start_local | apply set_search_type_local
      | apply perform_search_local | apply process_company_name_local
      | apply process_company_inn_local | apply process_company_phone_local
      | apply process_company_contact_local | apply process_company_email_local
      | apply send_to_api_start_local | apply process_text_for_api_local
      | apply local_step_refl ].
  - destruct h; try apply local_step_refl. apply process_files_for_api_local.
  - apply local_step_refl.
Qed.

Lemma handle_local e st m : local_step e (message_chat m) st (handle e st m).
Proof.
  unfold handle. destruct (find_handler st m) as [h|].
  - apply run_handler_local.
  - apply local_step_refl.
Qed.

(** X7: handling a message of one chat never changes the flow state or
    the search entry of another chat. *)
Theorem other_chats_untouched e st m chat :
  chat ≠ message_chat m →
  user_states (handle e st m) !! chat = user_states st !! chat
  ∧ search_states (handle e st m) !! chat = search_states st !! chat.
Proof.
  intros Hne. destruct (handle_local e st m) as (Hus & Hss & _). auto.
Qed.

(** X8: every reply or message the bot sends while handling a message
    goes to the chat the message came from; what was sent before stays. *)
Theorem replies_go_to_sender e st m :
  ∃ sent,
    outbound (log (handle e st m)) = outbound (log st) ++ sent
    ∧ Forall (λ ev, event_chat ev = Some (message_chat m)) sent.
Proof. by destruct (handle_local e st m) as (_ & _ & Hsent & _). Qed.

(** ** The store *)

Lemma db_step_wf e d d' : db_wf d → db_step e d d' → db_wf d'.
Proof.
  unfold db_wf. intros Hwf [->|[(name & data & ->)|(name & data & url & ty & cap & ->)]];
    [done| |]; cbn [with_company with_file companies files].
  - eapply Forall_impl; [exact Hwf|]. intros f Hf.
    rewrite fmap_app, elem_of_app. by left.
  - apply Forall_app. split.
    + eapply Forall_impl; [exact Hwf|]. intros f Hf.
      rewrite fmap_app, elem_of_app. by left.
    + repeat constructor. cbn [file_company_id].
      rewrite fmap_app, elem_of_app. right. by left.
Qed.

Lemma db_step_prefix e d d' :
  db_step e d d' →
  companies d `prefix_of` companies d' ∧ files d `prefix_of` files d'.
Proof.
  intros [->|[(name & data & ->)|(name & data & url & ty & cap & ->)]];
    cbn [with_company with_file companies files];
    split; try done; by eexists.
Qed.

Lemma run_snoc steps e m st : run (steps ++ [(e, m)]) st = handle e (run steps st) m.
Proof. unfold run. by rewrite fold_left_app. Qed.

(** X9: the bot keeps the store's referential integrity: if every
    attachment row names a stored company, so it is after any sequence of
    messages; in particular in every state reached from the initial one. *)
Theorem attachments_reference_companies steps st :
  db_wf (db st) → db_wf (db (run steps st)).
Proof.
  intros Hwf. induction steps as [|[e m] steps IH] using rev_ind; [done|].
  rewrite run_snoc. destruct (handle_local e (run steps st) m) as (_ & _ & _ & Hdb).
  by eapply db_step_wf.
Qed.

(** X10: the store is append-only: no sequence of messages removes or
    changes a company or attachment row. *)
Theorem store_append_only steps st :
  companies (db st) `prefix_of` companies (db (run steps st))
  ∧ files (db st) `prefix_of` files (db (run steps st)).
Proof.
  induction steps as [|[e m] steps [IHc IHf]] using rev_ind; [done|].
  rewrite run_snoc. destruct (handle_local e (run steps st) m) as (_ & _ & _ & Hdb).
  apply db_step_prefix in Hdb as [Hc Hf]. split; by etrans.
Qed.

(** ** The invariant of the state dictionaries *)

Lemma entry_ok_of_inv st chat : state_inv st → entry_ok st chat.
Proof. intros [Hus Hss]. split; eauto. Qed.

Lemma entry_ok_same st st' chat :
  state_inv st → user_states st' = user_states st →
  search_states st' = search_states st → entry_ok st' chat.
Proof. intros Hinv Hus Hss. unfold entry_ok. rewrite Hus, Hss. by apply entry_ok_of_inv. Qed.

Lemma in_state_some st chat s :
  in_state st chat s = true → ∃ us, user_states st !! chat = Some us ∧ state us = s.
Proof.
  unfold in_state. destruct (user_states st !! chat) as [us|]; [|done].
  intros Hs%bool_decide_eq_true. eauto.
Qed.

Lemma collect_spec chat key value next st us d :
  user_states st !! chat = Some us → data us = Some d →
  collect chat key value next st
  = (Ok tt,
     BotState (<[chat := UserState next (Some (<[key := value]> d))]> (user_states st))
       (search_states st) (db st) (log st)).
Proof. intros Hus Hd. unfold collect. unfold_prog. cbn beta iota. by rewrite Hus, Hd. Qed.

Lemma holds_insert_ne d key key' v valid :
  key ≠ key' → holds d key' valid → holds (<[key := v]> d) key' valid.
Proof. intros Hne (w & Hw & Hvalid). exists w. by rewrite lookup_insert_ne. Qed.

Lemma holds_insert d key v (valid : pystr → bool) :
  valid v = true → holds (<[key := v]> d) key valid.
Proof. intros Hvalid. exists v. by rewrite lookup_insert_eq. Qed.

Lemma is_Some_insert_ne (d : gmap string pystr) key key' v :
  key ≠ key' → is_Some (d !! key') → is_Some (<[key := v]> d !! key').
Proof. intros Hne Hs. by rewrite lookup_insert_ne. Qed.

Lemma reply_good (t : text_message) body k st :
  state_inv st → good_run (chat_id t) (reply_to t body k st).
Proof.
  intros Hinv. unfold reply_to. rewrite emit_spec. split; [done|].
  by apply (entry_ok_same st).
Qed.

(** The registration steps that store a field. *)
Lemma collect_good (t : text_message) st s next key reply_text :
  state_inv st → in_state st (chat_id t) s = true →
  s ≠ waiting_api_data →
  (∀ d, collected s d → collected next (<[key := text t]> d)) →
  next ≠ waiting_api_data →
  good_run (chat_id t)
    ((collect (chat_id t) key (text t) next;; reply_to t reply_text NoMarkup) st).
Proof.
  intros Hinv (us & Hus & Hstate)%in_state_some Hs Hnext Hnapi.
  pose proof (proj1 Hinv _ _ Hus) as Hreg. unfold reg_inv in Hreg. rewrite Hstate in Hreg.
  assert (∃ d, data us = Some d ∧ collected s d) as (d & Hd & Hcol)
    by (by destruct s).
  erewrite bind_ok by (by eapply collect_spec).
  unfold reply_to. rewrite emit_spec. split; [done|]. cbn [snd].
  split; cbn [user_states search_states with_log].
  - intros us'. rewrite lookup_insert_eq. intros [= <-].
    unfold reg_inv. cbn [state data].
    assert (∃ d', Some (<[key := text t]> d) = Some d' ∧ collected next d')
      by (eexists; split; [done|by apply Hnext]).
    by destruct next.
  - intros entry. apply Hinv.
Qed.

Lemma process_company_name_good e t st :
  state_inv st → in_state st (chat_id t) waiting_name = true →
  good_run (chat_id t) (process_company_name e t st).
Proof.
  intros Hinv Hstate. unfold process_company_name.
  eapply collect_good; try done.
  intros d _. cbn [collected]. by rewrite lookup_insert_eq.
Qed.

Lemma process_company_contact_good e t st :
  state_inv st → in_state st (chat_id t) waiting_contact = true →
  good_run (chat_id t) (process_company_contact e t st).
Proof.
  intros Hinv Hstate. unfold process_company_contact.
  eapply collect_good; try done.
  intros d (Hname & Hinn & Hphone). cbn [collected].
  split; [by apply is_Some_insert_ne|].
  split; [by apply holds_insert_ne|]. split; [by apply holds_insert_ne|].
  by rewrite lookup_insert_eq.
Qed.

Lemma process_company_inn_good e t st :
  state_inv st → in_state st (chat_id t) waiting_inn = true →
  good_run (chat_id t) (process_company_inn e t st).
Proof.
  intros Hinv Hstate. unfold process_company_inn.
  destruct (validate_inn (text t)) eqn:Hvalid; cbn [negb].
  - eapply collect_good; try done.
    intros d Hname. cbn [collected] in *.
    split; [by apply is_Some_insert_ne|]. by apply holds_insert.
  - by apply reply_good.
Qed.

Lemma process_company_phone_good e t st :
  state_inv st → in_state st (chat_id t) waiting_phone = true →
  good_run (chat_id t) (process_company_phone e t st).
Proof.
  intros Hinv Hstate. unfold process_company_phone.
  destruct (validate_phone (text t)) eqn:Hvalid; cbn [negb].
  - eapply collect_good; try done.
    intros d [Hname Hinn]. cbn [collected].
    split; [by apply is_Some_insert_ne|].
    split; [by apply holds_insert_ne|]. by apply holds_insert.
  - by apply reply_good.
Qed.

Lemma search_company_some ty v st :
  ∃ cs, fst (search_company (Some ty) v st) = Ok cs.
Proof.
  unfold search_company. destruct (assoc (str_lower ty) field_map); eauto.
Qed.

Lemma perform_search_good e t st :
  state_inv st → search_pending st (chat_id t) = true →
  good_run (chat_id t) (perform_search e t st).
Proof.
  intros Hinv (entry & Hentry & _ & Hvalue)%search_pending_spec.
  destruct (proj2 Hinv _ _ Hentry) as [[v Hv]|(ty & Hty & _)]; [congruence|].
  destruct (search_company_some ty (text t) st) as [cs Hcs].
  rewrite (perform_search_spec e t st entry (Some ty) cs Hentry Hty Hcs).
  split; [done|]. split; cbn [snd user_states search_states].
  - apply Hinv.
  - intros entry'. by rewrite lookup_delete_eq.
Qed.

Lemma set_search_type_good e t st :
  state_inv st →
  text t ∈ [u "По названию"; u "По ИНН"; u "По email"] →
  good_run (chat_id t) (set_search_type e t st).
Proof.
  intros Hinv Htext.
  assert (∃ ty, (text t, ty) ∈ criteria) as [ty Hty].
  { unfold criteria.
    apply elem_of_cons in Htext as [->|Htext]; [eexists; by constructor|].
    apply elem_of_cons in Htext as [->|Htext]; [eexists; by do 2 constructor|].
    apply elem_of_cons in Htext as [->|Htext]; [eexists; by do 3 constructor|].
    by apply elem_of_nil in Htext. }
  rewrite (set_search_type_spec e t st ty Hty).
  split; [done|]. split; cbn [snd user_states search_states].
  - apply Hinv.
  - intros entry. rewrite lookup_insert_eq. intros [= <-].
    right. exists ty. split; [by rewrite lookup_insert_eq|].
    apply list_elem_of_fmap. by exists (text t, ty).
Qed.

Lemma process_company_email_good e t st :
  state_inv st → in_state st (chat_id t) waiting_email = true →
  good_run (chat_id t) (process_company_email e t st).
Proof.
  intros Hinv (us & Hus & Hstate)%in_state_some.
  pose proof (proj1 Hinv _ _ Hus) as Hreg. unfold reg_inv in Hreg.
  rewrite Hstate in Hreg. destruct Hreg as (d & Hd & _).
  unfold process_company_email. cbv zeta.
  destruct (validate_email (text t)); cbn [negb]; [|by apply reply_good].
  unfold_prog. cbn beta iota. rewrite Hus, Hd.
  repeat first [progress unfold_prog | progress cbn beta iota].
  match goal with
  | |- context [save_company e ?d ?s] =>
      destruct (save_company_cases e d s)
        as [(x & -> & _)|(name & _ & _ & ->)]
  end; repeat first [progress unfold_prog | progress cbn beta iota].
  all: split; [done|]; split; cbn [snd user_states search_states].
  all: first [ by (intros us'; rewrite lookup_delete_eq) | apply Hinv ].
Qed.

(** Every handler, run on a message that its filter accepts in a state
    that satisfies the invariant, returns normally and leaves the
    sender's entries in order. *)
Lemma run_handler_good e h m st :
  state_inv st → test_message_handler h st m = true →
  good_run (message_chat m) (run_handler h e m st).
Proof.
  intros Hinv Hfilter. destruct m as [t|f|chat kind]; [| |done].
  - cbn [message_chat run_handler]. cbn [test_message_handler] in Hfilter.
    destruct h; cbn [run_text_handler text_filter] in *.
    + by apply reply_good.
    + by apply reply_good.
    + unfold add_company_start.
      repeat first [progress unfold_prog | progress cbn beta iota].
      split; [done|]. split; cbn [snd user_states search_states].
      * intros us. rewrite lookup_insert_eq. intros [= <-].
        exists ∅. by split.
      * apply Hinv.
    + rewrite show_all_companies_spec. split; [done|]. by apply (entry_ok_same st).
    + rewrite search_company_start_spec. split; [done|].
      split; cbn [snd user_states search_states].
      * apply Hinv.
      * intros entry. rewrite lookup_insert_eq. intros [= <-]. by left.
    + apply set_search_type_good; [done|]. by apply bool_decide_eq_true in Hfilter.
    + by apply perform_search_good.
    + by apply process_company_name_good.
    + by apply process_company_inn_good.
    + by apply process_company_phone_good.
    + by apply process_company_contact_good.
    + by apply process_company_email_good.
    + unfold send_to_api_start.
      repeat first [progress unfold_prog | progress cbn beta iota].
      split; [done|]. split; cbn [snd user_states search_states].
      * intros us. rewrite lookup_insert_eq. by intros [= <-].
      * apply Hinv.
    + destruct (text_api_flow e t st) as (body & st' & -> & _ & Hus & Hss & _).
      split; [done|]. split; cbn [snd].
      * intros us. by rewrite Hus, lookup_delete_eq.
      * rewrite Hss. apply Hinv.
    + done.
  - cbn [message_chat run_handler]. cbn [test_message_handler] in Hfilter.
    destruct h; try done.
    destruct (file_api_flow e f st) as (body & st' & -> & _ & Hus & Hss & _).
    split; [done|]. split; cbn [snd].
    + intros us. by rewrite Hus, lookup_delete_eq.
    + rewrite Hss. apply Hinv.
Qed.

Lemma find_handler_accepts st m h :
  find_handler st m = Some h → test_message_handler h st m = true.
Proof. intros Hfind. by apply find_some in Hfind as [_ Hfilter]. Qed.

Lemma handle_state_inv e st m : state_inv st → state_inv (handle e st m).
Proof.
  intros Hinv.
  destruct (handle_local e st m) as (Hus & Hss & _).
  assert (entry_ok (handle e st m) (message_chat m)) as [Hown_us Hown_ss].
  { unfold handle. destruct (find_handler st m) as [h|] eqn:Hfind.
    - by apply run_handler_good, find_handler_accepts.
    - by apply entry_ok_of_inv. }
  split.
  - intros chat us Hlookup. destruct (decide (chat = message_chat m)) as [->|Hne].
    + by apply Hown_us.
    + rewrite Hus in Hlookup by done. by apply (proj1 Hinv chat).
  - intros chat entry Hlookup. destruct (decide (chat = message_chat m)) as [->|Hne].
    + by apply Hown_ss.
    + rewrite Hss in Hlookup by done. by apply (proj2 Hinv chat).
Qed.

Lemma initial_state_inv : state_inv initial_state.
Proof. split; intros chat x; cbn; by rewrite lookup_empty. Qed.

Lemma run_state_inv steps st : state_inv st → state_inv (run steps st).
Proof.
  revert st. induction steps as [|[e m] steps IH]; intros st Hinv; [done|].
  cbn. by apply IH, handle_state_inv.
Qed.

(** X11: the invariant of the two state dictionaries holds along every
    run: an entry of [user_states] other than [waiting_api_data] carries
    a [data] dictionary with the fields of the steps already passed, the
    INN and the phone number validated, and an entry of [search_states]
    has the key [search_value] or a criterion as its [search_type]. *)
Theorem state_invariant_preserved steps st : state_inv st → state_inv (run steps st).
Proof. apply run_state_inv. Qed.

(** X12: in a state that satisfies the invariant, and so in every state
    reached from it, the handler that dispatch selects returns normally:
    its unguarded reads [user_states[chat_id]['data']],
    [search_states[chat_id]['search_type']] and [search_type.lower()]
    all succeed. *)
Theorem selected_handler_never_raises steps st e m :
  state_inv st → handle_outcome e (run steps st) m = Ok tt.
Proof.
  intros Hinv%(run_state_inv steps). unfold handle_outcome.
  destruct (find_handler (run steps st) m) as [h|] eqn:Hfind; [|done].
  by apply (run_handler_good e), find_handler_accepts.
Qed.

(** ** What manual registration stores *)

Lemma perform_search_db e t st : db (snd (perform_search e t st)) = db st.
Proof.
  destruct (search_states st !! chat_id t) as [entry|] eqn:Hentry.
  2:{ unfold perform_search. unfold_prog. cbn beta iota. by rewrite Hentry. }
  destruct (entry !! "search_type") as [ty|] eqn:Hty.
  2:{ unfold perform_search. unfold_prog. cbn beta iota. by rewrite Hentry, Hty. }
  pose proof (search_company_pure ty (text t) st) as Hpure.
  destruct (search_company ty (text t) st) as [[cs|x] st1] eqn:Hsearch;
    cbn [snd] in Hpure; subst st1.
  - by rewrite (perform_search_spec e t st entry ty cs) by (by rewrite ?Hsearch).
  - unfold perform_search. unfold mbind at 1, prog_bind at 1, gets. cbn beta iota.
    rewrite Hentry, Hty. unfold mbind at 1, prog_bind at 1. by rewrite Hsearch.
Qed.

(** Only the last registration step and the two API handlers write to
    the database. *)
Lemma run_text_handler_db h e t st :
  h ≠ h_process_company_email → h ≠ h_process_text_for_api →
  db (snd (run_text_handler h e t st)) = db st.
Proof.
  intros Hemail Hapi. destruct h; try done; cbn [run_text_handler];
    first
      [ by rewrite show_all_companies_spec
      | apply perform_search_db
      | unfold set_search_type, process_company_name, process_company_inn,
          process_company_phone, process_company_contact; by exec ].
Qed.

Lemma process_company_email_stored e t st us d :
  user_states st !! chat_id t = Some us → data us = Some d →
  db (snd (process_company_email e t st)) = db st
  ∨ (validate_email (text t) = true
     ∧ ∃ name, d !! "name" = Some name
        ∧ db (snd (process_company_email e t st))
          = with_company e name (<["email" := text t]> d) (db st)).
Proof.
  intros Hus Hd. unfold process_company_email. cbv zeta.
  destruct (validate_email (text t)); cbn [negb]; [|by left].
  unfold_prog. cbn beta iota. rewrite Hus, Hd.
  repeat first [progress unfold_prog | progress cbn beta iota].
  match goal with
  | |- context [save_company e ?d ?s] =>
      destruct (save_company_cases e d s)
        as [(x & -> & _)|(name & Hname & _ & ->)]
  end; repeat first [progress unfold_prog | progress cbn beta iota].
  - by left.
  - right. split; [done|].
    destruct (d !! "name") as [name'|] eqn:Hname'.
    + exists name'. rewrite lookup_insert_ne in Hname by done.
      split; [done|]. cbn. congruence.
    + by rewrite lookup_insert_ne, Hname' in Hname.
Qed.

(** X13: a message from a chat that is not in the API step changes the
    database only by finishing a registration, and the row added then
    carries an INN and a phone number that passed their validators when
    they were entered, a contact person, and the message text as an
    e-mail address that passes [validate_email]. *)
Theorem manual_registration_stores_validated_fields e st m :
  state_inv st → in_state st (message_chat m) waiting_api_data = false →
  db (handle e st m) = db st
  ∨ ∃ t row,
      m = MText t
      ∧ companies (db (handle e st m)) = companies (db st) ++ [row]
      ∧ files (db (handle e st m)) = files (db st)
      ∧ row_id row = (companies_seq (db st) + 1)%Z
      ∧ (∃ inn, row_inn row = Some inn ∧ validate_inn inn = true)
      ∧ (∃ phone, row_phone row = Some phone ∧ validate_phone phone = true)
      ∧ is_Some (row_contact_person row)
      ∧ row_email row = Some (text t) ∧ validate_email (text t) = true.
Proof.
  intros Hinv Hapi. unfold handle.
  destruct (find_handler st m) as [h|] eqn:Hfind; [|by left].
  apply find_handler_accepts in Hfind.
  destruct m as [t|f|chat kind]; cbn [message_chat] in *.
  - cbn [test_message_handler run_handler] in *.
    destruct (decide (h = h_process_text_for_api)) as [->|Hne1].
    { cbn [text_filter] in Hfind. congruence. }
    destruct (decide (h = h_process_company_email)) as [->|Hne2].
    2:{ left. by apply run_text_handler_db. }
    cbn [text_filter run_text_handler] in *.
    apply in_state_some in Hfind as (us & Hus & Hstate).
    pose proof (proj1 Hinv _ _ Hus) as Hreg. unfold reg_inv in Hreg.
    rewrite Hstate in Hreg. destruct Hreg as (d & Hd & Hcol).
    destruct (process_company_email_stored e t st us d Hus Hd)
      as [Hsame|(Hvalid & name & Hname & ->)]; [by left|].
    right. exists t. eexists. split; [done|].
    unfold with_company. cbn [companies files].
    split; [reflexivity|]. split; [done|]. cbn [row_id row_inn row_phone
      row_contact_person row_email]. split; [done|].
    destruct Hcol as (_ & (inn & Hinn & Hinn_ok) & (phone & Hphone & Hphone_ok)
                        & Hcontact).
    rewrite !lookup_insert_ne by done. rewrite lookup_insert_eq.
    split; [by eauto|]. split; [by eauto|]. done.
  - cbn [test_message_handler run_handler] in *. destruct h; try done. congruence.
  - done.
Qed.

(** X14: when the store fails at the last registration step, the
    handler still returns normally: the user gets the error text, nothing
    is written, and the chat's entry with every field collected is
    deleted, so the registration has to be started again. *)
Theorem store_failure_discards_registration e t st us d x :
  user_states st !! chat_id t = Some us → data us = Some d →
  validate_email (text t) = true → save_company_fault e = Some x →
  process_company_email e t st
  = (Ok tt,
     BotState (delete (chat_id t) (user_states st)) (search_states st) (db st)
       (log st ++ [EReply (chat_id t) (message_id t)
                     (u "⚠️ Ошибка при сохранении компании: " ++ exn_str x)
                     create_main_keyboard])).
Proof.
  intros Hus Hd Hvalid Hfault. unfold process_company_email. cbv zeta.
  rewrite Hvalid. cbn [negb]. unfold save_company. rewrite Hfault.
  repeat first [progress unfold_prog | progress cbn beta iota].
  rewrite Hus, Hd.
  repeat first [progress unfold_prog | progress cbn beta iota].
  cbn [user_states search_states db log]. by rewrite delete_insert_eq.
Qed.

(** X15: the two inserts of the file handler are not one transaction:
    when [save_file] fails after [save_company] succeeded, the company
    row stays in the database although the user is told of an error. *)
Theorem attachment_failure_keeps_company e f st path resp d x :
  get_file e (file_id f) = Ok path →
  fst (send_request e (file_chat_id f) (file_message_id f)
         (file_content f (api_file_url path)) st) = Ok resp →
  parse_api_response resp = Ok (Some d) →
  save_company_fault e = None → save_file_fault e = Some x →
  ∃ name st',
    d !! "name" = Some name
    ∧ process_files_for_api e f st = (Ok tt, st')
    ∧ db st' = with_company e name d (db st)
    ∧ outbound (log st')
      = outbound (log st)
        ++ [EReply (file_chat_id f) (file_message_id f) (api_error x)
              create_main_keyboard]
    ∧ user_states st' = delete (file_chat_id f) (user_states st).
Proof.
  intros Hget Hsent Hp Hcompany Hfile.
  unfold process_files_for_api, try_except.
  unfold mbind at 1, prog_bind at 1. unfold mbind at 1, prog_bind at 1.
  rewrite emit_spec. unfold mbind at 1, prog_bind at 1, lift_result at 1.
  rewrite Hget.
  destruct (send_request_effects e (file_chat_id f) (file_message_id f)
              (file_content f (api_file_url path))) as (r & tr & Hout & Hs).
  rewrite Hs in Hsent. cbn [fst] in Hsent. subst r.
  unfold mbind at 1, prog_bind at 1. rewrite Hs.
  unfold mbind at 1, prog_bind at 1, lift_result. rewrite Hp.
  rewrite (usable_parsed _ _ Hp).
  destruct (save_company_cases e d (with_log (with_log st [EGetFile (file_id f)]) tr))
    as [(y & _ & [Hfault|Hname])|(name & Hname & _ & Hsave)].
  { congruence. }
  { apply parse_api_response_some in Hp as [[n Hn] _]. congruence. }
  unfold mbind at 1, prog_bind at 1. rewrite Hsave.
  unfold mbind at 1, prog_bind at 1. rewrite save_file_cases, Hfile. run_io.
  exists name. eexists. split; [done|]. close_flow Hout.
Qed.

(** ** The search that works *)

Lemma search_company_db ty v st st' :
  db st' = db st → fst (search_company ty v st') = fst (search_company ty v st).
Proof.
  intros Hdb. unfold search_company. destruct ty as [ty|]; [|done].
  destruct (assoc (str_lower ty) field_map); [|done].
  unfold_prog. cbn. by rewrite Hdb.
Qed.

(** X16: a chat without a search entry that sends a criterion label and
    then a value gets the search: the value is looked up under that
    criterion, the matches (or the notice that there are none) are sent
    after the prompt, and the entry is gone again; nothing else
    changes. *)
Theorem criterion_then_value_searches e st chat mid1 mid2 label ty value :
  (label, ty) ∈ criteria → search_states st !! chat = None →
  is_start_command value = false → value ∉ early_labels.*1 →
  ∃ cs,
    fst (search_company (Some ty) value st) = Ok cs
    ∧ handle e (handle e st (MText (TextMessage chat mid1 label)))
        (MText (TextMessage chat mid2 value))
      = BotState (user_states st) (search_states st) (db st)
          (log st
           ++ [EReply chat mid1 (u "Введите значение для поиска по " ++ ty ++ u ":")
                 ReplyKeyboardRemove]
           ++ match cs with
              | [] => [EReply chat mid2 (u "Компании не найдены.") create_main_keyboard]
              | _ => send_listing chat create_main_keyboard
                       (listing (u "Найдено компаний: " ++ str_of_nat (length cs)
                                   ++ nl ++ nl) cs)
              end).
Proof.
  intros Hin Hnone Hstart Hnot.
  destruct (search_company_some ty value st) as [cs Hcs]. exists cs. split; [done|].
  rewrite (handle_text_routed e _ _ h_perform_search)
    by (by eapply criterion_without_command_searches).
  rewrite (handle_text_routed e st _ h_set_search_type)
    by (eapply early_label_routed; [by eapply criterion_is_early_label|reflexivity]).
  cbn [run_text_handler]. rewrite (set_search_type_spec _ _ _ ty) by done.
  cbn [snd chat_id message_id]. rewrite Hnone. cbn [default].
  erewrite (perform_search_spec e _ _ _ (Some ty) cs).
  - cbn [snd chat_id message_id text user_states search_states db log].
    rewrite delete_insert_eq, delete_id by done. by rewrite <- app_assoc.
  - cbn [search_states chat_id]. apply lookup_insert_eq.
  - apply lookup_insert_eq.
  - cbn [text]. by erewrite search_company_db.
Qed.

(** ** The registration dialogue *)

Lemma search_pending_ext st st' chat :
  search_states st' = search_states st → search_pending st' chat = search_pending st chat.
Proof. intros Hss. unfold search_pending. by rewrite Hss. Qed.

Lemma handle_step e st t us :
  search_pending st (chat_id t) = false → free_text (text t) →
  user_states st !! chat_id t = Some us → state us ≠ waiting_api_data →
  handle e st (MText t) = snd (run_text_handler (step_handler (state us)) e t st).
Proof.
  intros Hpending [Hstart Hnot] Hus Hstate. apply handle_text_routed.
  rewrite find_handler_not_early by done. rewrite Hpending, Hus.
  by rewrite bool_decide_eq_false_2.
Qed.

Lemma collect_reply_spec (t : text_message) key next body st us d :
  user_states st !! chat_id t = Some us → data us = Some d →
  (collect (chat_id t) key (text t) next;; reply_to t body NoMarkup) st
  = (Ok tt,
     BotState (<[chat_id t := UserState next (Some (<[key := text t]> d))]> (user_states st))
       (search_states st) (db st)
       (log st ++ [EReply (chat_id t) (message_id t) body NoMarkup])).
Proof.
  intros Hus Hd. erewrite bind_ok by (by eapply collect_spec).
  unfold reply_to. by rewrite emit_spec.
Qed.

Lemma email_step_spec e t st us d name :
  user_states st !! chat_id t = Some us → data us = Some d →
  d !! "name" = Some name →
  validate_email (text t) = true → save_company_fault e = None →
  process_company_email e t st
  = (Ok tt,
     BotState (delete (chat_id t) (user_states st)) (search_states st)
       (with_company e name (<["email" := text t]> d) (db st))
       (log st ++ [EReply (chat_id t) (message_id t)
                     (u "✅ Компания успешно сохранена!") create_main_keyboard])).
Proof.
  intros Hus Hd Hname Hvalid Hfault. unfold process_company_email. cbv zeta.
  rewrite Hvalid. cbn [negb]. unfold save_company. rewrite Hfault.
  repeat first [progress unfold_prog | progress cbn beta iota].
  rewrite Hus, Hd.
  repeat first [progress unfold_prog | progress cbn beta iota].
  rewrite lookup_insert_ne, Hname by done.
  repeat first [progress unfold_prog | progress cbn beta iota].
  cbn [user_states search_states db log]. by rewrite delete_insert_eq.
Qed.

Lemma run_cons e m steps st : run ((e, m) :: steps) st = run steps (handle e st m).
Proof. reflexivity. Qed.

Ltac next_step :=
  rewrite run_cons;
  erewrite handle_step;
    [ | by (cbn [chat_id]; erewrite search_pending_ext)
      | by cbn [text]
      | cbn [chat_id user_states]; apply lookup_insert_eq
      | done ];
  cbn [state step_handler run_text_handler].

(** X17: the whole registration dialogue.  After the menu label, five
    free texts of which the second, third and fifth pass their
    validators take the chat through the five steps whatever its entry
    was before; with a working store the last one inserts exactly one
    row with the five texts, each step is answered by its prompt, and
    the chat's entry is gone. *)
Theorem registration_dialogue_stores_company e st chat m0 m1 m2 m3 m4 m5
    name inn phone contact email :
  search_pending st chat = false →
  Forall free_text [name; inn; phone; contact; email] →
  validate_inn inn = true → validate_phone phone = true →
  validate_email email = true → save_company_fault e = None →
  run [ (e, MText (TextMessage chat m0 (u "Добавить компанию")));
        (e, MText (TextMessage chat m1 name));
        (e, MText (TextMessage chat m2 inn));
        (e, MText (TextMessage chat m3 phone));
        (e, MText (TextMessage chat m4 contact));
        (e, MText (TextMessage chat m5 email)) ] st
  = BotState (delete chat (user_states st)) (search_states st)
      (with_company e name (registered name inn phone contact email) (db st))
      (log st ++
         [ EReply chat m0 (u "Введите название компании:") ReplyKeyboardRemove;
           EReply chat m1 (u "Введите ИНН компании (10 или 12 цифр):") NoMarkup;
           EReply chat m2 (u "Введите телефон компании:") NoMarkup;
           EReply chat m3 (u "Введите контактное лицо:") NoMarkup;
           EReply chat m4 (u "Введите email компании:") NoMarkup;
           EReply chat m5 (u "✅ Компания успешно сохранена!") create_main_keyboard ]).
Proof.
  intros Hpending Hfree Hinn Hphone Hemail Hfault.
  apply Forall_cons in Hfree as [Hf1 Hfree]. apply Forall_cons in Hfree as [Hf2 Hfree].
  apply Forall_cons in Hfree as [Hf3 Hfree]. apply Forall_cons in Hfree as [Hf4 Hfree].
  apply Forall_cons in Hfree as [Hf5 _].
  rewrite run_cons.
  rewrite (handle_text_routed e st _ h_add_company_start)
    by (eapply early_label_routed; [|reflexivity];
        unfold early_labels; rewrite !elem_of_cons; right; by left).
  cbn [run_text_handler].
  replace (add_company_start e _ st) with
    (Ok tt,
     BotState (<[chat := UserState waiting_name (Some ∅)]> (user_states st))
       (search_states st) (db st)
       (log st ++ [EReply chat m0 (u "Введите название компании:") ReplyKeyboardRemove]))
    by reflexivity.
  cbn [snd].
  next_step. unfold process_company_name.
  erewrite collect_reply_spec;
    [|cbn [chat_id user_states]; apply lookup_insert_eq|reflexivity].
  cbn [snd chat_id message_id text user_states search_states db log].
  rewrite insert_insert_eq.
  next_step. unfold process_company_inn. cbv zeta. cbn [text]. rewrite Hinn. cbn [negb].
  erewrite collect_reply_spec;
    [|cbn [chat_id user_states]; apply lookup_insert_eq|reflexivity].
  cbn [snd chat_id message_id text user_states search_states db log].
  rewrite insert_insert_eq.
  next_step. unfold process_company_phone. cbv zeta. cbn [text]. rewrite Hphone.
  cbn [negb].
  erewrite collect_reply_spec;
    [|cbn [chat_id user_states]; apply lookup_insert_eq|reflexivity].
  cbn [snd chat_id message_id text user_states search_states db log].
  rewrite insert_insert_eq.
  next_step. unfold process_company_contact.
  erewrite collect_reply_spec;
    [|cbn [chat_id user_states]; apply lookup_insert_eq|reflexivity].
  cbn [snd chat_id message_id text user_states search_states db log].
  rewrite insert_insert_eq.
  next_step.
  erewrite (email_step_spec e _ _ _ _ name);
    [ | cbn [chat_id user_states]; apply lookup_insert_eq | reflexivity
      | by rewrite !lookup_insert_ne, lookup_insert_eq by done
      | done | done ].
  cbn [snd chat_id message_id text user_states search_states db log].
  rewrite delete_insert_eq, <- !app_assoc. reflexivity.
Qed.

(** ** The e-mail pattern *)

Lemma nullable_spec r : Regex.nullable r = true ↔ re_matches r [].
Proof.
  split.
  - induction r as [| |rs|a IHa b IHb|a IHa b IHb|a IHa]; cbn; try done.
    + intros _. constructor.
    + intros [Ha Hb]%andb_true_iff. apply (matches_cat a b [] []); auto.
    + intros [Ha|Hb]%orb_true_iff; [apply matches_alt_l|apply matches_alt_r]; auto.
    + intros _. constructor.
  - intros H. remember [] as s eqn:Hs. induction H; cbn; try done.
    + apply app_eq_nil in Hs as [-> ->]. rewrite IHre_matches1, IHre_matches2; done.
    + rewrite IHre_matches; done.
    + rewrite IHre_matches; [|done]. apply orb_true_r.
Qed.

Lemma deriv_sound c r s : re_matches (Regex.deriv c r) s → re_matches r (c :: s).
Proof.
  revert s. induction r as [| |rs|a IHa b IHb|a IHa b IHb|a IHa]; cbn; intros s H.
  - inversion H.
  - inversion H.
  - destruct (Regex.in_class rs c) eqn:Hc; inversion H. by constructor.
  - destruct (Regex.nullable a) eqn:Hnull.
    + inversion H as [| | | ? ? ? Hl | ? ? ? Hr | |]; subst.
      * inversion Hl as [| |? ? s1 s2 H1 H2| | | |]; subst.
        apply (matches_cat a b (c :: s1) s2); auto.
      * apply (matches_cat a b [] (c :: s)); [by apply nullable_spec|auto].
    + inversion H as [| |? ? s1 s2 H1 H2| | | |]; subst.
      apply (matches_cat a b (c :: s1) s2); auto.
  - inversion H; subst; [apply matches_alt_l|apply matches_alt_r]; auto.
  - inversion H as [| |? ? s1 s2 H1 H2| | | |]; subst.
    apply (matches_star_cons a (c :: s1) s2); auto.
Qed.

Lemma deriv_complete c r s : re_matches r (c :: s) → re_matches (Regex.deriv c r) s.
Proof.
  intros H. remember (c :: s) as cs eqn:Hcs. revert c s Hcs.
  induction H as [|rs c' Hc|a b s1 s2 H1 IH1 H2 IH2|a b s0 H0 IH|a b s0 H0 IH
                 |a|a s1 s2 H1 IH1 H2 IH2]; intros c s Hcs; cbn; try done.
  - injection Hcs as -> <-. rewrite Hc. constructor.
  - destruct s1 as [|c1 s1]; cbn in Hcs.
    + apply nullable_spec in H1. rewrite H1. apply matches_alt_r. auto.
    + injection Hcs as -> <-.
      destruct (Regex.nullable a);
        [apply matches_alt_l|]; apply matches_cat; auto.
  - apply matches_alt_l. auto.
  - apply matches_alt_r. auto.
  - destruct s1 as [|c1 s1]; cbn in Hcs.
    + apply (IH2 c s Hcs).
    + injection Hcs as -> <-. apply matches_cat; auto.
Qed.

Lemma fullmatch_spec r s : Regex.fullmatch r s = true ↔ re_matches r s.
Proof.
  unfold Regex.fullmatch. revert r. induction s as [|c s IH]; intros r; cbn.
  - apply nullable_spec.
  - rewrite IH. split; [apply deriv_sound|apply deriv_complete].
Qed.

Lemma matches_cat_inv a b s :
  re_matches (Regex.Cat a b) s ↔ ∃ s1 s2, s = s1 ++ s2 ∧ re_matches a s1 ∧ re_matches b s2.
Proof.
  split.
  - intros H. inversion H; subst. eauto.
  - intros (s1 & s2 & -> & H1 & H2). by constructor.
Qed.

Lemma matches_cls_inv rs s :
  re_matches (Regex.Cls rs) s ↔ ∃ c, s = [c] ∧ Regex.in_class rs c = true.
Proof.
  split.
  - intros H. inversion H; subst. eauto.
  - intros (c & -> & Hc). by constructor.
Qed.

Lemma matches_star_cls rs s :
  re_matches (Regex.Star (Regex.Cls rs)) s ↔ Forall (λ c, Regex.in_class rs c = true) s.
Proof.
  split.
  - intros H. remember (Regex.Star (Regex.Cls rs)) as r eqn:Hr.
    induction H as [| | | | | |a s1 s2 H1 _ H2 IH2]; try done.
    injection Hr as ->. inversion H1; subst. constructor; auto.
  - induction 1 as [|c s Hc _ IH]; [constructor|].
    apply (matches_star_cons _ [c] s); [by constructor|done].
Qed.

Lemma matches_plus_cls rs s :
  re_matches (Regex.plus (Regex.Cls rs)) s
  ↔ s ≠ [] ∧ Forall (λ c, Regex.in_class rs c = true) s.
Proof.
  unfold Regex.plus. rewrite matches_cat_inv. split.
  - intros (s1 & s2 & -> & (c & -> & Hc)%matches_cls_inv & H2%matches_star_cls).
    split; [done|]. by constructor.
  - intros [Hne Hall]. destruct Hall as [|c s Hc Hall]; [done|].
    exists [c], s. split; [done|]. split; [by constructor|by apply matches_star_cls].
Qed.

Lemma matches_at_least2_cls rs s :
  re_matches (Regex.at_least2 (Regex.Cls rs)) s
  ↔ (2 ≤ length s)%nat ∧ Forall (λ c, Regex.in_class rs c = true) s.
Proof.
  unfold Regex.at_least2. rewrite matches_cat_inv. split.
  - intros (s1 & s2 & -> & (c & -> & Hc)%matches_cls_inv
              & (s3 & s4 & -> & (c' & -> & Hc')%matches_cls_inv
                   & H4%matches_star_cls)%matches_cat_inv).
    split; [cbn; lia|]. by repeat constructor.
  - intros [Hlen Hall]. destruct Hall as [|c s Hc Hall]; [cbn in Hlen; lia|].
    destruct Hall as [|c' s Hc' Hall]; [cbn in Hlen; lia|].
    exists [c], (c' :: s). split; [done|]. split; [by constructor|].
    apply matches_cat_inv. exists [c'], s. split; [done|].
    split; [by constructor|by apply matches_star_cls].
Qed.

Ltac class_eq c :=
  clear - c; apply eq_true_iff_eq;
  unfold local_char, domain_char, ascii_alnum, ascii_letter, Regex.in_class;
  eval_literals; cbn [existsb app fst snd];
  rewrite ?orb_true_iff, ?andb_true_iff, ?bool_decide_eq_true, ?elem_of_cons,
    ?elem_of_nil, ?N.leb_le;
  intuition (try discriminate; lia).

Lemma local_class c :
  Regex.in_class [(97, 122); (65, 90); (48, 57); (46, 46); (95, 95); (37, 37);
                  (43, 43); (45, 45)] c
  = local_char c.
Proof. class_eq c. Qed.

Lemma domain_class c :
  Regex.in_class [(97, 122); (65, 90); (48, 57); (46, 46); (45, 45)] c = domain_char c.
Proof. class_eq c. Qed.

Lemma letter_class c : Regex.in_class [(97, 122); (65, 90)] c = ascii_letter c.
Proof. class_eq c. Qed.

Lemma Forall_class (p q : N → bool) (s : pystr) :
  (∀ c, p c = q c) → Forall (λ c, p c = true) s ↔ Forall (λ c, q c = true) s.
Proof. intros Hpq. apply Forall_proper; [|done]. intros c. by rewrite Hpq. Qed.

Lemma email_pattern_spec s : re_matches email_pattern s ↔ email_shape s.
Proof.
  unfold email_pattern, email_shape. cbv zeta. cbn [app]. eval_literals. split.
  - intros (local & s1 & -> & Hlocal%matches_plus_cls
              & (at_ & s2 & -> & (c & -> & Hat)%matches_cls_inv
                 & (domain & s3 & -> & Hdomain%matches_plus_cls
                    & (dot & tld & -> & (c' & -> & Hdot)%matches_cls_inv
                         & Htld%matches_at_least2_cls)%matches_cat_inv)%matches_cat_inv
                )%matches_cat_inv)%matches_cat_inv.
    assert (c = 64) as ->.
    { unfold Regex.in_class in Hat. cbn in Hat. rewrite orb_false_r in Hat.
      apply andb_true_iff in Hat as [?%N.leb_le ?%N.leb_le]. lia. }
    assert (c' = 46) as ->.
    { unfold Regex.in_class in Hdot. cbn in Hdot. rewrite orb_false_r in Hdot.
      apply andb_true_iff in Hdot as [?%N.leb_le ?%N.leb_le]. lia. }
    exists local, domain, tld. split; [done|].
    destruct Hlocal as [? Hlocal], Hdomain as [? Hdomain], Htld as [? Htld].
    rewrite (Forall_class _ _ _ local_class) in Hlocal.
    rewrite (Forall_class _ _ _ domain_class) in Hdomain.
    rewrite (Forall_class _ _ _ letter_class) in Htld. done.
  - intros (local & domain & tld & -> & Hne1 & Hlocal & Hne2 & Hdomain & Hlen & Htld).
    apply matches_cat_inv. exists local, (64 :: domain ++ 46 :: tld). split; [done|].
    split.
    { apply matches_plus_cls. split; [done|].
      by rewrite (Forall_class _ _ _ local_class). }
    apply matches_cat_inv. exists [64], (domain ++ 46 :: tld). split; [done|].
    split; [by constructor|].
    apply matches_cat_inv. exists domain, (46 :: tld). split; [done|].
    split.
    { apply matches_plus_cls. split; [done|].
      by rewrite (Forall_class _ _ _ domain_class). }
    apply matches_cat_inv. exists [46], tld. split; [done|].
    split; [by constructor|].
    apply matches_at_least2_cls. split; [done|].
    by rewrite (Forall_class _ _ _ letter_class).
Qed.

(** X18: [validate_email] accepts exactly the addresses made of a
    non-empty local part over [[a-zA-Z0-9._%+-]], an at sign, a non-empty
    domain over [[a-zA-Z0-9.-]], a dot and at least two ASCII letters,
    and the same followed by one line feed, which [$] lets through. *)
Theorem validate_email_spec (email : pystr) :
  validate_email email = true
  ↔ email_shape email ∨ ∃ address, email = address ++ nl ∧ email_shape address.
Proof.
  unfold validate_email, Regex.match_anchored.
  rewrite orb_true_iff, fullmatch_spec, email_pattern_spec.
  apply or_iff_compat_l. unfold nl. eval_literals.
  destruct (rev email) as [|c r] eqn:Hrev.
  - split; [done|]. intros (address & -> & _).
    rewrite rev_app_distr in Hrev. done.
  - apply (f_equal (@rev N)) in Hrev. rewrite rev_involutive in Hrev. cbn in Hrev.
    subst email. destruct (decide (c = 10)) as [->|Hne].
    + rewrite fullmatch_spec, email_pattern_spec. split; [by eauto|].
      intros (address & [-> _]%app_inj_tail & Hshape). done.
    + split.
      * destruct c as [|p]; [done|]. do 4 (destruct p; try done).
      * intros (address & [_ ?]%app_inj_tail & _). done.
Qed.

(** ** Lookup by id *)

Lemma db_step_ids_fresh e d d' : ids_fresh d → db_step e d d' → ids_fresh d'.
Proof.
  unfold ids_fresh.
  intros Hfresh [->|[(name & data & ->)|(name & data & url & ty & cap & ->)]];
    [done| |]; cbn [with_company with_file companies companies_seq].
  all: apply Forall_app; split;
    [ eapply Forall_impl; [exact Hfresh|]; cbn beta; intros r Hr; lia
    | repeat constructor; cbn [row_id]; lia ].
Qed.

Lemma run_ids_fresh steps st : ids_fresh (db st) → ids_fresh (db (run steps st)).
Proof.
  intros Hfresh. induction steps as [|[e m] steps IH] using rev_ind; [done|].
  rewrite run_snoc. destruct (handle_local e (run steps st) m) as (_ & _ & _ & Hdb).
  by eapply db_step_ids_fresh.
Qed.

Lemma find_snoc {X} (f : X → bool) (l : list X) (x : X) :
  List.find f (l ++ [x])
  = match List.find f l with
    | Some y => Some y
    | None => if f x then Some x else None
    end.
Proof. induction l as [|y l IH]; cbn; [done|]. by destruct (f y). Qed.

Lemma find_fresh_id (d : database) (id : Z) :
  ids_fresh d → (companies_seq d < id)%Z →
  List.find (λ r, (row_id r =? id)%Z) (companies d) = None.
Proof.
  unfold ids_fresh. intros Hfresh Hlt.
  induction Hfresh as [|r l Hr _ IH]; cbn; [done|].
  by rewrite (proj2 (Z.eqb_neq _ _)) by lia.
Qed.

(** X19: insert and lookup.  In a database whose ids do not exceed the
    counter (as in every state the bot reaches from such a database), the
    id that [save_company] returns was free before, [get_company_by_id]
    finds under it the row just written, with the fields of the
    dictionary, and every other id is answered as before. *)
Theorem saved_company_found_by_id steps st0 e company_data id st' :
  ids_fresh (db st0) →
  save_company e company_data (run steps st0) = (Ok id, st') →
  fst (get_company_by_id id (run steps st0)) = Ok None
  ∧ (∃ name,
       company_data !! "name" = Some name
       ∧ fst (get_company_by_id id st')
         = Ok (Some (CompanyRow id name (company_data !! "inn")
                       (company_data !! "phone") (company_data !! "contact_person")
                       (company_data !! "email") (now e))))
  ∧ (∀ other, other ≠ id →
       fst (get_company_by_id other st') = fst (get_company_by_id other (run steps st0)))
  ∧ ids_fresh (db st').
Proof.
  intros Hfresh%(run_ids_fresh steps). set (st := run steps st0) in *. intros Hsave.
  destruct (save_company_cases e company_data st)
    as [(x & Hraise & _)|(name & Hname & _ & Hok)]; [congruence|].
  rewrite Hok in Hsave. injection Hsave as <- <-.
  unfold get_company_by_id. unfold_prog. cbn [fst db with_company companies].
  repeat split.
  - f_equal. apply find_fresh_id; [done|lia].
  - exists name. split; [done|]. f_equal.
    rewrite find_snoc, find_fresh_id by (done || lia). cbn [row_id].
    by rewrite Z.eqb_refl.
  - intros other Hother. f_equal. rewrite find_snoc. cbn [row_id].
    destruct (List.find _ (companies (db st))); [done|].
    by rewrite (proj2 (Z.eqb_neq _ _)) by done.
  - eapply db_step_ids_fresh; [exact Hfresh|]. right; left. eauto.
Qed.

(** ** What a call posts *)

Lemma send_loop_events e p : ∀ rest a,
  ∃ r tr, Forall (λ ev, ev = EPost p ∨ ∃ seconds, ev = ESleep seconds) tr
          ∧ ∀ st, send_loop e p a rest st = (r, with_log st tr).
Proof.
  induction rest as [|rest IH]; intros a.
  - exists (Ok VNone), []. split; [done|]. intros st. by rewrite with_log_nil.
  - destruct (IH (S a)) as (r & tr & Hall & Hrun).
    assert (Hpost : Forall (λ ev, ev = EPost p ∨ ∃ seconds, ev = ESleep seconds)
                      [EPost p]) by (repeat constructor; by left).
    destruct (net e a) as [body|x] eqn:Hnet.
    { exists (Ok body), [EPost p]. split; [done|]. intros st.
      by rewrite send_loop_step, Hnet. }
    destruct (is_request_exception x) eqn:Hreq.
    2:{ exists (Raise x), [EPost p]. split; [done|]. intros st.
        by rewrite send_loop_step, Hnet, Hreq. }
    destruct (Z.of_nat a =? MAX_RETRIES - 1)%Z eqn:Hlast.
    { exists (Raise x), [EPost p]. split; [done|]. intros st.
      by rewrite send_loop_step, Hnet, Hreq, Hlast. }
    exists r, ([EPost p; ESleep (2 ^ N.of_nat a)] ++ tr). split.
    + apply Forall_app. split; [|done].
      constructor; [by left|]. constructor; [|done]. right. by eexists.
    + intros st. by rewrite send_loop_step, Hnet, Hreq, Hlast, Hrun, with_log_app.
Qed.

(** X20: a call of [send_request] does nothing but post and sleep, and
    every attempt posts the same payload: the bot id, the chat and
    message ids and the content it was called with. *)
Theorem retries_post_same_payload e chat mid content st :
  ∃ r tr,
    send_request e chat mid content st = (r, with_log st tr)
    ∧ Forall (λ ev, ev = EPost (Payload BOT_ID (chat, mid) content)
                    ∨ ∃ seconds, ev = ESleep seconds) tr.
Proof.
  destruct (send_loop_events e (Payload BOT_ID (chat, mid) content)
              (Z.to_nat MAX_RETRIES) 0) as (r & tr & Hall & Hrun).
  exists r, tr. split; [apply Hrun|done].
Qed.

(** ** Labelled lines *)

Lemma contains_blanks c label pre s :
  isspace c = false → blanks pre →
  contains (c :: label) (pre ++ s) = contains (c :: label) s.
Proof.
  intros Hc. induction 1 as [|x pre [Hx _] _ IH]; [done|].
  cbn [app]. rewrite contains_cons, IH. cbn [startswith].
  destruct (N.eqb_spec c x) as [->|_]; [congruence|done].
Qed.

Lemma replace_go_blanks c label pre s :
  isspace c = false → blanks pre →
  replace_go (c :: label) [] 0 (pre ++ s) = pre ++ replace_go (c :: label) [] 0 s.
Proof.
  intros Hc. induction 1 as [|x pre [Hx _] _ IH]; [done|].
  cbn [app replace_go startswith].
  destruct (N.eqb_spec c x) as [->|_]; [congruence|]. cbn [andb]. by rewrite IH.
Qed.

Lemma lstrip_blanks pre s : blanks pre → lstrip (pre ++ s) = lstrip s.
Proof.
  induction 1 as [|x pre [Hx _] _ IH]; [done|]. cbn [app lstrip]. by rewrite Hx.
Qed.

Lemma strip_blanks pre s : blanks pre → strip (pre ++ s) = strip s.
Proof. intros Hpre. unfold strip. by rewrite lstrip_blanks. Qed.

Lemma blanks_one_line pre : blanks pre → 10 ∉ pre.
Proof.
  induction 1 as [|x pre [_ Hx] _ IH]; [apply not_elem_of_nil|].
  rewrite not_elem_of_cons. by split.
Qed.

Lemma label_head label key :
  (label, key) ∈ field_labels → ∃ c rest, label = c :: rest ∧ isspace c = false.
Proof.
  unfold field_labels. rewrite !elem_of_cons, elem_of_nil.
  intros [H|[H|[H|[H|[H|[]]]]]]; injection H as -> _; eval_literals; by eauto.
Qed.

Lemma labels_upto_elem label l ls : l ∈ labels_upto label ls → l ∈ ls.
Proof.
  induction ls as [|x ls IH]; [done|]. cbn [labels_upto].
  intros [->|Hl]%elem_of_cons; [by left|]. right.
  destruct (PyStr.eqb x label); [by apply elem_of_nil in Hl|by apply IH].
Qed.

Lemma labels_upto_self label ls : label ∈ ls → label ∈ labels_upto label ls.
Proof.
  induction ls as [|x ls IH]; [by intros ?%elem_of_nil|]. cbn [labels_upto].
  destruct (decide (x = label)) as [->|Hne]; [by left|].
  intros [->|Hl]%elem_of_cons; [done|]. right.
  unfold PyStr.eqb. rewrite bool_decide_eq_false_2 by done. by apply IH.
Qed.

(** The chain stops at the first label that occurs in the line. *)
Lemma first_label_upto line label key ls :
  NoDup ls.*1 → (label, key) ∈ ls →
  (∀ l, l ∈ labels_upto label ls.*1 → l ≠ label → contains l line = false) →
  contains label line = true →
  first_label line ls = Some (label, key).
Proof.
  induction ls as [|[l k] ls IH]; intros Hnd Hin Hbefore Hself.
  { by apply elem_of_nil in Hin. }
  cbn [first_label]. cbn [fmap list_fmap fst labels_upto] in Hnd, Hbefore.
  apply NoDup_cons in Hnd as [Hl Hnd].
  destruct (decide (l = label)) as [->|Hne].
  - rewrite Hself. do 2 f_equal.
    apply elem_of_cons in Hin as [[= <-]|Hin]; [done|].
    exfalso. apply Hl, list_elem_of_fmap. by exists (label, key).
  - rewrite (Hbefore l) by (done || by left).
    apply IH; [done| | |done].
    + apply elem_of_cons in Hin as [[= -> ->]|Hin]; done.
    + intros l' Hl' Hne'. apply Hbefore; [|done]. right.
      unfold PyStr.eqb. by rewrite bool_decide_eq_false_2.
Qed.

Lemma field_labels_NoDup : NoDup field_labels.*1.
Proof. apply (bool_decide_unpack _). by vm_compute. Qed.

(** A line made of blanks, a label and a value that mentions neither
    that label nor an earlier one sets the label's field to the trimmed
    value. *)
Lemma classify_indented pre label key v :
  (label, key) ∈ field_labels → blanks pre → value_after label v →
  classify (pre ++ label ++ v) = Some (key, strip v).
Proof.
  intros Hin Hpre [Hv _]. rewrite Forall_forall in Hv.
  destruct (label_head _ _ Hin) as (c & rest & -> & Hc).
  assert (Hlabel : c :: rest ∈ field_labels.*1).
  { apply list_elem_of_fmap. by exists (c :: rest, key). }
  unfold classify. rewrite (first_label_upto _ (c :: rest) key).
  - do 2 f_equal. unfold replace. rewrite replace_go_blanks by done.
    change (replace_go (c :: rest) [] 0 ((c :: rest) ++ v))
      with (replace (c :: rest) [] ((c :: rest) ++ v)).
    rewrite replace_label by (by apply Hv, labels_upto_self).
    by apply strip_blanks.
  - apply field_labels_NoDup.
  - done.
  - intros l Hl Hne.
    assert (Hl' : l ∈ field_labels.*1) by (by eapply labels_upto_elem).
    destruct (proj1 (list_elem_of_fmap _ _ _) Hl') as ([l0 k] & -> & Hlk).
    destruct (label_head _ _ Hlk) as (c' & rest' & -> & Hc'). cbn [fst] in *.
    rewrite contains_blanks by done.
    rewrite contains_other_label by done. by apply Hv.
  - rewrite contains_blanks by done. apply contains_startswith, startswith_app.
Qed.

Lemma omap_classify_indented pres name inn phone contact email others :
  length pres = 5%nat → Forall blanks pres →
  Forall2 value_after field_labels.*1 [name; inn; phone; contact; email] →
  Forall label_free others →
  omap classify
    (zip_with app pres (labelled_lines name inn phone contact email) ++ others)
  = [ ("name", strip name); ("inn", strip inn); ("phone", strip phone);
      ("contact_person", strip contact); ("email", strip email) ].
Proof.
  intros Hlen Hpres Hvalues Hothers.
  destruct pres as [|p1 [|p2 [|p3 [|p4 [|p5 [|]]]]]]; try done.
  rewrite !Forall_cons in Hpres. destruct Hpres as (B1 & B2 & B3 & B4 & B5 & _).
  unfold field_labels in Hvalues. cbn [fmap list_fmap fst] in Hvalues.
  apply Forall2_cons in Hvalues as [V1 Hvalues].
  apply Forall2_cons in Hvalues as [V2 Hvalues].
  apply Forall2_cons in Hvalues as [V3 Hvalues].
  apply Forall2_cons in Hvalues as [V4 Hvalues].
  apply Forall2_cons in Hvalues as [V5 _].
  unfold labelled_lines. cbn [zip_with]. cbn [app omap list_omap].
  rewrite (classify_indented p1 _ "name"), (classify_indented p2 _ "inn"),
    (classify_indented p3 _ "phone"), (classify_indented p4 _ "contact_person"),
    (classify_indented p5 _ "email");
    try assumption; try (unfold field_labels; repeat constructor).
  by rewrite omap_classify_label_free.
Qed.

Lemma parse_text_indented pres name inn phone contact email others ls :
  length pres = 5%nat → Forall blanks pres →
  Forall2 value_after field_labels.*1 [name; inn; phone; contact; email] →
  Forall plain_value others →
  ls ≡ₚ zip_with app pres (labelled_lines name inn phone contact email) ++ others →
  parse_text (join nl ls) = Some (candidate name inn phone contact email).
Proof.
  intros Hlen Hpres Hvalues Hothers Hperm.
  assert (Hlines : Forall (λ l : pystr, 10 ∉ l) ls).
  { rewrite Hperm. apply Forall_app. split.
    - pose proof labels_one_line as Hlabels.
      pose proof Hvalues as Hv. revert Hlabels Hv. unfold field_labels.
      cbn [fmap list_fmap fst]. intros Hlabels Hv.
      destruct pres as [|p1 [|p2 [|p3 [|p4 [|p5 [|]]]]]]; try done.
      rewrite !Forall_cons in Hlabels, Hpres.
      destruct Hlabels as (L1 & L2 & L3 & L4 & L5 & _).
      destruct Hpres as (B1%blanks_one_line & B2%blanks_one_line & B3%blanks_one_line
                         & B4%blanks_one_line & B5%blanks_one_line & _).
      apply Forall2_cons in Hv as [[_ V1] Hv]. apply Forall2_cons in Hv as [[_ V2] Hv].
      apply Forall2_cons in Hv as [[_ V3] Hv]. apply Forall2_cons in Hv as [[_ V4] Hv].
      apply Forall2_cons in Hv as [[_ V5] _].
      unfold labelled_lines. cbn [zip_with].
      repeat constructor; rewrite !not_elem_of_app; done.
    - eapply Forall_impl; [exact Hothers|]. by intros l [_ Hl]. }
  assert (Hne : ls ≠ []).
  { intros ->. destruct pres; [done|]. by apply Permutation_nil_l in Hperm. }
  unfold parse_text. rewrite split_join, parse_lines_map by done.
  assert (Hmap : list_to_map (rev (omap classify ls))
                 = candidate name inn phone contact email).
  { symmetry.
    change (candidate name inn phone contact email)
      with (list_to_map (M:=gmap string pystr)
              [ ("name", strip name); ("inn", strip inn); ("phone", strip phone);
                ("contact_person", strip contact); ("email", strip email) ]).
    apply list_to_map_proper.
    - cbn [fmap list_fmap fst]. apply (bool_decide_unpack _). by vm_compute.
    - rewrite <- Permutation_rev, Hperm.
      rewrite omap_classify_indented; [done|done|done|done|].
      eapply Forall_impl; [exact Hothers|]. by intros l [Hl _]. }
  rewrite Hmap. reflexivity.
Qed.

(** C3, amended: when the lines of the text are, in any order, five
    lines each made of blanks (possibly none), one of the five labels
    and a value that contains neither that label nor a label tried
    before it ([Название:], [ИНН:], [Телефон:], [Контактное лицо:],
    [Email:], in this order) and no newline, together with any lines that
    contain no label, the parser yields the candidate whose five fields
    are the values, that is the text after the label, trimmed of
    surrounding whitespace; and when the Email label occurs on no line
    the parser yields [None], whatever the other lines are. *)
Theorem response_parser_roundtrip :
  (∀ pres name inn phone contact email others ls,
      length pres = 5%nat → Forall blanks pres →
      Forall2 value_after field_labels.*1 [name; inn; phone; contact; email] →
      Forall plain_value others →
      ls ≡ₚ zip_with app pres (labelled_lines name inn phone contact email) ++ others →
      parse_text (join nl ls) = Some (candidate name inn phone contact email)
      ∧ parse_api_response (VDict {[ "done" := VStr (join nl ls) ]})
        = Ok (Some (candidate name inn phone contact email)))
  ∧ (∀ text_data,
        Forall (λ line, contains (u "Email:") line = false) (split_char 10 text_data) →
        parse_text text_data = None
        ∧ parse_api_response (VDict {[ "done" := VStr text_data ]}) = Ok None).
Proof.
  split.
  - intros pres name inn phone contact email others ls Hlen Hpres Hvalues Hothers Hperm.
    pose proof (parse_text_indented _ _ _ _ _ _ _ _ Hlen Hpres Hvalues Hothers Hperm)
      as Hparse.
    split; [done|]. rewrite parse_api_response_done, Hparse.
    destruct (join nl ls) eqn:Hjoin; [|done].
    assert (Hempty : parse_text [] = None) by (by vm_compute). congruence.
  - intros text_data Hlines.
    pose proof (parse_text_without_email _ Hlines) as Hparse.
    split; [done|]. rewrite parse_api_response_done, Hparse. by destruct text_data.
Qed.

(** ** The API flow under dispatch *)

Lemma handle_api_text e st t :
  in_state st (chat_id t) waiting_api_data = true →
  search_pending st (chat_id t) = false →
  free_text (text t) → text t ≠ u "Отправить данные в API" →
  handle e st (MText t) = snd (process_text_for_api e t st).
Proof.
  intros (us & Hus & Hstate)%in_state_some Hpending [Hstart Hnot] Hlabel.
  apply (handle_text_routed e st t h_process_text_for_api).
  rewrite find_handler_not_early by done. rewrite Hpending, Hus, Hstate.
  unfold PyStr.eqb. rewrite (bool_decide_eq_false_2 (text t = _)) by done.
  by rewrite andb_false_r.
Qed.

Lemma handle_api_file e st f :
  in_state st (file_chat_id f) waiting_api_data = true →
  handle e st (MFile f) = snd (process_files_for_api e f st).
Proof.
  intros Hstate. unfold handle. by rewrite find_handler_file, Hstate.
Qed.

(** C6, amended: a chat that awaits API input gets the API flow for
    every file, and for every text that is not the [/start] command, a
    menu or criterion label or the API label, provided no search
    criterion is pending for the chat.  Then, whatever the API, the
    parser and the store do, exactly one reply is sent and the chat's
    state entry is removed.  The reply is the success message when the
    parser yielded a complete record and it was stored (for a file
    together with the attachment row), the "no usable data" message when
    the parser yielded nothing, and the error message carrying [str(e)]
    when the network call, the parser or the store (for a file also the
    file lookup) raised [e]; only in the last case, when the attachment
    row could not be written, has the database changed without a success
    message. *)
Theorem api_flow_terminal_reply e st :
  (∀ message : text_message,
      let chat := chat_id message in
      let sent := fst (send_request e chat (message_id message)
                         (ContentText (text message)) st) in
      ∃ body st',
        process_text_for_api e message st = (Ok tt, st')
        ∧ (in_state st chat waiting_api_data = true →
           search_pending st chat = false →
           free_text (text message) → text message ≠ u "Отправить данные в API" →
           handle e st (MText message) = st')
        ∧ outbound (log st')
          = outbound (log st)
            ++ [EReply chat (message_id message) body create_main_keyboard]
        ∧ user_states st' = delete chat (user_states st)
        ∧ search_states st' = search_states st
        ∧ ((body = api_success
            ∧ ∃ resp d name,
                sent = Ok resp ∧ parse_api_response resp = Ok (Some d)
                ∧ d !! "name" = Some name
                ∧ db st' = with_company e name d (db st))
           ∨ (body = api_no_data
              ∧ ∃ resp, sent = Ok resp ∧ parse_api_response resp = Ok None
                        ∧ db st' = db st)
           ∨ (∃ x, body = api_error x ∧ db st' = db st
                   ∧ (sent = Raise x
                      ∨ ∃ resp, sent = Ok resp
                                ∧ (parse_api_response resp = Raise x
                                   ∨ ∃ d, parse_api_response resp = Ok (Some d)
                                          ∧ save_company_fault e = Some x)))))
  ∧ (∀ message : file_message,
        let chat := file_chat_id message in
        let sent path := fst (send_request e chat (file_message_id message)
                                (file_content message (api_file_url path)) st) in
        ∃ body st',
          process_files_for_api e message st = (Ok tt, st')
          ∧ (in_state st chat waiting_api_data = true →
             handle e st (MFile message) = st')
          ∧ outbound (log st')
            = outbound (log st)
              ++ [EReply chat (file_message_id message) body create_main_keyboard]
          ∧ user_states st' = delete chat (user_states st)
          ∧ search_states st' = search_states st
          ∧ ((body = api_success
              ∧ ∃ path resp d name,
                  get_file e (file_id message) = Ok path
                  ∧ sent path = Ok resp ∧ parse_api_response resp = Ok (Some d)
                  ∧ d !! "name" = Some name
                  ∧ db st' = with_file e (companies_seq (db st) + 1)%Z
                               (api_file_url path) (content_type (kind message))
                               (caption message) (with_company e name d (db st)))
             ∨ (body = api_no_data
                ∧ ∃ path resp,
                    get_file e (file_id message) = Ok path
                    ∧ sent path = Ok resp ∧ parse_api_response resp = Ok None
                    ∧ db st' = db st)
             ∨ (∃ x, body = api_error x
                     ∧ (get_file e (file_id message) = Raise x ∧ db st' = db st
                        ∨ ∃ path,
                            get_file e (file_id message) = Ok path
                            ∧ (sent path = Raise x ∧ db st' = db st
                               ∨ ∃ resp,
                                   sent path = Ok resp
                                   ∧ (parse_api_response resp = Raise x ∧ db st' = db st
                                      ∨ ∃ d name,
                                          parse_api_response resp = Ok (Some d)
                                          ∧ d !! "name" = Some name
                                          ∧ (save_company_fault e = Some x
                                             ∧ db st' = db st
                                             ∨ save_file_fault e = Some x
                                               ∧ db st' = with_company e name d
                                                            (db st))))))))
  ∧ api_success ≠ api_no_data
  ∧ (∀ x, api_error x ≠ api_success ∧ api_error x ≠ api_no_data).
Proof.
  split; [|split; [|apply api_replies_distinct]].
  - intros message chat sent.
    destruct (text_api_flow e message st) as (body & st' & Hrun & Hrest).
    exists body, st'. split; [exact Hrun|]. split; [|exact Hrest].
    intros Hstate Hpending Hfree Hlabel.
    rewrite handle_api_text by done. by rewrite Hrun.
  - intros message chat sent.
    destruct (file_api_flow e message st) as (body & st' & Hrun & Hrest).
    exists body, st'. split; [exact Hrun|]. split; [|exact Hrest].
    intros Hstate. rewrite handle_api_file by done. by rewrite Hrun.
Qed.

(** ** Registration under dispatch *)



End Bot.

(** * Instances *)

Lemma send_request_retry_contract_witness :
  (∃ tr, send_request 3 25590 sample_env 1 7 (ContentText (u "Acme")) initial_state
         = (Ok (VDict ∅), with_log initial_state tr)
         ∧ attempts tr = 3%nat ∧ slept tr = 2 ^ 0 + 2 ^ 1)
  ∧ (∃ tr, send_request 3 25590 sample_env_down 1 7 (ContentText (u "Acme")) initial_state
           = (Raise timed_out, with_log initial_state tr)
           ∧ Z.of_nat (attempts tr) = 3%Z
           ∧ slept tr = 2 ^ Z.to_N (3 - 1) - 1).
Proof.
  split.
  - apply (proj1 (proj2 (send_request_retry_contract 3 25590 sample_env 1 7
                           (ContentText (u "Acme")) initial_state))
             timed_out timed_out (VDict ∅)); reflexivity.
  - apply (proj2 (proj2 (send_request_retry_contract 3 25590 sample_env_down 1 7
                           (ContentText (u "Acme")) initial_state)) timed_out).
    + lia.
    + intros i _. exists timed_out. split; reflexivity.
    + reflexivity.
Defined.

Lemma zero_retries_no_usable_data_witness :
  (0 = 0)%Z
  ∧ process_text_for_api 0 25590 sample_env (TextMessage 1 7 (u "Acme")) initial_state
    = (Ok tt,
       cleared 1 (with_log initial_state
                    [EReply 1 7 api_no_data create_main_keyboard])).
Proof.
  split; [reflexivity|].
  apply (zero_retries_no_usable_data 0 25590 [] sample_env initial_state eq_refl).
Defined.

Lemma search_command_flow_never_searches_witness :
  (u "По названию", u "названию") ∈ criteria
  ∧ let st2 :=
      handle ascii_isdigit id (λ _ _, true) id 3 25590 [] sample_env
        (handle ascii_isdigit id (λ _ _, true) id 3 25590 [] sample_env initial_state
           (MText (TextMessage 1 1 (u "Найти компанию"))))
        (MText (TextMessage 1 2 (u "По названию"))) in
    handle ascii_isdigit id (λ _ _, true) id 3 25590 [] sample_env st2
      (MText (TextMessage 1 3 (u "Acme"))) = st2.
Proof.
  assert (Hin : (u "По названию", u "названию") ∈ criteria) by (by left).
  split; [exact Hin|].
  apply (proj2 (proj2 (proj2
           (search_command_flow_never_searches ascii_isdigit id (λ _ _, true) id
              3 25590 [] sample_env initial_state 1 1 2 _ _ Hin))) 3%Z (u "Acme")).
  - reflexivity.
  - reflexivity.
  - apply (bool_decide_unpack _). vm_compute. reflexivity.
  - intros H. vm_compute in H. discriminate H.
Defined.

Lemma extraction_source_first_truthy_witness :
  truthy (dict_get sample_empty_done "done" VNone) = false
  ∧ truthy (dict_get sample_empty_done "message" VNone) = true
  ∧ parse_api_response (VDict sample_empty_done)
    = parse_chosen (dict_get sample_empty_done "message" VNone).
Proof.
  split; [reflexivity|]. split; [reflexivity|].
  apply (proj1 (proj2 (extraction_source_first_truthy sample_empty_done))); reflexivity.
Defined.

Lemma long_reply_chunking_witness :
  length (repeat 1040 (N.to_nat 10000)) = N.to_nat 10000
  ∧ map length (chunks 4096 (repeat 1040 (N.to_nat 10000)))
    = [4096; 4096; 1808]%nat.
Proof.
  assert (Hlen : length (repeat 1040 (N.to_nat 10000)) = N.to_nat 10000)
    by apply repeat_length.
  split; [exact Hlen|].
  apply (proj1 (proj2 (long_reply_chunking id (λ _ _, true) id)) _ Hlen).
Defined.

Lemma other_exception_not_retried_witness :
  ∃ tr, send_request 3 25590 sample_env_crash 1 7 (ContentText (u "Acme")) initial_state
        = (Raise unexpected, with_log initial_state tr)
        ∧ attempts tr = 1%nat.
Proof.
  apply (other_exception_not_retried 3 25590 sample_env_crash 1 7
           (ContentText (u "Acme")) initial_state 0 unexpected).
  - lia.
  - intros i Hi. lia.
  - reflexivity.
  - reflexivity.
Defined.

Lemma candidate_fields_trimmed_witness :
  parse_api_response (VDict sample_record)
  = Ok (Some (<["email" := u "info@acme.ru"]>
                (<["inn" := u "1234567890"]> (<["name" := u "Acme"]> ∅))))
  ∧ strip (u "info@acme.ru") = u "info@acme.ru".
Proof.
  assert (Hparse : parse_api_response (VDict sample_record)
                   = Ok (Some (<["email" := u "info@acme.ru"]>
                                 (<["inn" := u "1234567890"]>
                                    (<["name" := u "Acme"]> ∅)))))
    by (vm_compute; reflexivity).
  split; [exact Hparse|].
  apply (proj1 (candidate_fields_trimmed _ _ Hparse) "email" (u "info@acme.ru")).
  vm_compute. reflexivity.
Defined.

Lemma later_line_overrides_witness :
  parse_text (join nl ([u "Название: Acme"; u "ИНН: 1234567890"; u "Email: info@acme.ru"]
                       ++ [u "ИНН:" ++ u " 7707083893 "]))
  = Some (<["email" := u "info@acme.ru"]>
            (<["inn" := u "7707083893"]> (<["name" := u "Acme"]> ∅)))
  ∧ (<["email" := u "info@acme.ru"]>
       (<["inn" := u "7707083893"]> (<["name" := u "Acme"]> ∅)) : gmap string pystr)
      !! "inn"
    = Some (strip (u " 7707083893 ")).
Proof.
  assert (Hparse :
    parse_text (join nl ([u "Название: Acme"; u "ИНН: 1234567890"; u "Email: info@acme.ru"]
                         ++ [u "ИНН:" ++ u " 7707083893 "]))
    = Some (<["email" := u "info@acme.ru"]>
              (<["inn" := u "7707083893"]> (<["name" := u "Acme"]> ∅))))
    by (vm_compute; reflexivity).
  split; [exact Hparse|].
  apply (later_line_overrides
           [u "Название: Acme"; u "ИНН: 1234567890"; u "Email: info@acme.ru"]
           (u "ИНН:") "inn" (u " 7707083893 ") _).
  - right. left.
  - apply label_freeb_spec. vm_compute. reflexivity.
  - apply (bool_decide_unpack _). vm_compute. reflexivity.
  - repeat constructor; apply (bool_decide_unpack _); vm_compute; reflexivity.
  - exact Hparse.
Defined.

Lemma formatted_record_parses_back_witness :
  parse_api_response (VDict {[ "text" := VStr (format_company_info sample_company) ]})
  = Ok (Some (candidate (u "Acme") (u "1234567890") (u "None") (u "Bob")
                (u "info@acme.ru"))).
Proof.
  apply (formatted_record_parses_back sample_company);
    apply plain_value_check; vm_compute; reflexivity.
Defined.

Lemma other_chats_untouched_witness :
  user_states
    (handle ascii_isdigit id (λ _ _, true) id 3 25590 [] sample_env sample_waiting_email
       (MText (TextMessage 2 5 (u "Добавить компанию")))) !! 1%Z
  = user_states sample_waiting_email !! 1%Z.
Proof.
  apply (proj1 (other_chats_untouched ascii_isdigit id (λ _ _, true) id 3 25590 []
                  sample_env sample_waiting_email
                  (MText (TextMessage 2 5 (u "Добавить компанию"))) 1%Z
                  ltac:(discriminate))).
Defined.

Lemma attachments_reference_companies_witness :
  let upload :=
    [ (sample_env_record, MText (TextMessage 1 1 (u "Отправить данные в API")));
      (sample_env_record, MFile sample_file) ] in
  let st1 := run ascii_isdigit id (λ _ _, true) id 3 25590 [] upload initial_state in
  let st2 := run ascii_isdigit id (λ _ _, true) id 3 25590 [] upload st1 in
  file_company_id <$> files (db st1) = [1%Z]
  ∧ row_id <$> companies (db st1) = [1%Z]
  ∧ file_company_id <$> files (db st2) = [1%Z; 2%Z]
  ∧ db_wf (db st2).
Proof.
  intros upload st1 st2.
  split; [reflexivity|]. split; [reflexivity|]. split; [reflexivity|].
  apply (attachments_reference_companies ascii_isdigit id (λ _ _, true) id 3 25590 []
           upload st1).
  apply Forall_cons. split; [|apply Forall_nil; exact I].
  apply (bool_decide_unpack _). vm_compute. reflexivity.
Defined.

Lemma sample_waiting_email_inv : state_inv ascii_isdigit sample_waiting_email.
Proof.
  split.
  - intros chat us H. unfold sample_waiting_email in H. cbn [user_states] in H.
    apply lookup_singleton_Some in H as [<- <-].
    eexists. split; [reflexivity|].
    split; [by eexists|]. split; [by eexists|]. split; [by eexists|]. by eexists.
  - intros chat entry H. unfold sample_waiting_email in H. cbn [search_states] in H.
    by rewrite lookup_empty in H.
Qed.

Lemma state_invariant_preserved_witness :
  state_inv ascii_isdigit
    (run ascii_isdigit id (λ _ _, true) id 3 25590 []
       [ (sample_env, MText (TextMessage 1 30 (u "info@acme")));
         (sample_env, MText (TextMessage 2 31 (u "По ИНН"))) ]
       sample_waiting_email).
Proof.
  apply (state_invariant_preserved ascii_isdigit id (λ _ _, true) id 3 25590 []).
  exact sample_waiting_email_inv.
Defined.

Lemma selected_handler_never_raises_witness :
  handle_outcome ascii_isdigit id (λ _ _, true) id 3 25590 [] sample_env
    (run ascii_isdigit id (λ _ _, true) id 3 25590 []
       [ (sample_env, MText (TextMessage 2 31 (u "По ИНН"))) ] sample_waiting_email)
    (MText (TextMessage 2 32 (u "1234567890")))
  = Ok tt.
Proof.
  apply (selected_handler_never_raises ascii_isdigit id (λ _ _, true) id 3 25590 []).
  exact sample_waiting_email_inv.
Defined.

Lemma manual_registration_stores_validated_fields_witness :
  let st' := handle ascii_isdigit id (λ _ _, true) id 3 25590 [] sample_env
               sample_waiting_email (MText (TextMessage 1 30 (u "info@acme.ru"))) in
  db st' = db sample_waiting_email
  ∨ ∃ t row,
      MText (TextMessage 1 30 (u "info@acme.ru")) = MText t
      ∧ companies (db st') = companies (db sample_waiting_email) ++ [row]
      ∧ files (db st') = files (db sample_waiting_email)
      ∧ row_id row = (companies_seq (db sample_waiting_email) + 1)%Z
      ∧ (∃ inn, row_inn row = Some inn ∧ validate_inn ascii_isdigit inn = true)
      ∧ (∃ phone, row_phone row = Some phone ∧ validate_phone ascii_isdigit phone = true)
      ∧ is_Some (row_contact_person row)
      ∧ row_email row = Some (text t) ∧ validate_email (text t) = true.
Proof.
  apply (manual_registration_stores_validated_fields ascii_isdigit id (λ _ _, true) id
           3 25590 [] sample_env sample_waiting_email
           (MText (TextMessage 1 30 (u "info@acme.ru")))).
  - exact sample_waiting_email_inv.
  - reflexivity.
Defined.

Lemma store_failure_discards_registration_witness :
  process_company_email sample_env_readonly (TextMessage 1 30 (u "info@acme.ru"))
    sample_waiting_email
  = (Ok tt,
     BotState (delete 1%Z (user_states sample_waiting_email))
       (search_states sample_waiting_email) (db sample_waiting_email)
       (log sample_waiting_email
        ++ [EReply 1 30 (u "⚠️ Ошибка при сохранении компании: " ++ exn_str readonly)
              create_main_keyboard])).
Proof.
  apply (store_failure_discards_registration sample_env_readonly
           (TextMessage 1 30 (u "info@acme.ru")) sample_waiting_email
           (UserState waiting_email
              (Some {[ "name" := u "Acme"; "inn" := u "1234567890";
                       "phone" := u "+7 999 123-45-67";
                       "contact_person" := u "Bob" ]}))
           {[ "name" := u "Acme"; "inn" := u "1234567890";
              "phone" := u "+7 999 123-45-67"; "contact_person" := u "Bob" ]}
           readonly); reflexivity.
Defined.

Lemma attachment_failure_keeps_company_witness :
  ∃ name st',
    (<["email" := u "info@acme.ru"]>
       (<["inn" := u "1234567890"]> (<["name" := u "Acme"]> ∅)) : gmap string pystr)
      !! "name" = Some name
    ∧ process_files_for_api 3 25590 [] sample_env_files_readonly sample_file
        initial_state = (Ok tt, st')
    ∧ db st'
      = with_company sample_env_files_readonly name
          (<["email" := u "info@acme.ru"]>
             (<["inn" := u "1234567890"]> (<["name" := u "Acme"]> ∅)))
          (db initial_state)
    ∧ outbound (log st')
      = outbound (log initial_state)
        ++ [EReply 1 8 (api_error readonly) create_main_keyboard]
    ∧ user_states st' = delete 1%Z (user_states initial_state).
Proof.
  apply (attachment_failure_keeps_company 3 25590 [] sample_env_files_readonly
           sample_file initial_state (u "documents/file_1.pdf")
           (VDict sample_record) _ readonly).
  - reflexivity.
  - reflexivity.
  - vm_compute. reflexivity.
  - reflexivity.
  - reflexivity.
Defined.

Lemma criterion_then_value_searches_witness :
  ∃ cs,
    fst (search_company id (λ _ _, true) (Some (u "инн")) (u "1234") initial_state) = Ok cs
    ∧ handle ascii_isdigit id (λ _ _, true) id 3 25590 [] sample_env
        (handle ascii_isdigit id (λ _ _, true) id 3 25590 [] sample_env initial_state
           (MText (TextMessage 1 1 (u "По ИНН"))))
        (MText (TextMessage 1 2 (u "1234")))
      = BotState (user_states initial_state) (search_states initial_state)
          (db initial_state)
          (log initial_state
           ++ [EReply 1 1 (u "Введите значение для поиска по " ++ u "инн" ++ u ":")
                 ReplyKeyboardRemove]
           ++ match cs with
              | [] => [EReply 1 2 (u "Компании не найдены.") create_main_keyboard]
              | _ => send_listing 1 create_main_keyboard
                       (listing (u "Найдено компаний: " ++ str_of_nat (length cs)
                                   ++ nl ++ nl) cs)
              end).
Proof.
  apply (criterion_then_value_searches ascii_isdigit id (λ _ _, true) id 3 25590 []
           sample_env initial_state 1 1 2 (u "По ИНН") (u "инн") (u "1234")).
  - right. left.
  - reflexivity.
  - reflexivity.
  - apply (bool_decide_unpack _). vm_compute. reflexivity.
Defined.

Lemma registration_dialogue_stores_company_witness :
  db (run ascii_isdigit id (λ _ _, true) id 3 25590 []
        [ (sample_env, MText (TextMessage 1 1 (u "Добавить компанию")));
          (sample_env, MText (TextMessage 1 2 (u "Acme")));
          (sample_env, MText (TextMessage 1 3 (u "1234567890")));
          (sample_env, MText (TextMessage 1 4 (u "+7 999 123-45-67")));
          (sample_env, MText (TextMessage 1 5 (u "Bob")));
          (sample_env, MText (TextMessage 1 6 (u "info@acme.ru"))) ]
        initial_state)
  = with_company sample_env (u "Acme")
      (registered (u "Acme") (u "1234567890") (u "+7 999 123-45-67") (u "Bob")
         (u "info@acme.ru"))
      (db initial_state).
Proof.
  apply (f_equal db
           (registration_dialogue_stores_company ascii_isdigit id (λ _ _, true) id
              3 25590 [] sample_env initial_state 1 1 2 3 4 5 6
              (u "Acme") (u "1234567890") (u "+7 999 123-45-67") (u "Bob")
              (u "info@acme.ru")
              ltac:(reflexivity)
              ltac:(repeat constructor; try reflexivity;
                    apply (bool_decide_unpack _); vm_compute; reflexivity)
              ltac:(reflexivity) ltac:(reflexivity) ltac:(reflexivity)
              ltac:(reflexivity))).
Defined.

Lemma saved_company_found_by_id_witness :
  fst (get_company_by_id 1
         (BotState ∅ ∅
            (with_company sample_env (u "Acme") {[ "name" := u "Acme" ]}
               (db initial_state)) []))
  = Ok (Some (CompanyRow 1 (u "Acme") None None None None (now sample_env))).
Proof.
  destruct (proj1 (proj2
             (saved_company_found_by_id ascii_isdigit id (λ _ _, true) id 3 25590 []
                [] initial_state sample_env {[ "name" := u "Acme" ]} 1
                (BotState ∅ ∅
                   (with_company sample_env (u "Acme") {[ "name" := u "Acme" ]}
                      (db initial_state)) [])
                ltac:(apply Forall_nil; exact I) ltac:(reflexivity))))
    as (name & Hname & Hfound).
  injection Hname as <-. exact Hfound.
Defined.

Lemma validate_inn_spec_witness :
  32 ∈ u "1234 67890" ∧ ascii_isdigit 32 = false
  ∧ validate_inn ascii_isdigit (u "1234 67890") = false.
Proof.
  assert (Hin : 32 ∈ u "1234 67890").
  { apply (bool_decide_unpack _). vm_compute. reflexivity. }
  split; [exact Hin|]. split; [reflexivity|].
  apply (proj2 (validate_inn_spec ascii_isdigit (u "1234 67890")) 32 Hin).
  reflexivity.
Defined.

Lemma dispatch_first_match_witness :
  find_handler sample_waiting_name (MText (TextMessage 1 10 (u "Отправить данные в API")))
  = Some h_process_company_name
  ∧ find_handler sample_waiting_name (MText (TextMessage 1 10 (u "Найти компанию")))
    = Some h_search_company_start
  ∧ find_handler sample_waiting_name (MText (TextMessage 1 10 (u "/start@contact_bot now")))
    = Some h_start_message.
Proof.
  split; [|split].
  - apply (proj1 (proj2 (proj2 (proj2 (dispatch_first_match sample_waiting_name))))
             (TextMessage 1 10 (u "Отправить данные в API"))
             (UserState waiting_name (Some ∅))).
    + reflexivity.
    + apply (bool_decide_unpack _). vm_compute. reflexivity.
    + reflexivity.
    + reflexivity.
  - apply (proj1 (proj2 (dispatch_first_match sample_waiting_name))
             (TextMessage 1 10 (u "Найти компанию")) (u "Найти компанию")).
    + do 3 right. left.
    + reflexivity.
  - apply (proj1 (dispatch_first_match sample_waiting_name)
             (TextMessage 1 10 (u "/start@contact_bot now"))).
    reflexivity.
Defined.

Lemma response_parser_roundtrip_witness :
  parse_text
    (join nl [u "Email: info@acme.ru"; u "  Название: Acme, ИНН: see below ";
              u "ИНН: 1234567890"; u "Телефон: +7 495 123-45-67";
              u "	Контактное лицо: Bob (Email: bob@acme.ru)"; u "--"])
  = Some (candidate (u " Acme, ИНН: see below ") (u " 1234567890")
            (u " +7 495 123-45-67") (u " Bob (Email: bob@acme.ru)") (u " info@acme.ru"))
  ∧ parse_text (join nl [u "Название: Acme"; u "ИНН: 1234567890"]) = None.
Proof.
  split.
  - apply (proj1 response_parser_roundtrip
             [u "  "; []; []; u "	"; []]
             (u " Acme, ИНН: see below ") (u " 1234567890")
             (u " +7 495 123-45-67") (u " Bob (Email: bob@acme.ru)") (u " info@acme.ru")
             [u "--"]).
    + reflexivity.
    + repeat constructor; vm_compute; done.
    + repeat constructor; try (vm_compute; reflexivity);
        apply (bool_decide_unpack _); vm_compute; reflexivity.
    + repeat constructor; apply plain_value_check; vm_compute; reflexivity.
    + vm_compute.
      let l1 := eval vm_compute in
          [u "  Название: Acme, ИНН: see below "; u "ИНН: 1234567890";
           u "Телефон: +7 495 123-45-67";
           u "	Контактное лицо: Bob (Email: bob@acme.ru)"] in
      let l2 := eval vm_compute in [u "--"] in
      let a := eval vm_compute in (u "Email: info@acme.ru") in
      exact (Permutation_middle l1 l2 a).
  - apply (proj2 response_parser_roundtrip
             (join nl [u "Название: Acme"; u "ИНН: 1234567890"])).
    apply (bool_decide_unpack _). vm_compute. reflexivity.
Defined.

(** C6, as stated, fails: a chat that awaits API input and sends the
    help label gets the help text; nothing is posted to the API, none of
    the three terminal replies is sent and the chat still awaits API
    input. *)
Lemma api_flow_label_counterexample :
  let st' := handle ascii_isdigit id (λ _ _, true) id 3 25590 [] sample_env
               sample_waiting_api (MText (TextMessage 1 40 (u "Помощь"))) in
  in_state sample_waiting_api 1 waiting_api_data = true
  ∧ log st' = [EReply 1 40 help_text NoMarkup]
  ∧ help_text ≠ api_success ∧ help_text ≠ api_no_data
  ∧ (∀ x, help_text ≠ api_error x)
  ∧ in_state st' 1 waiting_api_data = true.
Proof.
  split; [reflexivity|]. split; [reflexivity|]. split; [discriminate|].
  split; [discriminate|]. split; [|reflexivity].
  intros x. unfold api_error. discriminate.
Qed.

Lemma api_flow_terminal_reply_witness :
  ∃ body,
    outbound (log (handle ascii_isdigit id (λ _ _, true) id 3 25590 [] sample_env_record
                     sample_waiting_api (MText (TextMessage 1 41 (u "Acme")))))
    = [EReply 1 41 body create_main_keyboard]
    ∧ user_states (handle ascii_isdigit id (λ _ _, true) id 3 25590 [] sample_env_record
                     sample_waiting_api (MText (TextMessage 1 41 (u "Acme"))))
      = delete 1%Z (user_states sample_waiting_api).
Proof.
  destruct (proj1 (api_flow_terminal_reply ascii_isdigit id (λ _ _, true) id 3 25590 []
                     sample_env_record sample_waiting_api)
              (TextMessage 1 41 (u "Acme")))
    as (body & st' & _ & Hhandle & Hout & Hus & _).
  exists body.
  assert (Hfree : free_text (u "Acme")).
  { split; [reflexivity|]. apply (bool_decide_unpack _). vm_compute. reflexivity. }
  assert (Hlabel : u "Acme" ≠ u "Отправить данные в API") by discriminate.
  rewrite (Hhandle eq_refl eq_refl Hfree Hlabel).
  split; [exact Hout|exact Hus].
Defined.



(** * Examples *)

Example u_ascii : u "Email:" = [69; 109; 97; 105; 108; 58].
Proof. reflexivity. Qed.

Example u_cyrillic : u "ИНН:" = [1048; 1053; 1053; 58].
Proof. reflexivity. Qed.

Example strip_example : strip (u "  a b
") = u "a b".
Proof. reflexivity. Qed.

Example split_example : split_char 10 (u "a
b

c
") = [u "a"; u "b"; []; u "c"; []].
Proof. reflexivity. Qed.

Example replace_example : replace (u "ab") (u "-") (u "xababab_aab") = u "x---_a-".
Proof. reflexivity. Qed.

Example validate_phone_accepts :
  validate_phone ascii_isdigit (u "+7 (495) 123-45-67") = true.
Proof. reflexivity. Qed.

Example validate_phone_rejects : validate_phone ascii_isdigit (u "12345") = false.
Proof. reflexivity. Qed.

Example validate_inn_examples :
  validate_inn ascii_isdigit (u "1234567890") = true
  ∧ validate_inn ascii_isdigit (u "123456789") = false
  ∧ validate_inn ascii_isdigit (u "12345678901") = false.
Proof. repeat split; reflexivity. Qed.

Example validate_email_examples :
  validate_email (u "info@acme.ru") = true
  ∧ validate_email (u "info@acme") = false
  ∧ validate_email (u "info acme@x.ru") = false.
Proof. repeat split; reflexivity. Qed.

Example chunks_example : chunks 3 [1; 2; 3; 4; 5; 6; 7] = [[1; 2; 3]; [4; 5; 6]; [7]].
Proof. reflexivity. Qed.

(** The search flow of C1 on the initial state: the third message finds
    no handler and changes nothing. *)
Example search_flow_run :
  let H := handle ascii_isdigit id (λ _ _, true) id 3 25590 [] sample_env in
  let st2 := H (H initial_state (MText (TextMessage 1 1 (u "Найти компанию"))))
               (MText (TextMessage 1 2 (u "По названию"))) in
  find_handler st2 (MText (TextMessage 1 3 (u "Acme"))) = None
  ∧ H st2 (MText (TextMessage 1 3 (u "Acme"))) = st2
  ∧ length (outbound (log st2)) = 2%nat
  ∧ search_states st2 !! 1%Z
    = Some {[ "search_type" := Some (u "названию"); "search_value" := None ]}.
Proof. repeat split; by vm_compute. Qed.

